(** * PowerShell Direct communicator: command session and file transfer

    A shallow embedding of the [powershelldirect] package (communicator,
    structured stream decoder, stream process wrapper, file and directory
    transfers, script staging) together with models of the Go
    standard-library functions the package calls ([strings.TrimSpace],
    [strings.HasSuffix], [bufio.ScanLines], [encoding/base64],
    [encoding/json]), of its callers (the PowerShell Direct configuration
    and connection step) and of the parts of the [powershell] package
    behind its runner (the process environment and the global executor).

    Conventions.
    - A Go [string] is a Rocq [string]: a finite sequence of 8-bit
      characters.  A Go [[]byte] is a [list byte]; the nil slice and the
      empty slice are both [[]].
    - A Go [int] is a [Z].
    - A Go [error] is [option Err]: [None] is the nil error.
    - A pair [(v, err)] returned by a Go function is a [Res]. *)

From Stdlib Require Import ZArith NArith List String Ascii Bool Lia.
From Stdlib Require Import Strings.Byte DecimalString.
From Stdlib Require DecimalPos.
Import ListNotations.

#[local] Set Warnings "-register-all".

Local Open Scope string_scope.
Local Open Scope list_scope.

(* ================================================================== *)
(** * Part I: definitions *)
(* ================================================================== *)

(** ** Errors and results *)

Inductive Err : Type :=
| ErrNilCommand            (* "remote command cannot be nil" *)
| ErrUnsupportedExclude    (* errUnsupportedExclude *)
| ErrCanceled              (* context.Canceled *)
| ErrDeadlineExceeded      (* context.DeadlineExceeded *)
| ErrProcessDone           (* os.ErrProcessDone *)
| ErrWaitAlreadyCalled     (* "exec: Wait was already called" *)
| ErrNotStarted            (* "exec: not started" *)
| ErrCorruptInput (offset : nat)   (* base64.CorruptInputError *)
| ErrTooLong               (* bufio.ErrTooLong *)
| ErrJsonSyntax            (* json.SyntaxError *)
| ErrJsonType (value field : string)   (* json.UnmarshalTypeError *)
| ErrOther (msg : string). (* an error of the environment *)

Inductive Res (A : Type) : Type :=
| Ok (value : A)
| Failed (e : Err).

Arguments Ok {A} value.
Arguments Failed {A} e.

(** ** Go strings *)

Module GoStrings.

Definition code (c : ascii) : N := N_of_ascii c.

Definition chr (n : N) : ascii := ascii_of_N n.

Definition bytesOf (s : string) : list byte := list_byte_of_string s.

Definition isEmpty (s : string) : bool :=
  match s with EmptyString => true | String _ _ => false end.

Definition rev (s : string) : string :=
  string_of_list_ascii (List.rev (list_ascii_of_string s)).

(** [asciiSpace] of package strings: tab, line feed, vertical tab, form
    feed, carriage return and space. *)
Definition asciiSpace (c : ascii) : bool :=
  let n := code c in
  ((9 <=? n) && (n <=? 13) || (n =? 32))%N.

(** [unicode.IsSpace] on the runes whose UTF-8 encoding has two bytes:
    U+0085 (C2 85) and U+00A0 (C2 A0). *)
Definition space2 (a b : ascii) : bool :=
  let x := code a in
  let y := code b in
  ((x =? 194) && ((y =? 133) || (y =? 160)))%N.

(** [unicode.IsSpace] on the runes whose UTF-8 encoding has three bytes:
    U+1680 (E1 9A 80), U+2000..U+200A (E2 80 80..8A), U+2028, U+2029
    (E2 80 A8, E2 80 A9), U+202F (E2 80 AF), U+205F (E2 81 9F) and
    U+3000 (E3 80 80). *)
Definition space3 (a b c : ascii) : bool :=
  let x := code a in
  let y := code b in
  let z := code c in
  ((x =? 225) && (y =? 154) && (z =? 128)
   || (x =? 226) && (y =? 128)
      && ((128 <=? z) && (z <=? 138) || (z =? 168) || (z =? 169) || (z =? 175))
   || (x =? 226) && (y =? 129) && (z =? 159)
   || (x =? 227) && (y =? 128) && (z =? 128))%N.

(** A 7-bit character that is not white space: it starts no white-space
    rune and ends none. *)
Definition plain (c : ascii) : bool :=
  (code c <? 128)%N && negb (asciiSpace c).

(** [strings.TrimLeftFunc(s, unicode.IsSpace)]: drop leading white-space
    runes; a byte that starts no white-space rune stops the scan. *)
Fixpoint trimLeft (s : string) : string :=
  match s with
  | EmptyString => s
  | String a r1 =>
      if asciiSpace a then trimLeft r1
      else
        match r1 with
        | EmptyString => s
        | String b r2 =>
            if space2 a b then trimLeft r2
            else
              match r2 with
              | EmptyString => s
              | String c r3 => if space3 a b c then trimLeft r3 else s
              end
        end
  end.

(** The scan of [strings.TrimRightFunc(s, unicode.IsSpace)], on the
    reversed string: the encodings are matched last byte first. *)
Fixpoint trimLeftRev (s : string) : string :=
  match s with
  | EmptyString => s
  | String a r1 =>
      if asciiSpace a then trimLeftRev r1
      else
        match r1 with
        | EmptyString => s
        | String b r2 =>
            if space2 b a then trimLeftRev r2
            else
              match r2 with
              | EmptyString => s
              | String c r3 => if space3 c b a then trimLeftRev r3 else s
              end
        end
  end.

Definition trimRight (s : string) : string := rev (trimLeftRev (rev s)).

(** [strings.TrimSpace]. *)
Definition TrimSpace (s : string) : string := trimRight (trimLeft s).

(** The texts made of white-space runes only, the empty text among
    them. *)
Inductive WhiteSpace : string -> Prop :=
| ws_empty : WhiteSpace EmptyString
| ws_ascii (a : ascii) (s : string) :
    asciiSpace a = true -> WhiteSpace s -> WhiteSpace (String a s)
| ws_rune2 (a b : ascii) (s : string) :
    space2 a b = true -> WhiteSpace s -> WhiteSpace (String a (String b s))
| ws_rune3 (a b c : ascii) (s : string) :
    space3 a b c = true -> WhiteSpace s ->
    WhiteSpace (String a (String b (String c s))).

(** [strings.HasSuffix(s, suffix)]:
    [len(s) >= len(suffix) && s[len(s)-len(suffix):] == suffix]. *)
Definition HasSuffix (s suffix : string) : bool :=
  (String.length suffix <=? String.length s)%nat
  && String.eqb
       (substring (String.length s - String.length suffix)
                  (String.length suffix) s)
       suffix.

End GoStrings.

Import GoStrings.

(** ** encoding/base64: the standard padded encoding *)

Module Base64.

(** [encodeStd], the alphabet of [base64.StdEncoding]. *)
Definition encodeStd : string :=
  "ABCDEFGHIJKLMNOPQRSTUVWXYZabcdefghijklmnopqrstuvwxyz0123456789+/".

Definition padChar : ascii := "="%char.

(** [enc.encode[i]]; [Encode] only reads it at indices below 64, so the
    default is never returned there. *)
Definition encodeChar (i : Z) : ascii :=
  match String.get (Z.to_nat i) encodeStd with
  | Some c => c
  | None => padChar
  end.

Fixpoint indexFrom (c : ascii) (alphabet : string) (i : Z) : Z :=
  match alphabet with
  | EmptyString => 255
  | String a rest => if Ascii.eqb a c then i else indexFrom c rest (i + 1)
  end.

(** [enc.decodeMap[c]]: the position of [c] in the alphabet, 0xff for a
    byte outside it. *)
Definition decodeMap (c : ascii) : Z := indexFrom c encodeStd 0.

Definition byteToZ (b : byte) : Z := Z.of_N (Byte.to_N b).

(** The conversion [byte(x)] of an unsigned integer: its low eight bits
    (which always name a byte). *)
Definition byteOfZ (z : Z) : byte :=
  match Byte.of_N (Z.to_N (Z.land z 255)) with
  | Some b => b
  | None => x00
  end.

Definition sextet (val shift : Z) : ascii :=
  encodeChar (Z.land (Z.shiftr val shift) 63).

(** [Encoding.Encode] for [StdEncoding]: full groups of three bytes, then
    the remaining one or two bytes with padding. *)
Fixpoint encode (src : list byte) : list ascii :=
  match src with
  | [] => []
  | b0 :: r1 =>
      match r1 with
      | [] =>
          let val := Z.shiftl (byteToZ b0) 16 in
          [sextet val 18; sextet val 12; padChar; padChar]
      | b1 :: r2 =>
          match r2 with
          | [] =>
              let val :=
                Z.lor (Z.shiftl (byteToZ b0) 16) (Z.shiftl (byteToZ b1) 8) in
              [sextet val 18; sextet val 12; sextet val 6; padChar]
          | b2 :: rest =>
              let val :=
                Z.lor (Z.lor (Z.shiftl (byteToZ b0) 16)
                             (Z.shiftl (byteToZ b1) 8))
                      (byteToZ b2) in
              sextet val 18 :: sextet val 12 :: sextet val 6 :: sextet val 0
              :: encode rest
          end
      end
  end.

(** [StdEncoding.EncodeToString] *)
Definition EncodeToString (src : list byte) : string :=
  string_of_list_ascii (encode src).

Definition isNewline (c : ascii) : bool :=
  Ascii.eqb c "010"%char || Ascii.eqb c "013"%char.

(** The loops [for si < len(src) && (src[si] == '\n' || src[si] == '\r')]
    of [decodeQuantum]: the input left and the new index. *)
Fixpoint skipNewlines (src : list ascii) (si : nat) : list ascii * nat :=
  match src with
  | c :: rest => if isNewline c then skipNewlines rest (S si) else (src, si)
  | [] => (src, si)
  end.

(** The tail of [decodeQuantum]: the sextets read ([dlen] of them, the
    others zero) give [dlen - 1] bytes. *)
Definition quantumBytes (dbuf : list Z) : list byte :=
  let d := fun i => nth i dbuf 0%Z in
  let val :=
    Z.lor (Z.lor (Z.lor (Z.shiftl (d 0%nat) 18) (Z.shiftl (d 1%nat) 12))
                 (Z.shiftl (d 2%nat) 6))
          (d 3%nat) in
  firstn (List.length dbuf - 1)
         [byteOfZ (Z.shiftr val 16); byteOfZ (Z.shiftr val 8); byteOfZ val].

(** After the padding has been read: only line breaks may follow
    ("trailing garbage" otherwise). *)
Definition afterPadding (rest : list ascii) (si : nat) (out : list byte)
  : Res (list byte) :=
  match skipNewlines rest si with
  | ([], _) => Ok out
  | (_ :: _, si') => Failed (ErrCorruptInput si')
  end.

(** [Encoding.Decode] for [StdEncoding] (padded, not strict): the loop over
    [decodeQuantum], flattened.  [si] is the index of the next input byte,
    [dbuf] the sextets of the current quantum and [out] the bytes decoded
    so far.  On an error Go also returns the bytes decoded before it; no
    caller in this package reads them, and the model drops them. *)
Fixpoint decodeLoop (src : list ascii) (si : nat) (dbuf : list Z)
  (out : list byte) : Res (list byte) :=
  match src with
  | [] =>
      match dbuf with
      | [] => Ok out
      | _ :: _ => Failed (ErrCorruptInput (si - List.length dbuf))
      end
  | c :: rest =>
      let v := decodeMap c in
      if negb (v =? 255)%Z then
        let dbuf' := dbuf ++ [v] in
        if (List.length dbuf' =? 4)%nat
        then decodeLoop rest (S si) [] (out ++ quantumBytes dbuf')
        else decodeLoop rest (S si) dbuf' out
      else if isNewline c then decodeLoop rest (S si) dbuf out
      else if negb (Ascii.eqb c padChar) then Failed (ErrCorruptInput si)
      else
        match List.length dbuf with
        | 0%nat | 1%nat => Failed (ErrCorruptInput si)
        | 2%nat =>
            match skipNewlines rest (S si) with
            | ([], si1) => Failed (ErrCorruptInput si1)
            | (c1 :: rest1, si1) =>
                if negb (Ascii.eqb c1 padChar)
                then Failed (ErrCorruptInput (si1 - 1))
                else afterPadding rest1 (S si1) (out ++ quantumBytes dbuf)
            end
        | _ => afterPadding rest (S si) (out ++ quantumBytes dbuf)
        end
  end.

(** [StdEncoding.DecodeString] *)
Definition DecodeString (s : string) : Res (list byte) :=
  decodeLoop (list_ascii_of_string s) 0 [] [].

(** Names for the integers of [Encode]: the value packed from a group of
    three, two or one bytes, and one of its 6-bit digits. *)
Definition six (val shift : Z) : Z :=
  Z.land (Z.shiftr val shift) 63%Z.

Definition pack3 (b0 b1 b2 : byte) : Z :=
  Z.lor (Z.lor (Z.shiftl (byteToZ b0) 16) (Z.shiftl (byteToZ b1) 8))
        (byteToZ b2).

Definition pack2 (b0 b1 : byte) : Z :=
  Z.lor (Z.shiftl (byteToZ b0) 16) (Z.shiftl (byteToZ b1) 8).

Definition pack1 (b0 : byte) : Z := Z.shiftl (byteToZ b0) 16.

(** The table check behind [decodeMap (encodeChar i) = i]. *)
Definition alphabetOk (n : nat) : bool :=
  let c := encodeChar (Z.of_nat n) in
  (decodeMap c =? Z.of_nat n)%Z
  && (code c <? 128)%N && negb (asciiSpace c).

End Base64.

(** [decodeBase64] *)
Definition decodeBase64 (value : string) : Res (list byte) :=
  if isEmpty (TrimSpace value) then Ok []
  else Base64.DecodeString value.

(** ** encoding/json: decoding one stream message *)

(** [streamMessage] *)
Record streamMessage : Type := {
  Stream : string;   (* `json:"stream"` *)
  Data : string;     (* `json:"data"` *)
  Code : Z           (* `json:"code"` *)
}.

Module Json.

(** A JSON text as [encoding/json] scans it.  A number keeps its literal:
    the target field decides how it is read. *)
Inductive Value : Type :=
| Null
| Bool (b : bool)
| Number (literal : string)
| Str (s : string)
| Array (elements : list Value)
| Object (members : list (string * Value)).

Definition quote : ascii := "034"%char.

Definition isChar (c d : ascii) : bool := Ascii.eqb c d.

(** [isSpace] of the scanner: space, tab, carriage return, line feed. *)
Definition isSpace (c : ascii) : bool :=
  isChar c " " || isChar c "009" || isChar c "013" || isChar c "010".

Fixpoint skipSpace (s : list ascii) : list ascii :=
  match s with
  | c :: r => if isSpace c then skipSpace r else s
  | [] => s
  end.

Definition isDigit (c : ascii) : bool :=
  ((48 <=? code c) && (code c <=? 57))%N.

Definition hexVal (c : ascii) : option N :=
  let n := code c in
  if ((48 <=? n) && (n <=? 57))%N then Some (n - 48)%N
  else if ((97 <=? n) && (n <=? 102))%N then Some (n - 87)%N
  else if ((65 <=? n) && (n <=? 70))%N then Some (n - 55)%N
  else None.

(** [getu4]: the value of [\uXXXX] at the head of the input, and the input
    after it. *)
Definition getu4 (s : list ascii) : option (N * list ascii) :=
  match s with
  | b :: u :: h1 :: h2 :: h3 :: h4 :: r =>
      if isChar b "\" && isChar u "u" then
        match hexVal h1, hexVal h2, hexVal h3, hexVal h4 with
        | Some a, Some b, Some c, Some d =>
            Some (a * 4096 + b * 256 + c * 16 + d, r)%N
        | _, _, _, _ => None
        end
      else None
  | _ => None
  end.

(** [utf8.EncodeRune] *)
Definition encodeRune (r : N) : list ascii :=
  if (r <? 128)%N then [chr r]
  else if (r <? 2048)%N then
    [chr (192 + r / 64); chr (128 + r mod 64)]%N
  else if (r <? 65536)%N then
    [chr (224 + r / 4096); chr (128 + (r / 64) mod 64);
     chr (128 + r mod 64)]%N
  else
    [chr (240 + r / 262144); chr (128 + (r / 4096) mod 64);
     chr (128 + (r / 64) mod 64); chr (128 + r mod 64)]%N.

Definition replacementChar : N := 65533.

Definition isSurrogate (r : N) : bool := ((55296 <=? r) && (r <? 57344))%N.

(** [utf16.DecodeRune] on a pair that isChar a high and a low surrogate. *)
Definition decodePair (r1 r2 : N) : option N :=
  if ((55296 <=? r1) && (r1 <? 56320) && (56320 <=? r2) && (r2 <? 57344))%N
  then Some ((r1 - 55296) * 1024 + (r2 - 56320) + 65536)%N
  else None.

(** The escapes of one character. *)
Definition simpleEscape (c : ascii) : option ascii :=
  if isChar c quote then Some quote
  else if isChar c "\" then Some "\"%char
  else if isChar c "/" then Some "/"%char
  else if isChar c "b" then Some "008"%char
  else if isChar c "f" then Some "012"%char
  else if isChar c "n" then Some "010"%char
  else if isChar c "r" then Some "013"%char
  else if isChar c "t" then Some "009"%char
  else None.

(** A string literal after its opening quote: the unquoted text and the
    input after the closing quote.  Bytes that are not valid UTF-8 are kept
    as they are (Go replaces each by U+FFFD). *)
Fixpoint parseString (fuel : nat) (s : list ascii) (acc : list ascii)
  : option (string * list ascii) :=
  match fuel with
  | O => None
  | S fuel' =>
      match s with
      | [] => None
      | c :: r =>
          if isChar c quote then Some (string_of_list_ascii acc, r)
          else if (code c <? 32)%N then None
          else if isChar c "\" then
            match r with
            | [] => None
            | e :: r' =>
                if isChar e "u" then
                  match getu4 s with
                  | None => None
                  | Some (rr, r1) =>
                      if isSurrogate rr then
                        match getu4 r1 with
                        | Some (rr1, r2) =>
                            match decodePair rr rr1 with
                            | Some dec =>
                                parseString fuel' r2 (acc ++ encodeRune dec)
                            | None =>
                                parseString fuel' r1
                                  (acc ++ encodeRune replacementChar)
                            end
                        | None =>
                            parseString fuel' r1
                              (acc ++ encodeRune replacementChar)
                        end
                      else parseString fuel' r1 (acc ++ encodeRune rr)
                  end
                else
                  match simpleEscape e with
                  | Some x => parseString fuel' r' (acc ++ [x])
                  | None => None
                  end
            end
          else parseString fuel' r (acc ++ [c])
      end
  end.

Fixpoint takeDigits (s : list ascii) : list ascii * list ascii :=
  match s with
  | c :: r =>
      if isDigit c then let (d, r') := takeDigits r in (c :: d, r')
      else ([], s)
  | [] => ([], s)
  end.

(** The integer part of a number: [0] or a digit string without a leading
    zero. *)
Definition takeInt (s : list ascii) : option (list ascii * list ascii) :=
  match s with
  | c :: r =>
      if isChar c "0" then Some ([c], r)
      else if isDigit c then let (d, r') := takeDigits r in Some (c :: d, r')
      else None
  | [] => None
  end.

Definition takeFrac (s : list ascii) : option (list ascii * list ascii) :=
  match s with
  | c :: r =>
      if isChar c "." then
        match takeDigits r with
        | ([], _) => None
        | (d, r') => Some (c :: d, r')
        end
      else Some ([], s)
  | [] => Some ([], s)
  end.

Definition takeExp (s : list ascii) : option (list ascii * list ascii) :=
  match s with
  | c :: r =>
      if isChar c "e" || isChar c "E" then
        let (sign, r1) :=
          match r with
          | x :: r0 => if isChar x "+" || isChar x "-" then ([x], r0) else ([], r)
          | [] => ([], r)
          end in
        match takeDigits r1 with
        | ([], _) => None
        | (d, r') => Some (c :: sign ++ d, r')
        end
      else Some ([], s)
  | [] => Some ([], s)
  end.

(** A number literal at the head of the input. *)
Definition parseNumber (s : list ascii) : option (string * list ascii) :=
  let (sign, r0) :=
    match s with
    | c :: r => if isChar c "-" then ([c], r) else ([], s)
    | [] => ([], s)
    end in
  match takeInt r0 with
  | None => None
  | Some (i, r1) =>
      match takeFrac r1 with
      | None => None
      | Some (f, r2) =>
          match takeExp r2 with
          | None => None
          | Some (e, r3) => Some (string_of_list_ascii (sign ++ i ++ f ++ e), r3)
          end
      end
  end.

(** [s] starts with the characters of [lit]: the input after them. *)
Fixpoint expect (lit : list ascii) (s : list ascii) : option (list ascii) :=
  match lit with
  | [] => Some s
  | c :: lit' =>
      match s with
      | d :: r => if isChar c d then expect lit' r else None
      | [] => None
      end
  end.

(** [maxNestingDepth] of the scanner. *)
Definition maxNestingDepth : N := 10000.

(** One JSON value at the head of the input (white space before it
    skipped) and the input after it; [None] isChar a syntax error.  [depth]
    counts the arrays and objects being read. *)
Fixpoint parseValue (fuel : nat) (depth : N) (s : list ascii) {struct fuel}
  : option (Value * list ascii) :=
  match fuel with
  | O => None
  | S fuel' =>
      match skipSpace s with
      | [] => None
      | c :: r =>
          if isChar c "{" then
            if (maxNestingDepth <? depth + 1)%N then None
            else
              match skipSpace r with
              | d :: r' =>
                  if isChar d "}" then Some (Object [], r')
                  else parseMembers fuel' (depth + 1)%N (d :: r') []
              | [] => None
              end
          else if isChar c "[" then
            if (maxNestingDepth <? depth + 1)%N then None
            else
              match skipSpace r with
              | d :: r' =>
                  if isChar d "]" then Some (Array [], r')
                  else parseElements fuel' (depth + 1)%N (d :: r') []
              | [] => None
              end
          else if isChar c quote then
            match parseString (S (List.length r)) r [] with
            | Some (str, r') => Some (Str str, r')
            | None => None
            end
          else if isChar c "t" then
            option_map (fun r' => (Bool true, r'))
                       (expect (list_ascii_of_string "true") (c :: r))
          else if isChar c "f" then
            option_map (fun r' => (Bool false, r'))
                       (expect (list_ascii_of_string "false") (c :: r))
          else if isChar c "n" then
            option_map (fun r' => (Null, r'))
                       (expect (list_ascii_of_string "null") (c :: r))
          else
            match parseNumber (c :: r) with
            | Some (lit, r') => Some (Number lit, r')
            | None => None
            end
      end
  end

with parseMembers (fuel : nat) (depth : N) (s : list ascii)
  (acc : list (string * Value)) {struct fuel}
  : option (Value * list ascii) :=
  match fuel with
  | O => None
  | S fuel' =>
      match skipSpace s with
      | q :: r =>
          if isChar q quote then
            match parseString (S (List.length r)) r [] with
            | None => None
            | Some (key, r1) =>
                match skipSpace r1 with
                | colon :: r2 =>
                    if isChar colon ":" then
                      match parseValue fuel' depth r2 with
                      | None => None
                      | Some (v, r3) =>
                          match skipSpace r3 with
                          | d :: r4 =>
                              if isChar d "," then
                                parseMembers fuel' depth r4 (acc ++ [(key, v)])
                              else if isChar d "}" then
                                Some (Object (acc ++ [(key, v)]), r4)
                              else None
                          | [] => None
                          end
                      end
                    else None
                | [] => None
                end
            end
          else None
      | [] => None
      end
  end

with parseElements (fuel : nat) (depth : N) (s : list ascii)
  (acc : list Value)
  {struct fuel} : option (Value * list ascii) :=
  match fuel with
  | O => None
  | S fuel' =>
      match parseValue fuel' depth s with
      | None => None
      | Some (v, r1) =>
          match skipSpace r1 with
          | d :: r2 =>
              if isChar d "," then parseElements fuel' depth r2 (acc ++ [v])
              else if isChar d "]" then Some (Array (acc ++ [v]), r2)
              else None
          | [] => None
          end
      end
  end.

(** [checkValid] and the scan of the whole text: one value, white space
    around it, nothing else. *)
Definition parse (data : string) : option Value :=
  let s := list_ascii_of_string data in
  match parseValue (S (S (List.length s))) 0%N s with
  | Some (v, r) =>
      match skipSpace r with
      | [] => Some v
      | _ :: _ => None
      end
  | None => None
  end.

(** The folding of a key for the case-insensitive match of field names:
    ASCII letters to upper case, and U+017F (C5 BF) to [S]. *)
Fixpoint foldName (s : list ascii) : list ascii :=
  match s with
  | [] => []
  | c :: r =>
      if ((97 <=? code c) && (code c <=? 122))%N
      then chr (code c - 32) :: foldName r
      else
        match r with
        | d :: r' =>
            if ((code c =? 197) && (code d =? 191))%N
            then "S"%char :: foldName r'
            else c :: foldName r
        | [] => [c]
        end
  end.

Definition keyIs (key field : string) : bool :=
  String.eqb (string_of_list_ascii (foldName (list_ascii_of_string key)))
             (string_of_list_ascii (foldName (list_ascii_of_string field))).

(** [Value] of an [UnmarshalTypeError]. *)
Definition kindName (v : Value) : string :=
  match v with
  | Null => "null"
  | Bool _ => "bool"
  | Number _ => "number"
  | Str _ => "string"
  | Array _ => "array"
  | Object _ => "object"
  end.

Fixpoint digitsValue (s : list ascii) (acc : Z) : option Z :=
  match s with
  | [] => Some acc
  | c :: r =>
      if isDigit c then digitsValue r (10 * acc + Z.of_N (code c - 48))
      else None
  end.

(** [strconv.ParseInt(s, 10, 64)] on a JSON number literal: an optional
    minus sign and digits only, within the range of [int64]. *)
Definition parseInt64 (literal : string) : option Z :=
  let s := list_ascii_of_string literal in
  let (neg, ds) :=
    match s with
    | c :: r => if isChar c "-" then (true, r) else (false, s)
    | [] => (false, s)
    end in
  match ds with
  | [] => None
  | _ :: _ =>
      match digitsValue ds 0 with
      | Some n =>
          let z := if neg then (- n)%Z else n in
          if ((- 2 ^ 63 <=? z) && (z <=? 2 ^ 63 - 1))%Z then Some z else None
      | None => None
      end
  end.

(** The decoding state: the message built so far and [d.savedError], the
    first type error met. *)
Definition DecodeState : Type := streamMessage * option Err.

Definition saveError (e : Err) (saved : option Err) : option Err :=
  match saved with
  | Some _ => saved
  | None => Some e
  end.

(** A JSON value stored into a field of type [string]: a string is
    stored, [null] leaves the field as it is, anything else is a type
    error. *)
Definition storeString (field : string) (v : Value) (old : string)
  (saved : option Err) : string * option Err :=
  match v with
  | Str s => (s, saved)
  | Null => (old, saved)
  | _ => (old, saveError (ErrJsonType (kindName v) field) saved)
  end.

(** A JSON value stored into a field of type [int]. *)
Definition storeInt (field : string) (v : Value) (old : Z)
  (saved : option Err) : Z * option Err :=
  match v with
  | Number lit =>
      match parseInt64 lit with
      | Some n => (n, saved)
      | None => (old, saveError (ErrJsonType ("number " ++ lit) field) saved)
      end
  | Null => (old, saved)
  | _ => (old, saveError (ErrJsonType (kindName v) field) saved)
  end.

(** One member of the object stored into the struct; a key that names no
    field is skipped. *)
Definition storeMember (st : DecodeState) (member : string * Value)
  : DecodeState :=
  let (msg, saved) := st in
  let (key, v) := member in
  if keyIs key "stream" then
    let (x, saved') := storeString "stream" v (Stream msg) saved in
    ({| Stream := x; Data := Data msg; Code := Code msg |}, saved')
  else if keyIs key "data" then
    let (x, saved') := storeString "data" v (Data msg) saved in
    ({| Stream := Stream msg; Data := x; Code := Code msg |}, saved')
  else if keyIs key "code" then
    let (x, saved') := storeInt "code" v (Code msg) saved in
    ({| Stream := Stream msg; Data := Data msg; Code := x |}, saved')
  else st.

(** The zero value of [streamMessage]. *)
Definition zeroMessage : streamMessage :=
  {| Stream := ""; Data := ""; Code := 0 |}.

(** [json.Unmarshal(data, &msg)] for [var msg streamMessage]. *)
Definition Unmarshal (data : string) : Res streamMessage :=
  match parse data with
  | None => Failed ErrJsonSyntax
  | Some (Object members) =>
      match fold_left storeMember members (zeroMessage, None) with
      | (msg, None) => Ok msg
      | (_, Some e) => Failed e
      end
  | Some Null => Ok zeroMessage
  | Some v => Failed (ErrJsonType (kindName v) "")
  end.

End Json.

(** ** bufio: a line scanner *)

Module Bufio.

(** What a [bufio.Scanner] with the [ScanLines] split function yields on
    a stream that ends: the texts of the successful [Scan] calls in order,
    and the final [scanner.Err()]. *)
Record Scanned : Type := {
  tokens : list string;
  scanErr : option Err
}.

(** [dropCR] on a line held last byte first, then the line in order. *)
Definition lineToken (revLine : list ascii) : string :=
  string_of_list_ascii
    (List.rev
       match revLine with
       | c :: r => if Ascii.eqb c "013" then r else revLine
       | [] => revLine
       end).

(** The scan of an in-memory text.  [cur] is the current line so far,
    last byte first, and [n] its length.  A line is ended by a line feed;
    a last line without one is a token when it is not empty; a line of
    [maxTokenSize] bytes or more fills the buffer and ends the scan with
    [ErrTooLong]. *)
Fixpoint scanFrom (maxTokenSize : N) (data : list ascii) (cur : list ascii)
  (n : N) : list string * option Err :=
  match data with
  | [] => if (n =? 0)%N then ([], None) else ([lineToken cur], None)
  | c :: r =>
      if Ascii.eqb c "010" then
        let (ts, e) := scanFrom maxTokenSize r [] 0%N in
        (lineToken cur :: ts, e)
      else if (maxTokenSize <=? n + 1)%N then ([], Some ErrTooLong)
      else scanFrom maxTokenSize r (c :: cur) (n + 1)%N
  end.

(** A scanner over [strings.NewReader(text)]. *)
Definition scanString (maxTokenSize : N) (text : string) : Scanned :=
  let (ts, e) := scanFrom maxTokenSize (list_ascii_of_string text) [] 0%N in
  {| tokens := ts; scanErr := e |}.

End Bufio.

(** ** The remote command and its sinks *)

(** [packersdk.RemoteCmd], as far as the communicator reads it: the
    command text and whether the [Stdout] and [Stderr] writers are set
    (not nil).  The two writers are distinct sinks. *)
Record RemoteCmd : Type := {
  Command : string;
  hasStdout : bool;
  hasStderr : bool
}.

(** What the communicator does to a command: a [Write] on one of its
    writers, or [SetExited], which resolves the exit status. *)
Inductive Effect : Type :=
| WriteStdout (data : list byte)
| WriteStderr (data : list byte)
| SetExited (status : Z).

(** The sinks of a command: the bytes written to [Stdout] and to
    [Stderr], and the statuses passed to [SetExited], oldest first. *)
Record Sinks : Type := {
  stdoutSink : list byte;
  stderrSink : list byte;
  exited : list Z
}.

Definition emptySinks : Sinks :=
  {| stdoutSink := []; stderrSink := []; exited := [] |}.

Definition perform (s : Sinks) (e : Effect) : Sinks :=
  match e with
  | WriteStdout data =>
      {| stdoutSink := stdoutSink s ++ data; stderrSink := stderrSink s;
         exited := exited s |}
  | WriteStderr data =>
      {| stdoutSink := stdoutSink s; stderrSink := stderrSink s ++ data;
         exited := exited s |}
  | SetExited status =>
      {| stdoutSink := stdoutSink s; stderrSink := stderrSink s;
         exited := exited s ++ [status] |}
  end.

Definition performAll (s : Sinks) (trace : list Effect) : Sinks :=
  fold_left perform trace s.

(** The statuses passed to [SetExited] in a trace, oldest first. *)
Fixpoint statuses (trace : list Effect) : list Z :=
  match trace with
  | [] => []
  | SetExited status :: rest => status :: statuses rest
  | _ :: rest => statuses rest
  end.

(** The number of [SetExited] calls in a trace: how many times the exit
    status is resolved. *)
Definition resolutions (trace : list Effect) : nat :=
  List.length (statuses trace).

Definition commandFailureStatus : Z := 1.

Definition newline : string := String "010" "".

Definition decimal (n : nat) : string :=
  NilZero.string_of_uint (Nat.to_uint n).

(** [err.Error()].  The two errors of [encoding/json] are rendered
    without the positions and types of Go's messages. *)
Definition errText (e : Err) : string :=
  match e with
  | ErrNilCommand => "remote command cannot be nil"
  | ErrUnsupportedExclude =>
      "powershell-direct communicator does not support exclude filters"
  | ErrCanceled => "context canceled"
  | ErrDeadlineExceeded => "context deadline exceeded"
  | ErrProcessDone => "os: process already finished"
  | ErrWaitAlreadyCalled => "exec: Wait was already called"
  | ErrNotStarted => "exec: not started"
  | ErrCorruptInput n => "illegal base64 data at input byte " ++ decimal n
  | ErrTooLong => "bufio.Scanner: token too long"
  | ErrJsonSyntax => "invalid JSON"
  | ErrJsonType v f =>
      "json: cannot unmarshal " ++ v ++ " into Go struct field " ++ f
  | ErrOther msg => msg
  end.

(** [fmt.Fprintf(cmd.Stderr, format, ...)] with the text already
    formatted. *)
Definition printStderr (text : string) : list Effect :=
  [WriteStderr (bytesOf text)].

(** [if cmd.Stderr != nil { fmt.Fprintf(cmd.Stderr, ...) }] *)
Definition warn (cmd : RemoteCmd) (text : string) : list Effect :=
  if hasStderr cmd then printStderr text else [].

(** ** The structured stream decoder *)

(** How one iteration of the loop of [consumeMessages] ends: [continue]
    (or falling out of the [switch]), or the [return] of the exit case with
    the code recorded. *)
Inductive Flow : Type :=
| Continue
| Return (exitCode : Z).

(** The [data] payload of a stdout or stderr message written to its sink:
    [if len(data) > 0 { _, _ = w.Write(data) }]. *)
Definition writePayload (write : list byte -> Effect) (data : list byte)
  : list Effect :=
  if (0 <? List.length data)%nat then [write data] else [].

(** The body of the loop [for scanner.Scan()] of [consumeMessages] on the
    text of one token. *)
Definition consumeLine (cmd : RemoteCmd) (text : string)
  : list Effect * Flow :=
  let line := TrimSpace text in
  if isEmpty line then ([], Continue)
  else
    match Json.Unmarshal line with
    | Failed err =>
        (warn cmd ("decode stream message: " ++ errText err ++ newline),
         Continue)
    | Ok msg =>
        if String.eqb (Stream msg) "stdout" then
          if negb (hasStdout cmd) then ([], Continue)
          else
            match decodeBase64 (Data msg) with
            | Failed err =>
                (warn cmd
                   ("decode stdout payload: " ++ errText err ++ newline),
                 Continue)
            | Ok data => (writePayload WriteStdout data, Continue)
            end
        else if String.eqb (Stream msg) "stderr" then
          if negb (hasStderr cmd) then ([], Continue)
          else
            match decodeBase64 (Data msg) with
            | Failed err =>
                (printStderr
                   ("decode stderr payload: " ++ errText err ++ newline),
                 Continue)
            | Ok data => (writePayload WriteStderr data, Continue)
            end
        else if String.eqb (Stream msg) "exit" then
          ([SetExited (Code msg)], Return (Code msg))
        else
          (warn cmd
             ("unexpected stream message type: " ++ Stream msg ++ newline),
           Continue)
    end.

(** The loop over the tokens: the effects in order and whether the loop
    was left by the [return] of the exit case. *)
Fixpoint consumeLoop (cmd : RemoteCmd) (lines : list string)
  : list Effect * Flow :=
  match lines with
  | [] => ([], Continue)
  | text :: rest =>
      match consumeLine cmd text with
      | (effects, Return code) => (effects, Return code)
      | (effects, Continue) =>
          let (effects', flow) := consumeLoop cmd rest in
          (effects ++ effects', flow)
      end
  end.

(** [Communicator.consumeMessages]: the effects of the structured stdout
    pump on the command, in order.  [reader] is [None] for a nil reader.
    When the loop ends without the [return], [exitHandled] is still false
    and [exitCode] still [commandFailureStatus]. *)
Definition consumeMessages (reader : option Bufio.Scanned) (cmd : RemoteCmd)
  : list Effect :=
  match reader with
  | None => [SetExited commandFailureStatus]
  | Some scanner =>
      let exitHandled := false in
      let exitCode := commandFailureStatus in
      match consumeLoop cmd (Bufio.tokens scanner) with
      | (effects, Return _) => effects
      | (effects, Continue) =>
          effects
          ++ match Bufio.scanErr scanner with
             | Some err =>
                 warn cmd ("stream read error: " ++ errText err ++ newline)
             | None => []
             end
          ++ (if negb exitHandled then [SetExited exitCode] else [])
      end
  end.

(** The exit envelopes: a token is one when its trimmed text is not
    empty and decodes to a message whose [stream] is ["exit"]; its code is
    the [code] of the message. *)
Definition exitEnvelope (text : string) : option Z :=
  let line := TrimSpace text in
  if isEmpty line then None
  else
    match Json.Unmarshal line with
    | Ok msg => if String.eqb (Stream msg) "exit" then Some (Code msg) else None
    | Failed _ => None
    end.

(** ** The raw stderr pump *)

(** What [io.Copy] reads from the raw stderr stream of the process until
    it ends: the chunks of the successive reads and the read error that
    ended it ([None] for end of file). *)
Record RawStream : Type := {
  chunks : list (list byte);
  readErr : option Err
}.

(** The fourth task of [Start]: the raw stderr stream copied to the
    [Stderr] writer of the command, or to [io.Discard] when it is nil. *)
Definition copyStderr (stderr : option RawStream) (cmd : RemoteCmd)
  : list Effect :=
  match stderr with
  | None => []
  | Some stream =>
      (if hasStderr cmd then map WriteStderr (chunks stream) else [])
      ++ match readErr stream with
         | Some err => warn cmd (errText err ++ newline)
         | None => []
         end
  end.

(** ** The host: runner, paths and file system *)

(** The five script constants; their PowerShell bodies are payloads for
    the runner. *)
Inductive Script : Type :=
| executeCommandScript
| uploadFileScript
| uploadDirectoryScript
| downloadFileScript
| downloadDirectoryScript.

(** [streamProcess], as the tasks of [Start] see it in one run: for each
    of the two streams, [None] when the method returns nil, and otherwise
    what its reader observes until the stream ends (by the exit of the
    process, by [Kill], or by the [Close] of the completion watcher). *)
Record streamProcess : Type := {
  Stdout : option Bufio.Scanned;
  Stderr : option RawStream
}.

Module Runner.

(** The interface [runner]. *)
Record runner : Type := {
  Run : Script -> list string -> option Err;
  Output : Script -> list string -> Res string;
  Stream : Script -> list string -> Res streamProcess
}.

End Runner.

(** The functions of the host the transfer operations call besides the
    runner. *)
Record Host : Type := {
  filepathAbs : string -> Res string;          (* filepath.Abs *)
  osMkdirAll : string -> option Err;           (* os.MkdirAll(path, 0o755) *)
  wslIsWSL : bool;                             (* wsl.IsWSL() *)
  wslConvertWSlPathToWindowsPath : string -> Res string
}.

(** What a call of the communicator does outside the command: the calls
    on the runner, as [stubRunner] records them, and the calls on the
    host. *)
Inductive HostEvent : Type :=
| RunCall (script : Script) (params : list string)
| OutputCall (script : Script) (params : list string)
| StreamCall (script : Script) (params : list string)
| AbsCall (path : string)
| MkdirAllCall (path : string)
| IsWSLCall
| ConvertPathCall (path : string).

Definition isRunnerCall (e : HostEvent) : bool :=
  match e with
  | RunCall _ _ | OutputCall _ _ | StreamCall _ _ => true
  | _ => false
  end.

(** The calls on the runner in a log: [runCalls], [outputCalls] and
    [streamCalls] of [stubRunner] together. *)
Definition runnerCalls (log : list HostEvent) : list HostEvent :=
  filter isRunnerCall log.

(** A computation on the host: it extends the log of host events and
    returns a value or the error that ended it. *)
Definition IO (A : Type) : Type := list HostEvent -> Res A * list HostEvent.

Definition ret {A} (a : A) : IO A := fun log => (Ok a, log).

Definition fail {A} (e : Err) : IO A := fun log => (Failed e, log).

Definition bind {A B} (m : IO A) (k : A -> IO B) : IO B :=
  fun log =>
    match m log with
    | (Ok a, log') => k a log'
    | (Failed e, log') => (Failed e, log')
    end.

Notation "x <- m ;; k" := (bind m (fun x => k))
  (at level 61, m at next level, right associativity).

(** A call on the host, recorded. *)
Definition call {A} (event : HostEvent) (result : Res A) : IO A :=
  fun log => (result, log ++ [event]).

Definition ofError (e : option Err) : Res unit :=
  match e with
  | None => Ok tt
  | Some err => Failed err
  end.

(** [Config] *)
Record Config : Type := {
  VMName : string;
  Username : string;
  Password : string
}.

(** [Communicator] *)
Record Communicator : Type := {
  vmName : string;
  config : Config;
  runner : Runner.runner;
  host : Host
}.

(** [context.Context] at the time it is looked at. *)
Inductive Context : Type :=
| CtxActive
| CtxCanceled
| CtxDeadlineExceeded.

(** [ctx.Err()]: nil until [ctx.Done()] is closed. *)
Definition ctxErr (ctx : Context) : option Err :=
  match ctx with
  | CtxActive => None
  | CtxCanceled => Some ErrCanceled
  | CtxDeadlineExceeded => Some ErrDeadlineExceeded
  end.

(** ** Start *)

(** The four goroutines of [Start]. *)
Inductive Task : Type :=
| CompletionWatcher (process : streamProcess)
| CancellationWatcher (process : streamProcess)
| StdoutPump (reader : option Bufio.Scanned)
| StderrPump (reader : option RawStream).

(** What [Start] has done when it returns nil: the effects on the command
    before it returns, and the goroutines it has launched. *)
Record Launch : Type := {
  immediate : list Effect;
  spawned : list Task
}.

(** [Communicator.Start].  [cmd] is [None] for a nil command. *)
Definition Start (c : Communicator) (ctx : Context) (cmd : option RemoteCmd)
  : IO Launch :=
  match cmd with
  | None => fail ErrNilCommand
  | Some cmd =>
      if isEmpty (TrimSpace (Command cmd)) then
        ret {| immediate := [SetExited 0]; spawned := [] |}
      else
        match ctxErr ctx with
        | Some err => fail err
        | None =>
            let params :=
              [vmName c; Username (config c); Password (config c);
               Command cmd] in
            process <-
              call (StreamCall executeCommandScript params)
                   (Runner.Stream (runner c) executeCommandScript params) ;;
            let stdout := Stdout process in
            let stderr := Stderr process in
            ret {| immediate := [];
                   spawned := [CompletionWatcher process;
                               CancellationWatcher process;
                               StdoutPump stdout;
                               StderrPump stderr] |}
        end
  end.

(** What a goroutine does, step by step: an effect on the command, or a
    call on the process, its streams or the [done] channel. *)
Inductive Action : Type :=
| OnCommand (e : Effect)
| ProcessWait
| ProcessKill
| CloseStdout
| CloseStderr
| CloseDone.

(** The steps of one goroutine.  [cancelFirst] tells which case the
    [select] of the cancellation watcher takes: [ctx.Done()] (true) or
    [done] (false). *)
Definition taskActions (cmd : RemoteCmd) (cancelFirst : bool) (t : Task)
  : list Action :=
  match t with
  | CompletionWatcher process =>
      [ProcessWait]
      ++ match Stdout process with Some _ => [CloseStdout] | None => [] end
      ++ match Stderr process with Some _ => [CloseStderr] | None => [] end
      ++ [CloseDone]
  | CancellationWatcher _ => if cancelFirst then [ProcessKill] else []
  | StdoutPump reader => map OnCommand (consumeMessages reader cmd)
  | StderrPump reader => map OnCommand (copyStderr reader cmd)
  end.

(** The schedules of goroutines: every way to merge their steps that
    keeps the order of each. *)
Inductive Interleaving {A : Type} : list (list A) -> list A -> Prop :=
| interleaving_done (threads : list (list A)) :
    Forall (fun t => t = []) threads -> Interleaving threads []
| interleaving_step (before after : list (list A)) (x : A) (t : list A)
    (trace : list A) :
    Interleaving (before ++ t :: after) trace ->
    Interleaving (before ++ (x :: t) :: after) (x :: trace).

(** The effects on the command among the steps of a run. *)
Fixpoint commandEffects (trace : list Action) : list Effect :=
  match trace with
  | [] => []
  | OnCommand e :: rest => e :: commandEffects rest
  | _ :: rest => commandEffects rest
  end.

(** The resolutions of a step. *)
Definition stepResolutions (x : Action) : nat :=
  resolutions (commandEffects [x]).

(** The resolutions of all the threads together. *)
Definition threadResolutions (threads : list (list Action)) : nat :=
  list_sum (map (fun t => resolutions (commandEffects t)) threads).

(** A run of a launched command: the effects of [Start] itself, then a
    schedule of its goroutines. *)
Definition Execution (cmd : RemoteCmd) (cancelFirst : bool)
  (launch : Launch) (trace : list Action) : Prop :=
  exists schedule : list Action,
    Interleaving (map (taskActions cmd cancelFirst) (spawned launch)) schedule
    /\ trace = map OnCommand (immediate launch) ++ schedule.

(** ** Directory transfer: the include-root flag *)

Definition slash : string := "/".
Definition backslash : string := "\".

(** [includeSourceRoot] *)
Definition includeSourceRoot (path : string) : bool :=
  if isEmpty path then false
  else if HasSuffix path slash || HasSuffix path backslash then false
  else true.

(** [Communicator.hostPath] *)
Definition hostPath (c : Communicator) (path : string) : IO string :=
  absolute <- call (AbsCall path) (filepathAbs (host c) path) ;;
  isWSL <- call IsWSLCall (Ok (wslIsWSL (host c))) ;;
  if (isWSL : bool) then
    call (ConvertPathCall absolute)
         (wslConvertWSlPathToWindowsPath (host c) absolute)
  else ret absolute.

(** [strconv.FormatBool] *)
Definition FormatBool (b : bool) : string := if b then "true" else "false".

(** [Communicator.UploadDir] *)
Definition UploadDir (c : Communicator) (dst src : string)
  (exclude : list string) : IO unit :=
  if (0 <? List.length exclude)%nat then fail ErrUnsupportedExclude
  else
    let includeRoot := includeSourceRoot src in
    hostPath' <- hostPath c src ;;
    let params :=
      [vmName c; Username (config c); Password (config c);
       hostPath'; dst; FormatBool includeRoot] in
    call (RunCall uploadDirectoryScript params)
         (ofError (Runner.Run (runner c) uploadDirectoryScript params)).

(** [Communicator.DownloadDir] *)
Definition DownloadDir (c : Communicator) (src dst : string)
  (exclude : list string) : IO unit :=
  if (0 <? List.length exclude)%nat then fail ErrUnsupportedExclude
  else
    let includeRoot := includeSourceRoot src in
    destPath <- call (AbsCall dst) (filepathAbs (host c) dst) ;;
    _ <- call (MkdirAllCall destPath) (ofError (osMkdirAll (host c) destPath)) ;;
    hostPath' <- hostPath c destPath ;;
    let params :=
      [vmName c; Username (config c); Password (config c);
       src; hostPath'; FormatBool includeRoot] in
    call (RunCall downloadDirectoryScript params)
         (ofError (Runner.Run (runner c) downloadDirectoryScript params)).

(** ** The stream process of the PowerShell runner *)

Module Exec.

(** [exec.Cmd], as far as [Wait] and [Process.Kill] read and change it.
    [exitErr] is the error [Wait] reports for the exit of the process and
    [signalErr] the answer of the operating system to a kill signal sent
    before the process has been waited for. *)
Record Cmd : Type := {
  Process : bool;        (* cmd.Process != nil: the command was started *)
  ProcessState : bool;   (* cmd.ProcessState != nil: Wait has returned *)
  exitErr : option Err;
  signalErr : option Err
}.

(** [cmd.Wait()]; it blocks until the process has exited. *)
Definition cmdWait (c : Cmd) : option Err * Cmd :=
  if negb (Process c) then (Some ErrNotStarted, c)
  else if ProcessState c then (Some ErrWaitAlreadyCalled, c)
  else
    (exitErr c,
     {| Process := Process c; ProcessState := true; exitErr := exitErr c;
        signalErr := signalErr c |}).

(** [cmd.Process.Kill()]: a process that has been waited for is done and
    the call reports it ([os.ErrProcessDone]; [syscall.EINVAL] on Windows
    before Go 1.23); it never blocks. *)
Definition processKill (c : Cmd) : option Err :=
  if ProcessState c then Some ErrProcessDone else signalErr c.

(** The [cleanup] closure built by [saveStreamingScript]: it removes the
    staged script unless [PACKER_POWERSHELL_DEBUG] is set. *)
Record Cleanup : Type := {
  debug : bool;
  newFilename : string
}.

Inductive Event : Type :=
| CleanupCalled
| Removed (filename : string).

Definition runCleanup (cl : Cleanup) : list Event :=
  CleanupCalled :: (if debug cl then [] else [Removed (newFilename cl)]).

(** [execStreamProcess], without its two pipes; [once] is the state of
    its [sync.Once]: true when [Do] has run. *)
Record execStreamProcess : Type := {
  cmd : Cmd;
  cleanup : option Cleanup;
  once : bool
}.

(** [execStreamProcess.close] *)
Definition close (p : execStreamProcess) : execStreamProcess * list Event :=
  if once p then (p, [])
  else
    ({| cmd := cmd p; cleanup := cleanup p; once := true |},
     match cleanup p with
     | Some cl => runCleanup cl
     | None => []
     end).

(** [execStreamProcess.Wait] *)
Definition Wait (p : execStreamProcess)
  : option Err * execStreamProcess * list Event :=
  let (err, c) := cmdWait (cmd p) in
  let (p', events) :=
    close {| cmd := c; cleanup := cleanup p; once := once p |} in
  (err, p', events).

(** [execStreamProcess.Kill] *)
Definition Kill (p : execStreamProcess)
  : option Err * execStreamProcess * list Event :=
  if negb (Process (cmd p)) then (None, p, [])
  else
    let err := processKill (cmd p) in
    let (p', events) := close p in
    (err, p', events).

Inductive Call : Type :=
| CallWait
| CallKill.

Definition invoke (call : Call) (p : execStreamProcess)
  : option Err * execStreamProcess * list Event :=
  match call with
  | CallWait => Wait p
  | CallKill => Kill p
  end.

(** A sequence of calls, one after the other: the errors returned, the
    final process and the events in order. *)
Fixpoint invokeAll (calls : list Call) (p : execStreamProcess)
  : list (option Err) * execStreamProcess * list Event :=
  match calls with
  | [] => ([], p, [])
  | call :: rest =>
      match invoke call p with
      | (err, p1, events1) =>
          match invokeAll rest p1 with
          | (errs, p2, events2) => (err :: errs, p2, events1 ++ events2)
          end
      end
  end.

(** The process [powershellRunner.Stream] returns after [cmd.Start()]. *)
Definition started (exitErr signalErr : option Err) (cl : Cleanup)
  : execStreamProcess :=
  {| cmd := {| Process := true; ProcessState := false; exitErr := exitErr;
               signalErr := signalErr |};
     cleanup := Some cl;
     once := false |}.

Definition errorOf {A B C} (r : A * B * C) : A := fst (fst r).

Definition stateOf {A B C} (r : A * B * C) : B := snd (fst r).

Definition eventsOf {A B C} (r : A * B * C) : C := snd r.

Definition cleanupCalls (events : list Event) : nat :=
  List.length
    (filter (fun e => match e with CleanupCalled => true | _ => false end)
            events).

Fixpoint removals (events : list Event) : list string :=
  match events with
  | [] => []
  | Removed f :: rest => f :: removals rest
  | _ :: rest => removals rest
  end.

End Exec.

(** ** Test data *)

(** A text with each apostrophe replaced by a double quote: JSON texts
    are written with apostrophes below. *)
Fixpoint dq (s : string) : string :=
  match s with
  | EmptyString => EmptyString
  | String c r => String (if Ascii.eqb c "'" then Json.quote else c) (dq r)
  end.

Definition crlf : string := String "013" (String "010" "").

(** [stubRunner] with one process queued for [Stream]. *)
Definition stubRunner (process : streamProcess) : Runner.runner :=
  {| Runner.Run := fun _ _ => None;
     Runner.Output := fun _ _ => Ok "";
     Runner.Stream := fun _ _ => Ok process |}.

Definition testHost : Host :=
  {| filepathAbs := fun path => Ok path;
     osMkdirAll := fun _ => None;
     wslIsWSL := false;
     wslConvertWSlPathToWindowsPath := fun path => Ok path |}.

(** [newTestCommunicator] *)
Definition newTestCommunicator (r : Runner.runner) : Communicator :=
  {| vmName := "test-vm";
     config := {| VMName := "test-vm"; Username := "user";
                  Password := "pass" |};
     runner := r;
     host := testHost |}.

(** The buffer of the scanner in [consumeMessages]. *)
Definition maxTokenSize : N := 2 * 1024 * 1024.

(** The three lines of [TestStartExecutionSuccess]. *)
Definition stdoutLine : string :=
  dq "{'stream':'stdout','data':'"
  ++ Base64.EncodeToString (bytesOf ("hello" ++ crlf)) ++ dq "'}".

Definition stderrLine : string :=
  dq "{'stream':'stderr','data':'"
  ++ Base64.EncodeToString (bytesOf ("there" ++ crlf)) ++ dq "'}".

Definition exitLine : string := dq "{'stream':'exit','code':7}".

(** [strings.Join(lines, "\n")] *)
Definition successLines : string :=
  stdoutLine ++ newline ++ stderrLine ++ newline ++ exitLine.

(** The command of [TestStartExecutionSuccess]: both writers set. *)
Definition testCommand : RemoteCmd :=
  {| Command := "Write-Output hello"; hasStdout := true; hasStderr := true |}.

(** ** The arguments of the PowerShell process *)

(** [make([]string, n)] *)
Definition makeStrings (n : nat) : list string := repeat "" n.

(** [args[i] = v]; every index below is within the slice. *)
Fixpoint setIndex (i : nat) (v : string) (args : list string) : list string :=
  match args, i with
  | [], _ => []
  | _ :: rest, O => v :: rest
  | a :: rest, S i' => a :: setIndex i' v rest
  end.

(** [copy(dst, src)]: the elements of [src] written over the first
    [min(len(dst), len(src))] elements of [dst]. *)
Fixpoint copySlice (dst src : list string) : list string :=
  match dst, src with
  | _ :: dst', x :: src' => x :: copySlice dst' src'
  | _, _ => dst
  end.

(** [buildPowerShellArgs]; [copy(args[5:], params)] writes into the slice
    behind [args]. *)
Definition buildPowerShellArgs (filename : string) (params : list string)
  : list string :=
  let args := makeStrings (List.length params + 5) in
  let args := setIndex 0 "-ExecutionPolicy" args in
  let args := setIndex 1 "Bypass" args in
  let args := setIndex 2 "-NoProfile" args in
  let args := setIndex 3 "-File" args in
  let args := setIndex 4 filename args in
  firstn 5 args ++ copySlice (skipn 5 args) params.

(** ** Construction of the communicator *)

(** [Type] *)
Definition CommunicatorType : string := "powershell-direct".

(** [Option]: a function applied to the communicator under construction. *)
Definition CommOption : Type := Communicator -> Communicator.

(** [WithRunner] *)
Definition WithRunner (r : Runner.runner) : CommOption :=
  fun c =>
    {| vmName := vmName c; config := config c; runner := r; host := host c |}.

(** What [New] reads of the process it runs in: [runtime.GOOS], the host
    functions (with [wsl.IsWSL]) and the runner [&powershellRunner{}]. *)
Record Platform : Type := {
  GOOS : string;
  platformHost : Host;
  powershellRunner : Runner.runner
}.

(** [New], with the values passed to [packersdk.LogSecretFilter.Set] in
    order. *)
Definition New (platform : Platform) (vmName : string) (cfg : Config)
  (opts : list CommOption) : Res Communicator * list string :=
  if negb (String.eqb (GOOS platform) "windows") then
    (Failed (ErrOther (CommunicatorType
                       ++ " communicator requires Windows host")), [])
  else if wslIsWSL (platformHost platform) then
    (Failed (ErrOther
               (CommunicatorType
                ++ " communicator is not supported when running under WSL")),
     [])
  else
    let vmName := TrimSpace vmName in
    let vmName := if isEmpty vmName then TrimSpace (VMName cfg) else vmName in
    if isEmpty vmName then
      (Failed (ErrOther "vm name must be provided"), [])
    else
      let cfg :=
        {| VMName := VMName cfg;
           Username := TrimSpace (Username cfg);
           Password := TrimSpace (Password cfg) |} in
      if isEmpty (Username cfg) then
        (Failed (ErrOther "powershell direct username must be provided"), [])
      else if isEmpty (Password cfg) then
        (Failed (ErrOther "powershell direct password must be provided"), [])
      else
        let communicator :=
          {| vmName := vmName; config := cfg;
             runner := powershellRunner platform;
             host := platformHost platform |} in
        (Ok (fold_left (fun c opt => opt c) opts communicator),
         [Password cfg]).

(** ** The callers: configuration and connection step *)

(** [powershelldirect.Config{VMName: ..., Username: ..., Password: ...}] *)
Definition mkConfig (vm user pass : string) : Config :=
  {| VMName := vm; Username := user; Password := pass |}.

Module Common.

(** [PowershellDirectConfig] *)
Record PowershellDirectConfig : Type := {
  VMName : string;
  Username : string;
  Password : string
}.

(** The format verb [%q] on a text of plain characters. *)
Definition quoted (s : string) : string :=
  String Json.quote (s ++ String Json.quote "").

(** [PowershellDirectConfig.Prepare] *)
Definition Prepare (c : PowershellDirectConfig) : list Err :=
  let errs := [] in
  let errs :=
    if isEmpty (TrimSpace (Username c)) then
      errs ++ [ErrOther
                 ("powershell_direct_username must be provided when "
                  ++ "communicator is " ++ quoted CommunicatorType)]
    else errs in
  let errs :=
    if isEmpty (TrimSpace (Password c)) then
      errs ++ [ErrOther
                 ("powershell_direct_password must be provided when "
                  ++ "communicator is " ++ quoted CommunicatorType)]
    else errs in
  errs.

(** [PowershellDirectConfig.CommunicatorConfig] *)
Definition CommunicatorConfig (c : PowershellDirectConfig) : Config :=
  mkConfig (VMName c) (Username c) (Password c).

(** A value held by a [multistep.StateBag]. *)
Inductive Dyn : Type :=
| DString (s : string)
| DError (e : Err)
| DCommunicator (c : Communicator)
| DOther (description : string).

(** [multistep.StateBag]: a map from keys to values. *)
Definition StateBag : Type := string -> option Dyn.

Definition emptyBag : StateBag := fun _ => None.

(** [state.GetOk(key)] *)
Definition GetOk (state : StateBag) (key : string) : option Dyn := state key.

(** [state.Put(key, value)] *)
Definition Put (state : StateBag) (key : string) (value : Dyn) : StateBag :=
  fun k => if String.eqb k key then Some value else state k.

(** [multistep.StepAction] *)
Inductive StepAction : Type :=
| ActionContinue
| ActionHalt.

(** The calls on the [packersdk.Ui] found in the state. *)
Inductive UiEvent : Type :=
| UiSay (message : string)
| UiError (message : string).

(** [PowerShellDirectFactory], with the secrets it registers. *)
Definition PowerShellDirectFactory : Type :=
  string -> Config -> Res Communicator * list string.

(** [StepConnectPowerShellDirect]; [Config] is [None] for a nil pointer
    and [Factory] is [None] for a nil function. *)
Record StepConnectPowerShellDirect : Type := {
  StepConfig : option PowershellDirectConfig;
  Factory : option PowerShellDirectFactory
}.

(** What a [Run] of the step leaves behind: the action returned, the
    state, the configuration behind the pointer, the calls on the [Ui],
    the calls on the factory, and the secrets registered. *)
Record StepOutcome : Type := {
  action : StepAction;
  state : StateBag;
  stepConfig : option PowershellDirectConfig;
  ui : list UiEvent;
  factoryCalls : list (string * Config);
  secrets : list string
}.

(** The four lines that end [Run] on an error:
    [state.Put("error", err); ui.Error(err.Error()); return ActionHalt]. *)
Definition halt (err : Err) (st : StateBag)
  (cfg : option PowershellDirectConfig) (said : list UiEvent)
  (calls : list (string * Config)) (registered : list string) : StepOutcome :=
  {| action := ActionHalt;
     state := Put st "error" (DError err);
     stepConfig := cfg;
     ui := said ++ [UiError (errText err)];
     factoryCalls := calls;
     secrets := registered |}.

(** [StepConnectPowerShellDirect.Run].  The state holds a [Ui] under
    ["ui"], as the runner of the steps guarantees. *)
Definition Run (platform : Platform) (s : StepConnectPowerShellDirect)
  (st : StateBag) : StepOutcome :=
  match StepConfig s with
  | None =>
      halt (ErrOther "powershell direct configuration is not initialised")
           st None [] [] []
  | Some cfg =>
      let fromState : Res string :=
        match GetOk st "vmName" with
        | Some (DString name) => Ok name
        | Some _ => Failed (ErrOther "vmName is not a valid string")
        | None => Ok ""
        end in
      match fromState with
      | Failed err => halt err st (Some cfg) [] [] []
      | Ok vmName =>
          let vmName := TrimSpace vmName in
          let (vmName, st) :=
            if isEmpty vmName then
              let vmName := TrimSpace (VMName cfg) in
              if negb (isEmpty vmName) then
                let st := Put st "vmName" (DString vmName) in
                match GetOk st "instance_id" with
                | Some _ => (vmName, st)
                | None => (vmName, Put st "instance_id" (DString vmName))
                end
              else (vmName, st)
            else (vmName, st) in
          if isEmpty vmName then
            halt (ErrOther
                    ("vm name is required: set powershell_direct_vm_name "
                     ++ "or ensure the builder populates vmName"))
                 st (Some cfg) [] [] []
          else
            let username := TrimSpace (Username cfg) in
            let password := TrimSpace (Password cfg) in
            if isEmpty username then
              halt (ErrOther "powershell_direct_username must be provided")
                   st (Some cfg) [] [] []
            else if isEmpty password then
              halt (ErrOther "powershell_direct_password must be provided")
                   st (Some cfg) [] [] []
            else
              let cfg :=
                {| VMName := VMName cfg; Username := username;
                   Password := password |} in
              let factory : PowerShellDirectFactory :=
                match Factory s with
                | Some f => f
                | None => fun name c => New platform name c []
                end in
              let said :=
                [UiSay
                   "Connecting to virtual machine using PowerShell Direct..."]
              in
              let calls := [(vmName, CommunicatorConfig cfg)] in
              match factory vmName (CommunicatorConfig cfg) with
              | (Failed err, registered) =>
                  halt err st (Some cfg) said calls registered
              | (Ok comm, registered) =>
                  {| action := ActionContinue;
                     state := Put st "communicator" (DCommunicator comm);
                     stepConfig := Some cfg;
                     ui := said;
                     factoryCalls := calls;
                     secrets := registered |}
              end
      end
  end.

(** The function returned by [PowerShellDirectHost]. *)
Definition PowerShellDirectHost (st : StateBag) : Res string :=
  match GetOk st "vmName" with
  | None => Failed (ErrOther "vmName is not present in state")
  | Some rawName =>
      match rawName with
      | DString name =>
          if isEmpty name then Failed (ErrOther "vmName is not a valid string")
          else Ok name
      | _ => Failed (ErrOther "vmName is not a valid string")
      end
  end.

End Common.

(** A text is left as it is by [trimLeft] exactly when no white-space
    rune starts it. *)
Definition cleanHead (s : string) : bool :=
  match s with
  | EmptyString => true
  | String a r1 =>
      negb (asciiSpace a)
      && match r1 with
         | EmptyString => true
         | String b r2 =>
             negb (space2 a b)
             && match r2 with
                | EmptyString => true
                | String c _ => negb (space3 a b c)
                end
         end
  end.

Definition cleanHeadRev (s : string) : bool :=
  match s with
  | EmptyString => true
  | String a r1 =>
      negb (asciiSpace a)
      && match r1 with
         | EmptyString => true
         | String b r2 =>
             negb (space2 b a)
             && match r2 with
                | EmptyString => true
                | String c _ => negb (space3 c b a)
                end
         end
  end.

(** ** Transfers of single files *)

Module Transfer.

(** What [Upload] and [Download] do outside the communicator: a call
    recorded in the log of host events, or a call on the temporary file or
    on the writer of the caller. *)
Inductive Event : Type :=
| OnHost (e : HostEvent)
| CreateTemp (pattern : string)             (* os.CreateTemp("", pattern) *)
| CopyIn (name : string) (data : list byte) (* io.Copy(tempFile, input) *)
| CloseFile (name : string)                 (* file.Close() *)
| RemoveFile (name : string)                (* os.Remove(name) *)
| OpenFile (name : string)                  (* os.Open(name) *)
| CopyOut (data : list byte).               (* io.Copy(output, file) *)

(** The file system as the two functions meet it: the name
    [os.CreateTemp] gives the new file, the result of the first [Close] of
    a file, and the content [os.Open] finds in a file. *)
Record Files : Type := {
  osCreateTemp : string -> Res string;
  closeErr : string -> option Err;
  osOpen : string -> Res (list byte)
}.

(** The reader given to [Upload]: the bytes [io.Copy] drains from it into
    the file, and the error [io.Copy] returns (from the reader or from the
    file), if any. *)
Record Input : Type := {
  inputData : list byte;
  copyInErr : option Err
}.

(** The writer given to [Download]: the error [io.Copy] returns when the
    file is copied into it, if any. *)
Record Output : Type := {
  copyOutErr : option Err
}.

Definition TIO (A : Type) : Type := list Event -> Res A * list Event.

Definition tret {A} (a : A) : TIO A := fun log => (Ok a, log).

Definition tfail {A} (e : Err) : TIO A := fun log => (Failed e, log).

Definition tbind {A B} (m : TIO A) (k : A -> TIO B) : TIO B :=
  fun log =>
    match m log with
    | (Ok a, log') => k a log'
    | (Failed e, log') => (Failed e, log')
    end.

Notation "x <~ m ;; k" := (tbind m (fun x => k))
  (at level 61, m at next level, right associativity).

Definition tcall {A} (event : Event) (result : Res A) : TIO A :=
  fun log => (result, log ++ [event]).

(** A computation on the host, run from here: its events are recorded
    as [OnHost] events. *)
Definition liftIO {A} (m : IO A) : TIO A :=
  fun log => let (r, events) := m [] in (r, log ++ map OnHost events).

(** [defer]: calls whose results are dropped, made when the body
    returns, whatever it returns. *)
Definition withDeferred {A} (deferred : list Event) (body : TIO A) : TIO A :=
  fun log => let (r, log') := body log in (r, log' ++ deferred).

Definition uploadPattern : string := "packer-powershelldirect-upload".

Definition downloadPattern : string := "packer-powershelldirect-download".

(** [Communicator.Upload]; [input] is [None] for a nil reader.  The file
    information [fi] is not read. *)
Definition Upload (c : Communicator) (fs : Files) (path : string)
  (input : option Input) : TIO unit :=
  match input with
  | None => tfail (ErrOther "upload input cannot be nil")
  | Some input =>
      tempFile <~ tcall (CreateTemp uploadPattern)
                        (osCreateTemp fs uploadPattern) ;;
      withDeferred [CloseFile tempFile; RemoveFile tempFile]
        (_ <~ tcall (CopyIn tempFile (inputData input))
                    (ofError (copyInErr input)) ;;
         _ <~ tcall (CloseFile tempFile) (ofError (closeErr fs tempFile)) ;;
         sourcePath <~ liftIO (hostPath c tempFile) ;;
         let params :=
           [vmName c; Username (config c); Password (config c);
            sourcePath; path] in
         liftIO (call (RunCall uploadFileScript params)
                      (ofError (Runner.Run (runner c) uploadFileScript
                                           params))))
  end.

(** [Communicator.Download]; [output] is [None] for a nil writer. *)
Definition Download (c : Communicator) (fs : Files) (path : string)
  (output : option Output) : TIO unit :=
  match output with
  | None => tfail (ErrOther "download output cannot be nil")
  | Some output =>
      tempFilePath <~ tcall (CreateTemp downloadPattern)
                            (osCreateTemp fs downloadPattern) ;;
      _ <~ tcall (CloseFile tempFilePath) (Ok tt) ;;
      withDeferred [RemoveFile tempFilePath]
        (hostPath' <~ liftIO (hostPath c tempFilePath) ;;
         let params :=
           [vmName c; Username (config c); Password (config c);
            hostPath'; path] in
         _ <~ liftIO (call (RunCall downloadFileScript params)
                           (ofError (Runner.Run (runner c) downloadFileScript
                                                params))) ;;
         content <~ tcall (OpenFile tempFilePath) (osOpen fs tempFilePath) ;;
         withDeferred [CloseFile tempFilePath]
           (tcall (CopyOut content) (ofError (copyOutErr output))))
  end.

(** The calls on the runner among the events. *)
Fixpoint runnerCallsOf (events : list Event) : list HostEvent :=
  match events with
  | [] => []
  | OnHost e :: rest =>
      if isRunnerCall e then e :: runnerCallsOf rest else runnerCallsOf rest
  | _ :: rest => runnerCallsOf rest
  end.

(** The removals among the events. *)
Fixpoint removalsOf (events : list Event) : list string :=
  match events with
  | [] => []
  | RemoveFile name :: rest => name :: removalsOf rest
  | _ :: rest => removalsOf rest
  end.

(** The bytes copied into the writer of the caller (when the copy fails,
    only a part of them may have arrived). *)
Fixpoint written (events : list Event) : list byte :=
  match events with
  | [] => []
  | CopyOut data :: rest => data ++ written rest
  | _ :: rest => written rest
  end.

End Transfer.

(** ** The PowerShell runner: staging and spawning *)

Module Staging.

(** What [saveStreamingScript] and [powershellRunner.Stream] do on the
    host. *)
Inductive Event : Type :=
| Created (name : string)                 (* a temporary file was created *)
| Wrote (name : string) (contents : string)
| Closed (name : string)
| Renamed (oldName newName : string)
| Cleaned (e : Exec.Event)                (* a step of the cleanup closure *)
| Spawned (path : string) (args : list string).   (* cmd.Start() succeeded *)

(** The host as the two functions meet it. *)
Record Env : Type := {
  debugSet : bool;          (* os.Getenv("PACKER_POWERSHELL_DEBUG") != "" *)
  isWSL : bool;             (* wsl.IsWSL() *)
  getWSlTemp : Res string;  (* wsl.GetWSlTemp() *)
  convertWindowsPathToWSlPath : string -> Res string;
  convertWSlPathToWindowsPath : string -> Res string;
  createTempIn : string -> Res string;  (* os.CreateTemp(dir, "powershell") *)
  tmpFile : Res string;                 (* tmp.File("Powershell") *)
  writeErr : string -> option Err;      (* file.Write *)
  closeErr : string -> option Err;      (* file.Close *)
  renameErr : string -> string -> option Err;   (* os.Rename *)
  isPowershellAvailable : bool * string * option Err;
  stdoutPipeErr : option Err;           (* cmd.StdoutPipe() *)
  stderrPipeErr : option Err;           (* cmd.StderrPipe() *)
  startErr : option Err;                (* cmd.Start() *)
  processExitErr : option Err;          (* what Wait will report *)
  processSignalErr : option Err         (* what a kill signal will report *)
}.

(** The three results of [saveStreamingScript]: the file name, the cleanup
    closure ([None] for the empty function [func() {}]) and the error. *)
Record Saved : Type := {
  savedName : string;
  savedCleanup : option Exec.Cleanup;
  savedErr : option Err
}.

Definition notSaved (err : Err) : Saved :=
  {| savedName := ""; savedCleanup := None; savedErr := Some err |}.

(** [os.ErrInvalid], which the methods of a nil [*os.File] return. *)
Definition ErrInvalid : Err := ErrOther "invalid argument".

(** The part of [saveStreamingScript] after the temporary file has been
    asked for.  [file] is [None] for a nil [*os.File] and [err] is the
    variable [err] of the function as it stands at that point. *)
Definition saveFrom (env : Env) (contents : string) (file : option string)
  (err : option Err) (events : list Event) : Saved * list Event :=
  match err with
  | Some e => (notSaved e, events)
  | None =>
      match file with
      | None =>
          (* file.Write and file.Close on a nil file *)
          (notSaved ErrInvalid, events)
      | Some name =>
          match writeErr env name with
          | Some e => (notSaved e, events ++ [Closed name])
          | None =>
              let events := events ++ [Wrote name contents] in
              match closeErr env name with
              | Some e => (notSaved e, events)
              | None =>
                  let events := events ++ [Closed name] in
                  let newFilename := (name ++ ".ps1")%string in
                  match renameErr env name newFilename with
                  | Some e => (notSaved e, events)
                  | None =>
                      ({| savedName := newFilename;
                          savedCleanup :=
                            Some {| Exec.debug := debugSet env;
                                    Exec.newFilename := newFilename |};
                          savedErr := None |},
                       events ++ [Renamed name newFilename])
                  end
              end
          end
      end
  end.

(** [saveStreamingScript].  In the WSL branch the error of [os.CreateTemp]
    is assigned to the variable [err] that [tmpDir, err := ...] declares in
    that block; the [err] of the function, tested after the block, is still
    nil there. *)
Definition saveStreamingScript (env : Env) (contents : string)
  : Saved * list Event :=
  if isWSL env then
    match getWSlTemp env with
    | Failed e => (notSaved e, [])
    | Ok tmpDir =>
        match convertWindowsPathToWSlPath env tmpDir with
        | Failed e => (notSaved e, [])
        | Ok wslTempDir =>
            match createTempIn env wslTempDir with
            | Ok name => saveFrom env contents (Some name) None [Created name]
            | Failed _ => saveFrom env contents None None []
            end
        end
    end
  else
    match tmpFile env with
    | Ok name => saveFrom env contents (Some name) None [Created name]
    | Failed e => saveFrom env contents None (Some e) []
    end.

(** A call of the cleanup closure. *)
Definition callCleanup (cleanup : option Exec.Cleanup) : list Event :=
  match cleanup with
  | Some cl => map Cleaned (Exec.runCleanup cl)
  | None => []
  end.

(** [powershellRunner.Stream], up to the process it returns. *)
Definition Stream (env : Env) (script : string) (params : list string)
  : Res Exec.execStreamProcess * list Event :=
  match isPowershellAvailable env with
  | (_, _, Some err) => (Failed err, [])
  | (false, _, None) =>
      (Failed (ErrOther "cannot find PowerShell in PATH"), [])
  | (true, path, None) =>
      match saveStreamingScript env script with
      | (saved, events) =>
          match savedErr saved with
          | Some err => (Failed err, events)
          | None =>
              let cleanup := savedCleanup saved in
              let converted : Res string :=
                if isWSL env
                then convertWSlPathToWindowsPath env (savedName saved)
                else Ok (savedName saved) in
              match converted with
              | Failed err => (Failed err, events ++ callCleanup cleanup)
              | Ok filename =>
                  let args := buildPowerShellArgs filename params in
                  match stdoutPipeErr env with
                  | Some err => (Failed err, events ++ callCleanup cleanup)
                  | None =>
                      match stderrPipeErr env with
                      | Some err =>
                          (Failed err, events ++ callCleanup cleanup)
                      | None =>
                          match startErr env with
                          | Some err =>
                              (Failed err, events ++ callCleanup cleanup)
                          | None =>
                              (Ok {| Exec.cmd :=
                                       {| Exec.Process := true;
                                          Exec.ProcessState := false;
                                          Exec.exitErr := processExitErr env;
                                          Exec.signalErr :=
                                            processSignalErr env |};
                                     Exec.cleanup := cleanup;
                                     Exec.once := false |},
                               events ++ [Spawned path args])
                          end
                      end
                  end
              end
          end
      end
  end.

(** The steps of the cleanup closure among the events. *)
Fixpoint cleanupSteps (events : list Event) : list Exec.Event :=
  match events with
  | [] => []
  | Cleaned e :: rest => e :: cleanupSteps rest
  | _ :: rest => cleanupSteps rest
  end.

(** The processes spawned among the events. *)
Fixpoint spawns (events : list Event) : list (string * list string) :=
  match events with
  | [] => []
  | Spawned path args :: rest => (path, args) :: spawns rest
  | _ :: rest => spawns rest
  end.

(** The files staged under their final name among the events. *)
Fixpoint staged (events : list Event) : list string :=
  match events with
  | [] => []
  | Renamed _ newName :: rest => newName :: staged rest
  | _ :: rest => staged rest
  end.

End Staging.

(** A host for the staging functions on which nothing fails but what is
    given: under WSL or not, with the result of creating the temporary
    file and the result of [cmd.Start()]. *)
Definition stagingEnv (wsl : bool) (created : Res string)
  (start : option Err) : Staging.Env :=
  {| Staging.debugSet := false;
     Staging.isWSL := wsl;
     Staging.getWSlTemp := Ok "C:\Temp";
     Staging.convertWindowsPathToWSlPath := fun _ => Ok "/mnt/c/Temp";
     Staging.convertWSlPathToWindowsPath := fun path => Ok path;
     Staging.createTempIn := fun _ => created;
     Staging.tmpFile := created;
     Staging.writeErr := fun _ => None;
     Staging.closeErr := fun _ => None;
     Staging.renameErr := fun _ _ => None;
     Staging.isPowershellAvailable := (true, "powershell.exe", None);
     Staging.stdoutPipeErr := None;
     Staging.stderrPipeErr := None;
     Staging.startErr := start;
     Staging.processExitErr := None;
     Staging.processSignalErr := None |}.

(** A Windows host that is not WSL, with the stub runner. *)
Definition testPlatform : Platform :=
  {| GOOS := "windows"; platformHost := testHost;
     powershellRunner := stubRunner {| Stdout := None; Stderr := None |} |}.

(** The step of [TestStepConnectPowerShellDirectRunSuccess], with the
    default factory. *)
Definition testStep (vm : string) : Common.StepConnectPowerShellDirect :=
  {| Common.StepConfig :=
       Some {| Common.VMName := vm; Common.Username := "packer";
               Common.Password := "secret" |};
     Common.Factory := None |}.

(** ** The envelopes of the stream protocol *)

(** A data envelope as [Write-StreamMessage] of [executeCommandScript]
    emits it, and as [TestStartExecutionSuccess] formats it:
    [{"stream":"<stream>","data":"<base64 of the payload>"}]. *)
Definition dataLine (stream : string) (payload : list byte) : string :=
  (dq "{'stream':'" ++ stream ++ dq "','data':'"
   ++ Base64.EncodeToString payload ++ dq "'}")%string.

(** A character that stands for itself inside a JSON string literal and
    is no white space: 7-bit, not a control character, not the quote and
    not the backslash. *)
Definition literalChar (c : ascii) : bool :=
  plain c && negb (Json.isChar c Json.quote) && negb (code c <? 32)%N
  && negb (Json.isChar c "\").

Definition literalOk (n : nat) : bool :=
  literalChar (Base64.encodeChar (Z.of_nat n)).

(** The decimal text of an integer, as [ConvertTo-Json] writes the
    [int] of [Write-ExitMessage]: a minus sign for a negative number, no
    leading zero. *)
Definition itoa (z : Z) : string := NilZero.string_of_int (Z.to_int z).

(** An exit envelope as [Write-ExitMessage] emits it, and as
    [TestStartExecutionSuccess] writes it:
    [{"stream":"exit","code":<code>}]. *)
Definition exitLineOf (code : Z) : string :=
  (dq "{'stream':'exit','code':" ++ itoa code ++ "}")%string.

(** A data message of the protocol: a payload for one of the two
    sinks. *)
Inductive Message : Type :=
| StdoutData (payload : list byte)
| StderrData (payload : list byte).

Definition messageLine (m : Message) : string :=
  match m with
  | StdoutData payload => dataLine "stdout" payload
  | StderrData payload => dataLine "stderr" payload
  end.

(** The payloads of the messages for each sink, in order, joined. *)
Fixpoint stdoutOf (ms : list Message) : list byte :=
  match ms with
  | [] => []
  | StdoutData payload :: rest => payload ++ stdoutOf rest
  | StderrData _ :: rest => stdoutOf rest
  end.

Fixpoint stderrOf (ms : list Message) : list byte :=
  match ms with
  | [] => []
  | StderrData payload :: rest => payload ++ stderrOf rest
  | StdoutData _ :: rest => stderrOf rest
  end.

(** The data passed to each [Write] on [Stdout] and on [Stderr] in a
    trace, oldest first. *)
Fixpoint stdoutWrites (trace : list Effect) : list (list byte) :=
  match trace with
  | [] => []
  | WriteStdout data :: rest => data :: stdoutWrites rest
  | _ :: rest => stdoutWrites rest
  end.

Fixpoint stderrWrites (trace : list Effect) : list (list byte) :=
  match trace with
  | [] => []
  | WriteStderr data :: rest => data :: stderrWrites rest
  | _ :: rest => stderrWrites rest
  end.

(** The characters of the decimal text of a digit sequence. *)
Definition digitChars (d : Decimal.uint) : list ascii :=
  list_ascii_of_string (NilEmpty.string_of_uint d).

(** What the decoder does with a data message: the payload written to
    the sink it names, when the sink is set and the payload not empty. *)
Definition deliver (cmd : RemoteCmd) (m : Message) : list Effect :=
  match m with
  | StdoutData payload =>
      if hasStdout cmd then writePayload WriteStdout payload else []
  | StderrData payload =>
      if hasStderr cmd then writePayload WriteStderr payload else []
  end.

(** ** The environment of the PowerShell process *)

Module Powershell.

(** [strings.SplitN(kv, "=", 2)] when it has two parts: [kv] cut at its
    first [=]; [None] when [kv] has none and the result has one part. *)
Fixpoint splitAssignment (kv : string) : option (string * string) :=
  match kv with
  | EmptyString => None
  | String c rest =>
      if Ascii.eqb c "=" then Some ("", rest)
      else
        match splitAssignment rest with
        | Some (key, value) => Some (String c key, value)
        | None => None
        end
  end.

(** [fmt.Sprintf("%s=%s", key, value)] *)
Definition assignment (key value : string) : string :=
  (key ++ "=" ++ value)%string.

(** A [map[string]string] with the order in which a [range] over it
    yields its entries, which Go does not fix: the keys are distinct. *)
Definition StringMap : Type := list (string * string).

(** [value, ok := m[key]] *)
Fixpoint lookup (m : StringMap) (key : string) : option string :=
  match m with
  | [] => None
  | (k, v) :: rest => if String.eqb k key then Some v else lookup rest key
  end.

(** [_, ok := handled[key]] on the set of the keys handled. *)
Definition isHandled (handled : list string) (key : string) : bool :=
  existsb (String.eqb key) handled.

(** The first loop of [applyEnvironmentOverrides]: the entries of [base]
    in order, each entry whose key is overridden replaced, and the keys
    handled. *)
Fixpoint overrideBase (base : list string) (overrides : StringMap)
  : list string * list string :=
  match base with
  | [] => ([], [])
  | kv :: rest =>
      let (result, handled) := overrideBase rest overrides in
      match splitAssignment kv with
      | None => (kv :: result, handled)
      | Some (key, _) =>
          match lookup overrides key with
          | Some value => (assignment key value :: result, key :: handled)
          | None => (kv :: result, handled)
          end
      end
  end.

(** The second loop: the overrides not handled, in the order of the
    [range]. *)
Fixpoint appendMissing (entries : StringMap) (handled : list string)
  : list string :=
  match entries with
  | [] => []
  | (key, value) :: rest =>
      if isHandled handled key then appendMissing rest handled
      else assignment key value :: appendMissing rest handled
  end.

(** [applyEnvironmentOverrides] *)
Definition applyEnvironmentOverrides (base : list string)
  (overrides : StringMap) : list string :=
  if (List.length overrides =? 0)%nat then base
  else
    let (result, handled) := overrideBase base overrides in
    result ++ appendMissing overrides handled.

(** The key of an entry of an environment, when it has one. *)
Definition entryKey (kv : string) : option string :=
  option_map fst (splitAssignment kv).

(** [true] on the entries that no override concerns: those without a key
    and those whose key the map does not hold. *)
Definition untouched (overrides : StringMap) (kv : string) : bool :=
  match entryKey kv with
  | None => true
  | Some key =>
      match lookup overrides key with
      | Some _ => false
      | None => true
      end
  end.

End Powershell.

(** ** The global executor of the PowerShell package *)

Module Executor.

Section Global.

(** The type behind the [Executor] interface. *)
Variable Executor : Type.

(** The state is the package variable [executor]; [execMu] orders the
    accesses, which are taken here one after the other. *)
Definition State : Type := Executor.

(** The function [SetExecutor] returns: it assigns the executor found
    when [SetExecutor] was called, whatever the variable holds by
    then. *)
Definition Restore : Type := State -> State.

(** [SetExecutor] *)
Definition SetExecutor (e : Executor) (executor : State) : Restore * State :=
  let prev := executor in
  (fun _ => prev, e).

(** [currentExecutor] *)
Definition currentExecutor (executor : State) : Executor := executor.

(** [SetExecutor] called with each of [es] in turn: the functions
    returned, in the order of the calls, and the state after the last. *)
Fixpoint setAll (es : list Executor) (executor : State)
  : list Restore * State :=
  match es with
  | [] => ([], executor)
  | e :: rest =>
      let (restore, executor') := SetExecutor e executor in
      let (restores, final) := setAll rest executor' in
      (restore :: restores, final)
  end.

(** The functions called one after the other. *)
Definition callAll (restores : list Restore) (executor : State) : State :=
  fold_left (fun st restore => restore st) restores executor.

End Global.

End Executor.

(** ** What the goroutines of a session write *)






(* ================================================================== *)
(** * Part II: theorems *)
(* ================================================================== *)

Module GoStringsFacts.

Lemma length_append (s t : string) :
  String.length (s ++ t)%string = String.length s + String.length t.
Proof. induction s as [|a s IH]; simpl; [reflexivity | now rewrite IH]. Qed.

Lemma substring_append_tail (s t : string) :
  substring (String.length s) (String.length t) (s ++ t)%string = t.
Proof.
  induction s as [|a s IH]; simpl.
  - induction t as [|b t IHt]; simpl; [reflexivity|].
    now rewrite IHt.
  - exact IH.
Qed.

Lemma HasSuffix_append (s t : string) : HasSuffix (s ++ t)%string t = true.
Proof.
  unfold HasSuffix. rewrite length_append.
  replace (String.length s + String.length t - String.length t)
    with (String.length s) by lia.
  rewrite substring_append_tail, String.eqb_refl.
  rewrite andb_true_r. apply Nat.leb_le. lia.
Qed.

Lemma HasSuffix_last (p : string) (c d : ascii) :
  HasSuffix (p ++ String c EmptyString)%string (String d EmptyString)
  = Ascii.eqb c d.
Proof.
  unfold HasSuffix. rewrite length_append. simpl String.length.
  replace (String.length p + 1 - 1) with (String.length p) by lia.
  pose proof (substring_append_tail p (String c EmptyString)) as H.
  simpl String.length in H. rewrite H.
  replace (1 <=? String.length p + 1)%nat with true
    by (symmetry; apply Nat.leb_le; lia).
  simpl. now destruct (Ascii.eqb c d).
Qed.

Ltac kill_cmp t :=
  repeat match goal with
    | |- context [N.eqb t ?k] =>
        replace (N.eqb t k) with false by (symmetry; apply N.eqb_neq; lia)
    | |- context [N.leb ?k t] =>
        replace (N.leb k t) with false by (symmetry; apply N.leb_gt; lia)
    end;
  repeat (cbn [andb orb]; rewrite ?andb_false_r, ?orb_false_r);
  try reflexivity.

Lemma plain_inv (a : ascii) :
  plain a = true -> (code a < 128)%N /\ asciiSpace a = false.
Proof.
  unfold plain. intros H. apply andb_true_iff in H as [H1 H2].
  apply N.ltb_lt in H1. apply negb_true_iff in H2. now split.
Qed.

Lemma trimLeft_plain (a : ascii) (r : string) :
  plain a = true -> trimLeft (String a r) = String a r.
Proof.
  intros H. apply plain_inv in H as [Hlt Hsp].
  cbn [trimLeft]. rewrite Hsp.
  destruct r as [|b [|c r]]; try reflexivity.
  - replace (space2 a b) with false; [reflexivity|].
    unfold space2. cbv zeta. kill_cmp (code a).
  - replace (space2 a b) with false
      by (unfold space2; cbv zeta; kill_cmp (code a)).
    replace (space3 a b c) with false; [reflexivity|].
    unfold space3. cbv zeta. kill_cmp (code a).
Qed.

Lemma trimLeftRev_plain (a : ascii) (r : string) :
  plain a = true -> trimLeftRev (String a r) = String a r.
Proof.
  intros H. apply plain_inv in H as [Hlt Hsp].
  cbn [trimLeftRev]. rewrite Hsp.
  destruct r as [|b [|c r]]; try reflexivity.
  - replace (space2 b a) with false; [reflexivity|].
    unfold space2. cbv zeta. kill_cmp (code a).
  - replace (space2 b a) with false
      by (unfold space2; cbv zeta; kill_cmp (code a)).
    replace (space3 c b a) with false; [reflexivity|].
    unfold space3. cbv zeta. kill_cmp (code a).
Qed.

(** A string of plain characters is left as it is by [TrimSpace]. *)
Lemma TrimSpace_plain (l : list ascii) :
  Forall (fun c => plain c = true) l ->
  TrimSpace (string_of_list_ascii l) = string_of_list_ascii l.
Proof.
  intros Hl. unfold TrimSpace.
  assert (HL : trimLeft (string_of_list_ascii l) = string_of_list_ascii l).
  { destruct l as [|a l]; [reflexivity|].
    cbn [string_of_list_ascii]. apply trimLeft_plain.
    now inversion Hl. }
  rewrite HL. unfold trimRight, rev.
  rewrite list_ascii_of_string_of_list_ascii.
  assert (HR : trimLeftRev (string_of_list_ascii (List.rev l))
               = string_of_list_ascii (List.rev l)).
  { apply Forall_rev in Hl.
    destruct (List.rev l) as [|a l']; [reflexivity|].
    cbn [string_of_list_ascii]. apply trimLeftRev_plain.
    now inversion Hl. }
  rewrite HR, list_ascii_of_string_of_list_ascii.
  now rewrite rev_involutive.
Qed.

End GoStringsFacts.

(** ** Base64: decoding inverts encoding *)

Module Base64Facts.

Import Base64.

Local Open Scope Z_scope.

Lemma byteToZ_range (b : byte) : 0 <= byteToZ b < 256.
Proof. unfold byteToZ. pose proof (Byte.to_N_bounded b). lia. Qed.

Lemma small_testbit (x k n : Z) :
  0 <= x < 2 ^ k -> 0 <= k -> k <= n -> Z.testbit x n = false.
Proof.
  intros Hx Hk Hn.
  destruct (Z.eq_dec x 0) as [->|Hnz]; [apply Z.bits_0|].
  apply Z.bits_above_log2; [lia|].
  apply Z.log2_lt_pow2; [lia|].
  eapply Z.lt_le_trans; [apply Hx|]. apply Z.pow_le_mono_r; lia.
Qed.

Lemma byte_testbit_out (b : byte) (n : Z) :
  n < 0 \/ 8 <= n -> Z.testbit (byteToZ b) n = false.
Proof.
  intros [H|H]; [now apply Z.testbit_neg_r|].
  apply (small_testbit _ 8); [apply byteToZ_range | lia | lia].
Qed.

(** One rewriting step towards a Boolean formula over the bits of the
    bytes involved. *)
Ltac bits_step :=
  first
    [ rewrite Z.lor_spec | rewrite Z.land_spec
    | rewrite Z.shiftr_spec by lia
    | rewrite Z.shiftl_spec by lia
    | rewrite Z.testbit_ones by lia
    | rewrite Z.testbit_neg_r by lia
    | rewrite Z.bits_0
    | match goal with
      | |- context [Z.testbit (byteToZ ?b) ?e] =>
          rewrite (byte_testbit_out b e) by lia
      | |- context [(?a <=? ?b)] =>
          first [ rewrite (proj2 (Z.leb_le a b)) by lia
                | rewrite (proj2 (Z.leb_gt a b)) by lia ]
      | |- context [(?a <? ?b)] =>
          first [ rewrite (proj2 (Z.ltb_lt a b)) by lia
                | rewrite (proj2 (Z.ltb_ge a b)) by lia ]
      end ].

Ltac bits_solve :=
  change 63 with (Z.ones 6); change 255 with (Z.ones 8);
  repeat bits_step;
  cbn [andb orb];
  rewrite ?andb_true_r, ?andb_false_r, ?orb_false_r, ?orb_false_l;
  try reflexivity;
  try (f_equal; lia).

(** Bit-wise equality, split at the bit positions [i] and [8]. *)
Ltac bits_at i :=
  apply Z.bits_inj';
  let n := fresh "n" in
  let Hn := fresh "Hn" in
  let C := fresh "C" in
  intros n Hn;
  assert (C : n < i \/ i <= n < 8 \/ 8 <= n) by lia;
  destruct C as [C|[C|C]]; bits_solve.

Lemma six_range (val shift : Z) : 0 <= six val shift < 64.
Proof.
  unfold six. change 63 with (Z.ones 6).
  rewrite Z.land_ones by lia. apply Z.mod_pos_bound. lia.
Qed.

Lemma byteOfZ_eq (z : Z) (b : byte) : Z.land z 255 = byteToZ b -> byteOfZ z = b.
Proof.
  intros H. unfold byteOfZ. rewrite H. unfold byteToZ.
  now rewrite N2Z.id, Byte.of_to_N.
Qed.

Lemma quantum3 (b0 b1 b2 : byte) :
  let v := pack3 b0 b1 b2 in
  quantumBytes [six v 18; six v 12; six v 6; six v 0] = [b0; b1; b2].
Proof.
  intros v. unfold quantumBytes. cbn [nth List.length Nat.sub firstn].
  subst v. unfold six, pack3.
  f_equal; [|f_equal; [|f_equal]]; apply byteOfZ_eq.
  - bits_at 2.
  - bits_at 4.
  - bits_at 6.
Qed.

Lemma quantum2 (b0 b1 : byte) :
  let v := pack2 b0 b1 in
  quantumBytes [six v 18; six v 12; six v 6] = [b0; b1].
Proof.
  intros v. unfold quantumBytes. cbn [nth List.length Nat.sub firstn].
  subst v. unfold six, pack2.
  f_equal; [|f_equal]; apply byteOfZ_eq.
  - bits_at 2.
  - bits_at 4.
Qed.

Lemma quantum1 (b0 : byte) :
  let v := pack1 b0 in
  quantumBytes [six v 18; six v 12] = [b0].
Proof.
  intros v. unfold quantumBytes. cbn [nth List.length Nat.sub firstn].
  subst v. unfold six, pack1.
  f_equal; apply byteOfZ_eq.
  bits_at 2.
Qed.

Lemma alphabet_table : forallb alphabetOk (seq 0 64) = true.
Proof. vm_compute. reflexivity. Qed.

Lemma alphabetOk_all (i : Z) :
  0 <= i < 64 -> alphabetOk (Z.to_nat i) = true.
Proof.
  intros Hi. pose proof alphabet_table as T.
  rewrite forallb_forall in T. apply T. apply in_seq. lia.
Qed.

Lemma decodeMap_encodeChar (i : Z) :
  0 <= i < 64 -> decodeMap (encodeChar i) = i.
Proof.
  intros Hi. pose proof (alphabetOk_all i Hi) as H. unfold alphabetOk in H.
  rewrite Z2Nat.id in H by lia.
  apply andb_true_iff in H as [H _]. apply andb_true_iff in H as [H _].
  now apply Z.eqb_eq in H.
Qed.

Lemma decodeLoop_sextet (i : Z) (rest : list ascii) (si : nat)
  (dbuf : list Z) (out : list byte) :
  0 <= i < 64 ->
  decodeLoop (encodeChar i :: rest) si dbuf out =
  if (List.length (dbuf ++ [i]) =? 4)%nat
  then decodeLoop rest (S si) [] (out ++ quantumBytes (dbuf ++ [i]))
  else decodeLoop rest (S si) (dbuf ++ [i]) out.
Proof.
  intros Hi. cbn [decodeLoop]. rewrite (decodeMap_encodeChar i Hi).
  replace (i =? 255) with false by (symmetry; apply Z.eqb_neq; lia).
  reflexivity.
Qed.

Lemma decodeLoop_pad2 (s0 s1 : Z) (si : nat) (out : list byte) :
  decodeLoop [padChar; padChar] si [s0; s1] out
  = Ok (out ++ quantumBytes [s0; s1]).
Proof. reflexivity. Qed.

Lemma decodeLoop_pad1 (s0 s1 s2 : Z) (si : nat) (out : list byte) :
  decodeLoop [padChar] si [s0; s1; s2] out
  = Ok (out ++ quantumBytes [s0; s1; s2]).
Proof. reflexivity. Qed.

Lemma encode_1 (b0 : byte) :
  encode [b0]
  = [encodeChar (six (pack1 b0) 18); encodeChar (six (pack1 b0) 12);
     padChar; padChar].
Proof. reflexivity. Qed.

Lemma encode_2 (b0 b1 : byte) :
  encode [b0; b1]
  = [encodeChar (six (pack2 b0 b1) 18); encodeChar (six (pack2 b0 b1) 12);
     encodeChar (six (pack2 b0 b1) 6); padChar].
Proof. reflexivity. Qed.

Lemma encode_3 (b0 b1 b2 : byte) (rest : list byte) :
  encode (b0 :: b1 :: b2 :: rest)
  = encodeChar (six (pack3 b0 b1 b2) 18)
    :: encodeChar (six (pack3 b0 b1 b2) 12)
    :: encodeChar (six (pack3 b0 b1 b2) 6)
    :: encodeChar (six (pack3 b0 b1 b2) 0)
    :: encode rest.
Proof. reflexivity. Qed.

Ltac decode_sextets :=
  repeat (rewrite decodeLoop_sextet by apply six_range;
          cbn [app List.length Nat.eqb]).

(** The decoding loop, started between two quanta on the encoding of
    [bs], appends [bs] to its output. *)
Lemma decodeLoop_encode (n : nat) :
  forall bs : list byte, (List.length bs <= n)%nat ->
  forall (si : nat) (out : list byte),
    decodeLoop (encode bs) si [] out = Ok (out ++ bs).
Proof.
  induction n as [|n IH]; intros bs Hlen si out.
  - destruct bs; [cbn; now rewrite app_nil_r | cbn in Hlen; lia].
  - destruct bs as [|b0 [|b1 [|b2 rest]]].
    + cbn. now rewrite app_nil_r.
    + rewrite encode_1. decode_sextets.
      rewrite decodeLoop_pad2. now rewrite (quantum1 b0).
    + rewrite encode_2. decode_sextets.
      rewrite decodeLoop_pad1. now rewrite (quantum2 b0 b1).
    + rewrite encode_3. decode_sextets.
      rewrite (quantum3 b0 b1 b2).
      rewrite IH by (cbn in Hlen; lia).
      now rewrite <- app_assoc.
Qed.

Lemma DecodeString_EncodeToString (bs : list byte) :
  DecodeString (EncodeToString bs) = Ok bs.
Proof.
  unfold DecodeString, EncodeToString.
  rewrite list_ascii_of_string_of_list_ascii.
  now rewrite (decodeLoop_encode (List.length bs) bs (le_n _) 0%nat []).
Qed.

(** Every character of an encoding is a 7-bit character that is not
    white space. *)
Lemma encodeChar_plain (i : Z) :
  0 <= i < 64 -> plain (encodeChar i) = true.
Proof.
  intros Hi. pose proof (alphabetOk_all i Hi) as H. unfold alphabetOk in H.
  rewrite Z2Nat.id in H by lia. unfold plain.
  apply andb_true_iff in H as [H H2]. apply andb_true_iff in H as [_ H1].
  now rewrite H1, H2.
Qed.

Lemma encode_plain (n : nat) :
  forall bs : list byte, (List.length bs <= n)%nat ->
  Forall (fun c => plain c = true) (encode bs).
Proof.
  induction n as [|n IH]; intros bs Hlen.
  - destruct bs; [constructor | cbn in Hlen; lia].
  - destruct bs as [|b0 [|b1 [|b2 rest]]].
    + constructor.
    + rewrite encode_1.
      repeat (constructor; [first [apply encodeChar_plain, six_range | reflexivity]|]).
      constructor.
    + rewrite encode_2.
      repeat (constructor; [first [apply encodeChar_plain, six_range | reflexivity]|]).
      constructor.
    + rewrite encode_3.
      repeat (constructor; [apply encodeChar_plain, six_range|]).
      apply IH. cbn in Hlen. lia.
Qed.

(** [decodeBase64] inverts [EncodeToString]. *)
Lemma decodeBase64_EncodeToString (bs : list byte) :
  decodeBase64 (EncodeToString bs) = Ok bs.
Proof.
  unfold decodeBase64.
  destruct bs as [|b bs]; [reflexivity|].
  unfold EncodeToString at 1.
  rewrite GoStringsFacts.TrimSpace_plain
    by (apply (encode_plain (List.length (b :: bs))); apply le_n).
  replace (isEmpty (string_of_list_ascii (encode (b :: bs)))) with false.
  - apply DecodeString_EncodeToString.
  - destruct bs as [|b1 [|b2 rest]]; reflexivity.
Qed.

(** Outside blank strings [decodeBase64] is [StdEncoding.DecodeString]. *)
Lemma decodeBase64_nonblank (value : string) :
  isEmpty (TrimSpace value) = false ->
  decodeBase64 value = DecodeString value.
Proof. intros H. unfold decodeBase64. now rewrite H. Qed.

End Base64Facts.

(** ** The structured stream decoder *)

Module DecoderFacts.

Lemma statuses_app (a b : list Effect) :
  statuses (a ++ b) = statuses a ++ statuses b.
Proof.
  induction a as [|e a IH]; [reflexivity|].
  destruct e; cbn; now rewrite IH.
Qed.

Lemma resolutions_app (a b : list Effect) :
  resolutions (a ++ b) = resolutions a + resolutions b.
Proof. unfold resolutions. now rewrite statuses_app, length_app. Qed.

Lemma exited_performAll (trace : list Effect) :
  forall s : Sinks, exited (performAll s trace) = exited s ++ statuses trace.
Proof.
  unfold performAll.
  induction trace as [|e trace IH]; intros s; cbn.
  - now rewrite app_nil_r.
  - rewrite IH. destruct e; cbn; [reflexivity | reflexivity |].
    now rewrite <- app_assoc.
Qed.

Lemma statuses_printStderr (text : string) : statuses (printStderr text) = [].
Proof. reflexivity. Qed.

Lemma statuses_warn (cmd : RemoteCmd) (text : string) :
  statuses (warn cmd text) = [].
Proof. unfold warn. now destruct (hasStderr cmd). Qed.

Lemma statuses_writeStdout (data : list byte) :
  statuses (writePayload WriteStdout data) = [].
Proof. unfold writePayload. now destruct (0 <? List.length data)%nat. Qed.

Lemma statuses_writeStderr (data : list byte) :
  statuses (writePayload WriteStderr data) = [].
Proof. unfold writePayload. now destruct (0 <? List.length data)%nat. Qed.

Ltac no_status :=
  cbn [fst snd];
  rewrite ?statuses_app, ?statuses_printStderr, ?statuses_warn,
    ?statuses_writeStdout, ?statuses_writeStderr.

(** One iteration either continues without resolving the exit status,
    or resolves it once and returns. *)
Lemma consumeLine_cases (cmd : RemoteCmd) (text : string) :
  match exitEnvelope text with
  | Some code => consumeLine cmd text = ([SetExited code], Return code)
  | None =>
      snd (consumeLine cmd text) = Continue
      /\ statuses (fst (consumeLine cmd text)) = []
  end.
Proof.
  unfold exitEnvelope, consumeLine. cbv zeta.
  destruct (isEmpty (TrimSpace text)); [now split|].
  destruct (Json.Unmarshal (TrimSpace text)) as [msg|err];
    [|split; [reflexivity | apply statuses_warn]].
  destruct (String.eqb_spec (Stream msg) "stdout") as [E1|N1].
  { rewrite E1. cbn [String.eqb Ascii.eqb Bool.eqb].
    destruct (hasStdout cmd); cbn [negb]; [|now split].
    destruct (decodeBase64 (Data msg)); no_status; now split. }
  destruct (String.eqb_spec (Stream msg) "stderr") as [E2|N2].
  { rewrite E2. cbn [String.eqb Ascii.eqb Bool.eqb].
    destruct (hasStderr cmd); cbn [negb]; [|now split].
    destruct (decodeBase64 (Data msg)); no_status; now split. }
  destruct (String.eqb (Stream msg) "exit"); [reflexivity|].
  cbn [fst snd]. split; [reflexivity | apply statuses_warn].
Qed.

Lemma consumeLine_exit (cmd : RemoteCmd) (text : string) (code : Z) :
  exitEnvelope text = Some code ->
  consumeLine cmd text = ([SetExited code], Return code).
Proof.
  intros H. pose proof (consumeLine_cases cmd text) as C. now rewrite H in C.
Qed.

Lemma consumeLine_other (cmd : RemoteCmd) (text : string) :
  exitEnvelope text = None ->
  exists effects : list Effect,
    consumeLine cmd text = (effects, Continue) /\ statuses effects = [].
Proof.
  intros H. pose proof (consumeLine_cases cmd text) as C. rewrite H in C.
  destruct (consumeLine cmd text) as [effects flow]. cbn in C.
  destruct C as [-> C]. now exists effects.
Qed.

(** Without an exit envelope the loop runs to the end of the tokens and
    never resolves the exit status. *)
Lemma consumeLoop_no_exit (cmd : RemoteCmd) (lines : list string) :
  Forall (fun t => exitEnvelope t = None) lines ->
  exists effects : list Effect,
    consumeLoop cmd lines = (effects, Continue) /\ statuses effects = [].
Proof.
  induction 1 as [|text rest Htext _ IH].
  - now exists [].
  - destruct (consumeLine_other cmd text Htext) as [e1 [H1 S1]].
    destruct IH as [e2 [H2 S2]].
    exists (e1 ++ e2). cbn [consumeLoop]. rewrite H1, H2.
    split; [reflexivity|]. now rewrite statuses_app, S1, S2.
Qed.

(** The first exit envelope ends the loop: the tokens after it have no
    part in the result. *)
Lemma consumeLoop_exit (cmd : RemoteCmd) (before after : list string)
  (text : string) (code : Z) :
  Forall (fun t => exitEnvelope t = None) before ->
  exitEnvelope text = Some code ->
  consumeLoop cmd (before ++ text :: after)
  = (fst (consumeLoop cmd before) ++ [SetExited code], Return code).
Proof.
  intros Hbefore Htext.
  induction Hbefore as [|t rest Ht _ IH].
  - cbn. now rewrite (consumeLine_exit cmd text code Htext).
  - destruct (consumeLine_other cmd t Ht) as [e1 [H1 _]].
    cbn [app consumeLoop]. rewrite H1, IH.
    destruct (consumeLoop cmd rest) as [e2 flow]. cbn [fst].
    now rewrite app_assoc.
Qed.

(** Whatever the tokens, the loop resolves the exit status exactly when
    it returns, and then once. *)
Lemma consumeLoop_statuses (cmd : RemoteCmd) (lines : list string) :
  statuses (fst (consumeLoop cmd lines))
  = match snd (consumeLoop cmd lines) with
    | Return code => [code]
    | Continue => []
    end.
Proof.
  induction lines as [|text rest IH]; [reflexivity|].
  cbn [consumeLoop]. pose proof (consumeLine_cases cmd text) as C.
  destruct (exitEnvelope text) as [code|].
  - now rewrite C.
  - destruct (consumeLine cmd text) as [e1 flow]. cbn in C.
    destruct C as [-> S1].
    destruct (consumeLoop cmd rest) as [e2 flow2]. cbn [fst snd] in *.
    now rewrite statuses_app, S1, IH.
Qed.

(** The stdout pump resolves the exit status exactly once, whatever it
    reads. *)
Lemma consumeMessages_once (reader : option Bufio.Scanned) (cmd : RemoteCmd) :
  resolutions (consumeMessages reader cmd) = 1.
Proof.
  unfold resolutions, consumeMessages.
  destruct reader as [scanner|]; [|reflexivity].
  cbv zeta. pose proof (consumeLoop_statuses cmd (Bufio.tokens scanner)) as S.
  destruct (consumeLoop cmd (Bufio.tokens scanner)) as [effects [|code]];
    cbn [fst snd] in S.
  - rewrite !statuses_app, S. cbn [negb].
    destruct (Bufio.scanErr scanner); now rewrite ?statuses_warn.
  - now rewrite S.
Qed.

Lemma copyStderr_never (reader : option RawStream) (cmd : RemoteCmd) :
  resolutions (copyStderr reader cmd) = 0.
Proof.
  unfold resolutions, copyStderr.
  destruct reader as [stream|]; [|reflexivity].
  rewrite statuses_app.
  assert (H : statuses (if hasStderr cmd
                        then map WriteStderr (chunks stream) else []) = []).
  { destruct (hasStderr cmd); [|reflexivity].
    induction (chunks stream) as [|c l IH]; [reflexivity | exact IH]. }
  rewrite H. destruct (readErr stream); now rewrite ?statuses_warn.
Qed.

End DecoderFacts.

(** C2: on the three lines of the test (a stdout message carrying
    base64("hello\r\n"), a stderr message carrying base64("there\r\n") and
    the exit message with code 7), given as tokens or scanned from the
    joined text, the decoder leaves exactly "hello\r\n" in the stdout sink,
    exactly "there\r\n" in the stderr sink, and resolves the exit status
    once, with 7. *)
Theorem decoder_three_lines :
  let scanned := Bufio.scanString maxTokenSize successLines in
  let sinks :=
    performAll emptySinks (consumeMessages (Some scanned) testCommand) in
  scanned
  = {| Bufio.tokens := [stdoutLine; stderrLine; exitLine];
       Bufio.scanErr := None |}
  /\ stdoutLine = dq "{'stream':'stdout','data':'aGVsbG8NCg=='}"
  /\ stderrLine = dq "{'stream':'stderr','data':'dGhlcmUNCg=='}"
  /\ consumeMessages (Some scanned) testCommand
     = [WriteStdout (bytesOf ("hello" ++ crlf));
        WriteStderr (bytesOf ("there" ++ crlf));
        SetExited 7]
  /\ stdoutSink sinks = bytesOf ("hello" ++ crlf)
  /\ stderrSink sinks = bytesOf ("there" ++ crlf)
  /\ exited sinks = [7%Z].
Proof. vm_compute. repeat split. Qed.

(** C3: when the structured stdout stream ends without an exit envelope
    (whatever its tokens are otherwise: blank, malformed, stdout or stderr
    messages, and with or without a read error at its end), and also when
    there is no stream at all, the exit status is resolved once, with
    [commandFailureStatus], which is 1. *)
Theorem stream_without_exit_fails (cmd : RemoteCmd)
  (scanner : Bufio.Scanned) :
  Forall (fun t => exitEnvelope t = None) (Bufio.tokens scanner) ->
  statuses (consumeMessages (Some scanner) cmd) = [commandFailureStatus]
  /\ statuses (consumeMessages None cmd) = [commandFailureStatus]
  /\ commandFailureStatus = 1%Z
  /\ forall s : Sinks,
       exited (performAll s (consumeMessages (Some scanner) cmd))
       = exited s ++ [1%Z].
Proof.
  intros Hno.
  assert (H : statuses (consumeMessages (Some scanner) cmd)
              = [commandFailureStatus]).
  { unfold consumeMessages. cbv zeta.
    destruct (DecoderFacts.consumeLoop_no_exit cmd _ Hno) as [effects [E S]].
    rewrite E, !DecoderFacts.statuses_app, S. cbn [negb].
    destruct (Bufio.scanErr scanner);
      now rewrite ?DecoderFacts.statuses_warn. }
  repeat split; try assumption.
  intros s. now rewrite DecoderFacts.exited_performAll, H.
Qed.

Lemma stream_without_exit_fails_witness :
  statuses
    (consumeMessages
       (Some {| Bufio.tokens := ["   "; "not json"; stdoutLine; stderrLine];
                Bufio.scanErr := Some ErrTooLong |})
       testCommand)
  = [1%Z].
Proof.
  refine (proj1 (stream_without_exit_fails testCommand
            {| Bufio.tokens := ["   "; "not json"; stdoutLine; stderrLine];
               Bufio.scanErr := Some ErrTooLong |} _)).
  repeat constructor.
Defined.

(** C4: at the first exit envelope the pump resolves the exit status with
    the [code] of that envelope and returns.  Its effects are those of the
    tokens before the envelope, none of which resolves the exit status,
    followed by the one [SetExited]: the tokens after the envelope, and the
    read error of the stream if any, leave no trace in any sink. *)
Theorem exit_envelope_stops_pump (cmd : RemoteCmd)
  (before after : list string) (text : string) (code : Z)
  (err : option Err) :
  Forall (fun t => exitEnvelope t = None) before ->
  exitEnvelope text = Some code ->
  consumeMessages
    (Some {| Bufio.tokens := before ++ text :: after; Bufio.scanErr := err |})
    cmd
  = fst (consumeLoop cmd before) ++ [SetExited code]
  /\ statuses (fst (consumeLoop cmd before)) = []
  /\ statuses
       (consumeMessages
          (Some {| Bufio.tokens := before ++ text :: after;
                   Bufio.scanErr := err |})
          cmd)
     = [code].
Proof.
  intros Hbefore Htext.
  assert (E : consumeMessages
                (Some {| Bufio.tokens := before ++ text :: after;
                         Bufio.scanErr := err |}) cmd
              = fst (consumeLoop cmd before) ++ [SetExited code]).
  { unfold consumeMessages. cbv zeta. cbn [Bufio.tokens].
    now rewrite (DecoderFacts.consumeLoop_exit cmd before after text code). }
  destruct (DecoderFacts.consumeLoop_no_exit cmd before Hbefore)
    as [effects [L S]].
  rewrite E, L. cbn [fst].
  repeat split; [exact S|].
  now rewrite DecoderFacts.statuses_app, S.
Qed.

Lemma exit_envelope_stops_pump_witness :
  consumeMessages
    (Some {| Bufio.tokens := [stdoutLine] ++ exitLine :: [stderrLine; exitLine];
             Bufio.scanErr := Some ErrTooLong |})
    testCommand
  = fst (consumeLoop testCommand [stdoutLine]) ++ [SetExited 7].
Proof.
  refine (proj1 (exit_envelope_stops_pump testCommand [stdoutLine]
                   [stderrLine; exitLine] exitLine 7 (Some ErrTooLong) _ _)).
  - repeat constructor.
  - reflexivity.
Defined.

(** ** Start *)

Module StartFacts.

Lemma WhiteSpace_trimLeft (s : string) : WhiteSpace s -> trimLeft s = "".
Proof.
  induction 1 as [|a s Ha _ IH|a b s Hab _ IH|a b c s Habc _ IH].
  - reflexivity.
  - cbn [trimLeft]. now rewrite Ha.
  - assert (Ca : code a = 194%N).
    { unfold space2 in Hab. cbv zeta in Hab.
      apply andb_true_iff in Hab as [Hab _]. now apply N.eqb_eq in Hab. }
    cbn [trimLeft].
    replace (asciiSpace a) with false
      by (unfold asciiSpace; now rewrite Ca).
    now rewrite Hab.
  - assert (Ca : code a = 225%N \/ code a = 226%N \/ code a = 227%N).
    { unfold space3 in Habc. cbv zeta in Habc.
      repeat rewrite orb_true_iff in Habc.
      repeat rewrite andb_true_iff in Habc.
      repeat rewrite N.eqb_eq in Habc. intuition. }
    cbn [trimLeft].
    replace (asciiSpace a) with false
      by (unfold asciiSpace; destruct Ca as [Ca|[Ca|Ca]]; rewrite Ca; reflexivity).
    replace (space2 a b) with false
      by (unfold space2; destruct Ca as [Ca|[Ca|Ca]]; rewrite Ca; reflexivity).
    now rewrite Habc.
Qed.

(** A text of white-space runes only is blank for [TrimSpace]. *)
Lemma WhiteSpace_blank (s : string) :
  WhiteSpace s -> isEmpty (TrimSpace s) = true.
Proof.
  intros H. unfold TrimSpace. now rewrite (WhiteSpace_trimLeft s H).
Qed.

Lemma commandEffects_app (a b : list Action) :
  commandEffects (a ++ b) = commandEffects a ++ commandEffects b.
Proof.
  induction a as [|x a IH]; [reflexivity|].
  destruct x; cbn; now rewrite ?IH.
Qed.

Lemma commandEffects_OnCommand (l : list Effect) :
  commandEffects (map OnCommand l) = l.
Proof. induction l as [|e l IH]; cbn; [reflexivity | now rewrite IH]. Qed.

Lemma resolutions_step (x : Action) (t : list Action) :
  resolutions (commandEffects (x :: t))
  = stepResolutions x + resolutions (commandEffects t).
Proof.
  change (x :: t) with ([x] ++ t).
  now rewrite commandEffects_app, DecoderFacts.resolutions_app.
Qed.

Lemma threadResolutions_app (a b : list (list Action)) :
  threadResolutions (a ++ b) = threadResolutions a + threadResolutions b.
Proof. unfold threadResolutions. now rewrite map_app, list_sum_app. Qed.

Lemma threadResolutions_cons (t : list Action) (ts : list (list Action)) :
  threadResolutions (t :: ts)
  = resolutions (commandEffects t) + threadResolutions ts.
Proof. reflexivity. Qed.

(** A schedule resolves the exit status as many times as its threads do
    together. *)
Lemma interleaving_resolutions (threads : list (list Action))
  (trace : list Action) :
  Interleaving threads trace ->
  resolutions (commandEffects trace) = threadResolutions threads.
Proof.
  induction 1 as [threads Hall|before after x t trace _ IH].
  - induction Hall as [|t threads Ht _ IH]; [reflexivity|].
    subst t. unfold threadResolutions in *. cbn. exact IH.
  - rewrite resolutions_step, IH, !threadResolutions_app.
    rewrite !threadResolutions_cons, resolutions_step. lia.
Qed.

Lemma interleaving_idle (threads : list (list Action)) (trace : list Action) :
  Interleaving threads trace -> Interleaving ([] :: threads) trace.
Proof.
  induction 1 as [threads Hall|before after x t trace _ IH].
  - apply interleaving_done. now constructor.
  - exact (interleaving_step ([] :: before) after x t trace IH).
Qed.

(** The threads run one after the other form a schedule: every launch has
    a run. *)
Lemma interleaving_sequential (threads : list (list Action)) :
  Interleaving threads (List.concat threads).
Proof.
  induction threads as [|t threads IH].
  - apply interleaving_done. constructor.
  - cbn [List.concat]. induction t as [|x t IHt].
    + now apply interleaving_idle.
    + exact (interleaving_step [] threads x t _ IHt).
Qed.

Lemma interleaving_nil (trace : list Action) :
  Interleaving (@nil (list Action)) trace -> trace = [].
Proof.
  inversion 1 as [|before after x t tr _ Heq]; [reflexivity|].
  now destruct before.
Qed.

(** How [Start] returns nil: on a blank command, or after a successful
    [Stream] call with the context not done. *)
Lemma Start_ok (c : Communicator) (ctx : Context) (cmd : RemoteCmd)
  (log log' : list HostEvent) (launch : Launch) :
  Start c ctx (Some cmd) log = (Ok launch, log') ->
  (isEmpty (TrimSpace (Command cmd)) = true
   /\ launch = {| immediate := [SetExited 0]; spawned := [] |}
   /\ log' = log)
  \/ (isEmpty (TrimSpace (Command cmd)) = false
      /\ ctxErr ctx = None
      /\ exists process : streamProcess,
           launch = {| immediate := [];
                       spawned := [CompletionWatcher process;
                                   CancellationWatcher process;
                                   StdoutPump (Stdout process);
                                   StderrPump (Stderr process)] |}).
Proof.
  unfold Start.
  destruct (isEmpty (TrimSpace (Command cmd))).
  - intros H. inversion H. now left.
  - destruct (ctxErr ctx) as [err|]; [discriminate|].
    unfold bind, call, ret.
    destruct (Runner.Stream (runner c) executeCommandScript _) as [process|e];
      [|discriminate].
    intros H. inversion H. right. repeat split. now exists process.
Qed.

(** How [Start] returns an error: a nil command, a context already done,
    or a failed [Stream] call.  Nothing is launched and the command is
    left as it is: [SetExited] is not called. *)
Lemma Start_failed (c : Communicator) (ctx : Context)
  (cmd : option RemoteCmd) (log log' : list HostEvent) (e : Err) :
  Start c ctx cmd log = (Failed e, log') ->
  (cmd = None /\ e = ErrNilCommand /\ log' = log)
  \/ (ctxErr ctx = Some e /\ log' = log)
  \/ (exists (text : string) (params : list string),
        Runner.Stream (runner c) executeCommandScript params = Failed e
        /\ log' = log ++ [StreamCall executeCommandScript params]).
Proof.
  unfold Start. destruct cmd as [cmd|].
  - destruct (isEmpty (TrimSpace (Command cmd))); [discriminate|].
    destruct (ctxErr ctx) as [err|].
    + intros H. inversion H. right. left. now split.
    + unfold bind, call, ret.
      destruct (Runner.Stream (runner c) executeCommandScript _) as [p|e']
        eqn:E; [discriminate|].
      intros H. inversion H. subst. right. right.
      exists (Command cmd). eexists. split; [exact E | reflexivity].
  - intros H. inversion H. now left.
Qed.

End StartFacts.

(** C1: for every command [Start] accepts (it returns nil), whatever
    the context, the runner, the streams of the process, the case the
    cancellation watcher takes and the schedule of the goroutines: a run
    exists, every run resolves the exit status exactly once, and no prefix
    of a run resolves it twice.  This covers the blank command, the exit
    envelope, the stream that ends without one and the cancellation after
    dispatch (the watcher kills the process and the stream ends). *)
Theorem exit_status_resolved_exactly_once (c : Communicator) (ctx : Context)
  (cmd : RemoteCmd) (log log' : list HostEvent) (launch : Launch)
  (cancelFirst : bool) :
  Start c ctx (Some cmd) log = (Ok launch, log') ->
  (exists trace : list Action, Execution cmd cancelFirst launch trace)
  /\ forall trace : list Action,
       Execution cmd cancelFirst launch trace ->
       resolutions (commandEffects trace) = 1
       /\ forall before after : list Action,
            trace = before ++ after ->
            resolutions (commandEffects before) <= 1.
Proof.
  intros HS. split.
  { eexists. eexists. split; [apply StartFacts.interleaving_sequential|].
    reflexivity. }
  intros trace [schedule [HI ->]].
  assert (Once : resolutions
                   (commandEffects (map OnCommand (immediate launch)
                                    ++ schedule)) = 1).
  { rewrite StartFacts.commandEffects_app, DecoderFacts.resolutions_app.
    rewrite StartFacts.commandEffects_OnCommand.
    rewrite (StartFacts.interleaving_resolutions _ _ HI).
    destruct (StartFacts.Start_ok c ctx cmd log log' launch HS)
      as [[_ [L _]]|[_ [_ [process L]]]]; rewrite L.
    - reflexivity.
    - cbn [immediate spawned map]. unfold threadResolutions.
      cbn [map list_sum taskActions].
      rewrite !StartFacts.commandEffects_OnCommand.
      rewrite DecoderFacts.consumeMessages_once, DecoderFacts.copyStderr_never.
      replace (resolutions (commandEffects (if cancelFirst
                                            then [ProcessKill] else [])))
        with 0 by now destruct cancelFirst.
      replace (resolutions (commandEffects _)) with 0;
        [reflexivity|].
      now destruct (Stdout process), (Stderr process). }
  split; [exact Once|].
  intros before after E. rewrite E in Once.
  rewrite StartFacts.commandEffects_app, DecoderFacts.resolutions_app in Once.
  lia.
Qed.

Lemma exit_status_resolved_exactly_once_witness :
  exists trace : list Action,
    Execution testCommand true
      {| immediate := [];
         spawned :=
           let process :=
             {| Stdout := Some (Bufio.scanString maxTokenSize successLines);
                Stderr := Some {| chunks := []; readErr := None |} |} in
           [CompletionWatcher process; CancellationWatcher process;
            StdoutPump (Stdout process); StderrPump (Stderr process)] |}
      trace
    /\ resolutions (commandEffects trace) = 1.
Proof.
  pose (process :=
          {| Stdout := Some (Bufio.scanString maxTokenSize successLines);
             Stderr := Some {| chunks := []; readErr := None |} |}).
  pose proof (exit_status_resolved_exactly_once
                (newTestCommunicator (stubRunner process)) CtxActive
                testCommand [] _ _ true eq_refl) as [[trace HE] HA].
  exists trace. split; [exact HE|]. exact (proj1 (HA trace HE)).
Defined.

(** C5: when the context is already done as [Start] is called with a
    command that is not nil and not blank, [Start] returns the error of the
    context, which is [context.Canceled] or [context.DeadlineExceeded], and
    the log of host events is left as it was: no call on the runner, no
    [Stream] call among them. *)
Theorem start_cancelled_before_dispatch (c : Communicator) (ctx : Context)
  (cmd : RemoteCmd) (log : list HostEvent) (e : Err) :
  ctxErr ctx = Some e ->
  isEmpty (TrimSpace (Command cmd)) = false ->
  Start c ctx (Some cmd) log = (Failed e, log)
  /\ (e = ErrCanceled \/ e = ErrDeadlineExceeded)
  /\ runnerCalls (snd (Start c ctx (Some cmd) [])) = [].
Proof.
  intros Hctx Hcmd. unfold Start. rewrite Hcmd, Hctx.
  repeat split.
  destruct ctx; inversion Hctx; auto.
Qed.

Lemma start_cancelled_before_dispatch_witness :
  Start (newTestCommunicator
           (stubRunner {| Stdout := None; Stderr := None |}))
        CtxCanceled
        (Some {| Command := "noop"; hasStdout := false; hasStderr := false |})
        []
  = (Failed ErrCanceled, []).
Proof.
  refine (proj1 (start_cancelled_before_dispatch _ CtxCanceled
                   {| Command := "noop"; hasStdout := false;
                      hasStderr := false |} [] ErrCanceled _ _));
    reflexivity.
Defined.

(** C6: for every command whose text is blank (empty, or white-space runes
    only), whatever the context, [Start] returns nil, has resolved the exit
    status with 0 when it returns, launches nothing and leaves the log of
    host events as it was: no call on the runner.  The only run of such a
    command is that one resolution. *)
Theorem start_blank_command (c : Communicator) (ctx : Context)
  (cmd : RemoteCmd) (log : list HostEvent) :
  WhiteSpace (Command cmd) ->
  Start c ctx (Some cmd) log
  = (Ok {| immediate := [SetExited 0]; spawned := [] |}, log)
  /\ runnerCalls (snd (Start c ctx (Some cmd) [])) = []
  /\ forall (cancelFirst : bool) (trace : list Action),
       Execution cmd cancelFirst
         {| immediate := [SetExited 0]; spawned := [] |} trace ->
       trace = [OnCommand (SetExited 0)].
Proof.
  intros Hws.
  assert (E : forall l : list HostEvent,
             Start c ctx (Some cmd) l
             = (Ok {| immediate := [SetExited 0]; spawned := [] |}, l)).
  { intros l. unfold Start. now rewrite (StartFacts.WhiteSpace_blank _ Hws). }
  split; [apply E|]. split; [now rewrite E|].
  - intros cancelFirst trace [schedule [HI ->]]. cbn in HI.
    now rewrite (StartFacts.interleaving_nil schedule HI).
Qed.

Lemma start_blank_command_witness :
  Start (newTestCommunicator
           (stubRunner {| Stdout := None; Stderr := None |}))
        CtxActive
        (Some {| Command := "   "; hasStdout := false; hasStderr := false |})
        []
  = (Ok {| immediate := [SetExited 0]; spawned := [] |}, []).
Proof.
  refine (proj1 (start_blank_command _ CtxActive
                   {| Command := "   "; hasStdout := false;
                      hasStderr := false |} [] _)).
  repeat (apply ws_ascii; [reflexivity|]). apply ws_empty.
Defined.

(** ** Directory transfers *)

(** C7: with an exclude list that is not empty, [UploadDir] and
    [DownloadDir] both return [errUnsupportedExclude] and leave the log of
    host events as it was: no call on the runner, no path resolved, no
    directory created. *)
Theorem exclude_filters_rejected (c : Communicator)
  (uploadDst uploadSrc downloadSrc downloadDst : string)
  (exclude : list string) (log : list HostEvent) :
  exclude <> [] ->
  UploadDir c uploadDst uploadSrc exclude log
  = (Failed ErrUnsupportedExclude, log)
  /\ DownloadDir c downloadSrc downloadDst exclude log
     = (Failed ErrUnsupportedExclude, log)
  /\ runnerCalls (snd (UploadDir c uploadDst uploadSrc exclude [])) = []
  /\ runnerCalls (snd (DownloadDir c downloadSrc downloadDst exclude [])) = [].
Proof.
  intros H. destruct exclude as [|x exclude]; [contradiction|].
  repeat split.
Qed.

Lemma exclude_filters_rejected_witness :
  UploadDir (newTestCommunicator
               (stubRunner {| Stdout := None; Stderr := None |}))
            "/remote" "/local" ["*.tmp"] []
  = (Failed ErrUnsupportedExclude, [])
  /\ DownloadDir (newTestCommunicator
                    (stubRunner {| Stdout := None; Stderr := None |}))
                 "/remote" "/tmp/dir" ["*.tmp"] []
     = (Failed ErrUnsupportedExclude, []).
Proof.
  pose proof (exclude_filters_rejected
                (newTestCommunicator
                   (stubRunner {| Stdout := None; Stderr := None |}))
                "/remote" "/local" "/remote" "/tmp/dir" ["*.tmp"] []) as H.
  assert (N : ["*.tmp"] <> (@nil string)) by discriminate.
  destruct (H N) as [H1 [H2 _]]. split; [exact H1 | exact H2].
Defined.

(** ** The stream process *)

Module ExecFacts.

Import Exec.

Lemma close_once (p : execStreamProcess) :
  once p = true -> close p = (p, []).
Proof. intros H. unfold close. now rewrite H. Qed.

Lemma invoke_after_once (call : Call) (p : execStreamProcess) :
  once p = true ->
  eventsOf (invoke call p) = [] /\ once (stateOf (invoke call p)) = true.
Proof.
  intros H. destruct call; cbn [invoke].
  - unfold Wait, cmdWait.
    destruct (negb (Process (cmd p))); [|destruct (ProcessState (cmd p))];
      unfold close; cbn [once]; rewrite H; now split.
  - unfold Kill. destruct (negb (Process (cmd p))); [now split|].
    rewrite (close_once p H). now split.
Qed.

(** Once [sync.Once] has run, no call runs the cleanup again. *)
Lemma invokeAll_after_once (calls : list Call) :
  forall p : execStreamProcess,
    once p = true ->
    eventsOf (invokeAll calls p) = []
    /\ once (stateOf (invokeAll calls p)) = true.
Proof.
  induction calls as [|call rest IH]; intros p H; [now split|].
  cbn [invokeAll].
  destruct (invoke_after_once call p H) as [E1 O1].
  destruct (invoke call p) as [[err p1] events1].
  unfold eventsOf, stateOf in E1, O1. cbn [fst snd] in E1, O1.
  destruct (IH p1 O1) as [E2 O2].
  destruct (invokeAll rest p1) as [[errs p2] events2].
  unfold eventsOf, stateOf in *. cbn [fst snd] in *.
  subst. now split.
Qed.

(** The first call on a started process runs the cleanup. *)
Lemma invoke_first (call : Call) (exitErr signalErr : option Err)
  (cl : Cleanup) :
  eventsOf (invoke call (started exitErr signalErr cl)) = runCleanup cl
  /\ once (stateOf (invoke call (started exitErr signalErr cl))) = true.
Proof. destruct call; now split. Qed.

End ExecFacts.

(** C10, amended: on the process [Stream] returns, [Kill] after [Wait]
    returns [os.ErrProcessDone] for the process already waited for and
    changes nothing; it is a plain function and cannot block.  [Kill] is
    idempotent on the state: a second [Kill] leaves the process as the
    first left it and runs no cleanup.  And after any sequence of [Wait]
    and [Kill] calls that is not empty, in any order, the cleanup closure
    has run exactly once; it removes the staged script, unless the debug
    variable is set. *)
Theorem stream_process_cleanup_once (exitErr signalErr : option Err)
  (cl : Exec.Cleanup) (calls : list Exec.Call) :
  calls <> [] ->
  let p0 := Exec.started exitErr signalErr cl in
  let events := Exec.eventsOf (Exec.invokeAll calls p0) in
  Exec.cleanupCalls events = 1
  /\ Exec.removals events
     = (if Exec.debug cl then [] else [Exec.newFilename cl])
  /\ Exec.once (Exec.stateOf (Exec.invokeAll calls p0)) = true
  /\ (let waited := Exec.stateOf (Exec.Wait p0) in
      Exec.Kill waited = (Some ErrProcessDone, waited, []))
  /\ forall p : Exec.execStreamProcess,
       let killed := Exec.stateOf (Exec.Kill p) in
       Exec.stateOf (Exec.Kill killed) = killed
       /\ Exec.eventsOf (Exec.Kill killed) = [].
Proof.
  intros Hcalls p0 events.
  destruct calls as [|call rest]; [contradiction|].
  assert (E : events = Exec.runCleanup cl
              /\ Exec.once (Exec.stateOf
                              (Exec.invokeAll (call :: rest) p0)) = true).
  { subst events p0. cbn [Exec.invokeAll].
    destruct (ExecFacts.invoke_first call exitErr signalErr cl) as [E1 O1].
    destruct (Exec.invoke call (Exec.started exitErr signalErr cl))
      as [[err p1] events1].
    unfold Exec.eventsOf, Exec.stateOf in E1, O1. cbn [fst snd] in E1, O1.
    destruct (ExecFacts.invokeAll_after_once rest p1 O1) as [E2 O2].
    destruct (Exec.invokeAll rest p1) as [[errs p2] events2].
    unfold Exec.eventsOf, Exec.stateOf in *. cbn [fst snd] in *.
    subst. now rewrite app_nil_r. }
  destruct E as [E O]. rewrite E.
  split; [unfold Exec.runCleanup; now destruct (Exec.debug cl)|].
  split; [unfold Exec.runCleanup; now destruct (Exec.debug cl)|].
  split; [exact O|].
  split; [reflexivity|].
  intros p killed. subst killed. unfold Exec.Kill.
  destruct (negb (Exec.Process (Exec.cmd p))) eqn:EP.
  - unfold Exec.stateOf, Exec.eventsOf. cbn [fst snd]. rewrite EP.
    now split.
  - unfold Exec.close. destruct (Exec.once p) eqn:EO.
    + unfold Exec.stateOf, Exec.eventsOf. cbn [fst snd].
      rewrite EP, EO. now split.
    + unfold Exec.stateOf, Exec.eventsOf.
      cbn [fst snd Exec.cmd Exec.once Exec.cleanup]. rewrite EP.
      now split.
Qed.

Lemma stream_process_cleanup_once_witness :
  let cl := {| Exec.debug := false; Exec.newFilename := "script.ps1" |} in
  let calls := [Exec.CallWait; Exec.CallKill; Exec.CallKill; Exec.CallWait] in
  Exec.removals
    (Exec.eventsOf (Exec.invokeAll calls (Exec.started None None cl)))
  = ["script.ps1"].
Proof.
  intros cl calls.
  refine (proj1 (proj2 (stream_process_cleanup_once None None cl calls _))).
  discriminate.
Defined.

(** C10 as stated fails where it says that [Kill] after [Wait] does not
    error: on a started process whose [Wait] has returned nil, [Kill]
    returns [os.ErrProcessDone]. *)
Lemma kill_after_wait_reports_error :
  let p0 :=
    Exec.started None None
      {| Exec.debug := false; Exec.newFilename := "script.ps1" |} in
  Exec.errorOf (Exec.Wait p0) = None
  /\ Exec.errorOf (Exec.Kill (Exec.stateOf (Exec.Wait p0)))
     = Some ErrProcessDone.
Proof. split; reflexivity. Qed.

(** ** The include-root flag *)

(** C8: [includeSourceRoot] is false for the empty path, false for every
    path that ends in a forward slash or in a backslash, and true for every
    non-empty path whose last character is neither; in particular on the
    four paths of the specification. *)
Theorem includeSourceRoot_spec :
  includeSourceRoot "" = false
  /\ (forall p : string, includeSourceRoot (p ++ "/") = false)
  /\ (forall p : string, includeSourceRoot (p ++ "\") = false)
  /\ (forall (p : string) (c : ascii),
        c <> "/"%char -> c <> "\"%char ->
        includeSourceRoot (p ++ String c "") = true)
  /\ includeSourceRoot "C:/dir" = true
  /\ includeSourceRoot "C:/dir/" = false
  /\ includeSourceRoot "/tmp/dir/" = false.
Proof.
  repeat split; try reflexivity.
  - intros p. unfold includeSourceRoot, slash.
    rewrite GoStringsFacts.HasSuffix_append.
    now destruct (isEmpty (p ++ "/")).
  - intros p. unfold includeSourceRoot, backslash.
    rewrite GoStringsFacts.HasSuffix_append, orb_true_r.
    now destruct (isEmpty (p ++ "\")).
  - intros p c Hs Hb. unfold includeSourceRoot, slash, backslash.
    rewrite !GoStringsFacts.HasSuffix_last.
    apply Ascii.eqb_neq in Hs, Hb. rewrite Hs, Hb.
    now destruct p.
Qed.

Lemma includeSourceRoot_spec_witness :
  "r"%char <> "/"%char /\ "r"%char <> "\"%char
  /\ includeSourceRoot ("C:/di" ++ String "r" "") = true.
Proof.
  assert (H1 : "r"%char <> "/"%char) by discriminate.
  assert (H2 : "r"%char <> "\"%char) by discriminate.
  split; [exact H1 | split; [exact H2 | ]].
  exact (proj1 (proj2 (proj2 (proj2 includeSourceRoot_spec))) "C:/di"%string "r"%char H1 H2).
Defined.

(** ** The base64 payloads *)

(** C9, amended: [decodeBase64] of the empty string, and of every blank
    string, succeeds with the empty payload; [decodeBase64] of the
    standard encoding of any bytes gives the bytes back; and on a string
    that is not blank [decodeBase64] fails whenever
    [StdEncoding.DecodeString] rejects the string, with the same error. *)
Theorem decodeBase64_spec :
  decodeBase64 "" = Ok []
  /\ (forall bs : list byte, decodeBase64 (Base64.EncodeToString bs) = Ok bs)
  /\ (forall (s : string) (e : Err),
        isEmpty (TrimSpace s) = false ->
        Base64.DecodeString s = Failed e -> decodeBase64 s = Failed e)
  /\ (forall s : string, isEmpty (TrimSpace s) = true -> decodeBase64 s = Ok [])
  /\ decodeBase64 "aGVsbG8=" = Ok (bytesOf "hello")
  /\ decodeBase64 "not-base64" = Failed (ErrCorruptInput 3).
Proof.
  split; [reflexivity|].
  split; [exact Base64Facts.decodeBase64_EncodeToString|].
  split.
  { intros s e Hs He. now rewrite Base64Facts.decodeBase64_nonblank. }
  split.
  { intros s Hs. unfold decodeBase64. now rewrite Hs. }
  split; reflexivity.
Qed.

Lemma decodeBase64_spec_witness :
  isEmpty (TrimSpace "a*") = false
  /\ Base64.DecodeString "a*" = Failed (ErrCorruptInput 1)
  /\ decodeBase64 "a*" = Failed (ErrCorruptInput 1)
  /\ isEmpty (TrimSpace "  ") = true
  /\ decodeBase64 "  " = Ok [].
Proof.
  assert (H1 : isEmpty (TrimSpace "a*") = false) by reflexivity.
  assert (H2 : Base64.DecodeString "a*" = Failed (ErrCorruptInput 1))
    by reflexivity.
  assert (H3 : isEmpty (TrimSpace "  ") = true) by reflexivity.
  split; [exact H1|]. split; [exact H2|].
  split.
  - exact (proj1 (proj2 (proj2 decodeBase64_spec)) "a*" _ H1 H2).
  - split; [exact H3|].
    exact (proj1 (proj2 (proj2 (proj2 decodeBase64_spec))) "  " H3).
Defined.

(** C9 as stated fails on a blank string: a single space is not valid
    base64 ([StdEncoding.DecodeString] rejects it at offset 0), and
    [decodeBase64] returns the empty payload and no error for it. *)
Lemma decodeBase64_blank_not_rejected :
  Base64.DecodeString " " = Failed (ErrCorruptInput 0)
  /\ decodeBase64 " " = Ok [].
Proof. split; reflexivity. Qed.

(* ------------------------------------------------------------------ *)
(** ** More on [TrimSpace] *)

Module TrimFacts.

Lemma by_length (P : string -> Prop) :
  (forall s, (forall t, String.length t < String.length s -> P t) -> P s) ->
  forall s, P s.
Proof.
  intros H s.
  assert (G : forall n t, String.length t < n -> P t).
  { induction n as [|n IH]; intros t Ht; [lia|].
    apply H. intros u Hu. apply IH. lia. }
  apply (G (S (String.length s))). lia.
Qed.

Lemma trimLeft_length (s : string) :
  String.length (trimLeft s) <= String.length s.
Proof.
  induction s as [s IH] using by_length.
  destruct s as [|a r1]; [cbn; lia|]. cbn [trimLeft].
  destruct (asciiSpace a).
  { specialize (IH r1). cbn in *. lia. }
  destruct r1 as [|b r2]; [lia|].
  destruct (space2 a b).
  { specialize (IH r2). cbn in *. lia. }
  destruct r2 as [|c r3]; [lia|].
  destruct (space3 a b c); [|lia].
  specialize (IH r3). cbn in *. lia.
Qed.

Lemma trimLeftRev_length (s : string) :
  String.length (trimLeftRev s) <= String.length s.
Proof.
  induction s as [s IH] using by_length.
  destruct s as [|a r1]; [cbn; lia|]. cbn [trimLeftRev].
  destruct (asciiSpace a).
  { specialize (IH r1). cbn in *. lia. }
  destruct r1 as [|b r2]; [lia|].
  destruct (space2 b a).
  { specialize (IH r2). cbn in *. lia. }
  destruct r2 as [|c r3]; [lia|].
  destruct (space3 c b a); [|lia].
  specialize (IH r3). cbn in *. lia.
Qed.

Lemma cleanHead_fixed (s : string) : cleanHead s = true -> trimLeft s = s.
Proof.
  destruct s as [|a [|b [|c r3]]]; cbn [cleanHead trimLeft]; intros H;
    repeat (apply andb_true_iff in H as [? H]);
    repeat match goal with
      | E : negb ?x = true |- _ => apply negb_true_iff in E; rewrite E
      end;
    try reflexivity;
    try (apply negb_true_iff in H; now rewrite H).
Qed.

Lemma cleanHeadRev_fixed (s : string) :
  cleanHeadRev s = true -> trimLeftRev s = s.
Proof.
  destruct s as [|a [|b [|c r3]]]; cbn [cleanHeadRev trimLeftRev]; intros H;
    repeat (apply andb_true_iff in H as [? H]);
    repeat match goal with
      | E : negb ?x = true |- _ => apply negb_true_iff in E; rewrite E
      end;
    try reflexivity;
    try (apply negb_true_iff in H; now rewrite H).
Qed.

Lemma trimLeft_clean (s : string) : cleanHead (trimLeft s) = true.
Proof.
  induction s as [s IH] using by_length.
  destruct s as [|a r1]; [reflexivity|]. cbn [trimLeft].
  destruct (asciiSpace a) eqn:Ea; [apply IH; cbn; lia|].
  destruct r1 as [|b r2]; [cbn; now rewrite Ea|].
  destruct (space2 a b) eqn:Eab; [apply IH; cbn; lia|].
  destruct r2 as [|c r3]; [cbn; now rewrite Ea, Eab|].
  destruct (space3 a b c) eqn:Eabc; [apply IH; cbn; lia|].
  cbn. now rewrite Ea, Eab, Eabc.
Qed.

Lemma trimLeftRev_clean (s : string) : cleanHeadRev (trimLeftRev s) = true.
Proof.
  induction s as [s IH] using by_length.
  destruct s as [|a r1]; [reflexivity|]. cbn [trimLeftRev].
  destruct (asciiSpace a) eqn:Ea; [apply IH; cbn; lia|].
  destruct r1 as [|b r2]; [cbn; now rewrite Ea|].
  destruct (space2 b a) eqn:Eab; [apply IH; cbn; lia|].
  destruct r2 as [|c r3]; [cbn; now rewrite Ea, Eab|].
  destruct (space3 c b a) eqn:Eabc; [apply IH; cbn; lia|].
  cbn. now rewrite Ea, Eab, Eabc.
Qed.

(** [trimLeftRev] drops a prefix. *)
Lemma trimLeftRev_suffix (s : string) :
  exists p : string, s = (p ++ trimLeftRev s)%string.
Proof.
  induction s as [s IH] using by_length.
  destruct s as [|a r1]; [now exists ""|]. cbn [trimLeftRev].
  destruct (asciiSpace a).
  { destruct (IH r1) as [p Hp]; [cbn; lia|].
    exists (String a p). cbn. now rewrite <- Hp. }
  destruct r1 as [|b r2]; [now exists ""|].
  destruct (space2 b a).
  { destruct (IH r2) as [p Hp]; [cbn; lia|].
    exists (String a (String b p)). cbn. now rewrite <- Hp. }
  destruct r2 as [|c r3]; [now exists ""|].
  destruct (space3 c b a); [|now exists ""].
  destruct (IH r3) as [p Hp]; [cbn; lia|].
  exists (String a (String b (String c p))). cbn. now rewrite <- Hp.
Qed.

(** A prefix of a text with a clean head has a clean head. *)
Lemma cleanHead_prefix (u v : string) :
  cleanHead (u ++ v) = true -> cleanHead u = true.
Proof.
  destruct u as [|a [|b [|c r3]]]; cbn [cleanHead append]; intros H;
    try reflexivity; try exact H.
  - apply andb_true_iff in H as [H _]. now rewrite H.
  - apply andb_true_iff in H as [H1 H]. rewrite H1.
    destruct v; [exact H|]. apply andb_true_iff in H as [H _]. now rewrite H.
Qed.

Lemma string_of_list_ascii_app (a b : list ascii) :
  string_of_list_ascii (a ++ b)
  = (string_of_list_ascii a ++ string_of_list_ascii b)%string.
Proof. induction a as [|x a IH]; cbn; [reflexivity | now rewrite IH]. Qed.

Lemma list_ascii_of_string_app (a b : string) :
  list_ascii_of_string (a ++ b)
  = list_ascii_of_string a ++ list_ascii_of_string b.
Proof. induction a as [|x a IH]; cbn; [reflexivity | now rewrite IH]. Qed.

Lemma rev_rev (s : string) : rev (rev s) = s.
Proof.
  unfold rev. rewrite list_ascii_of_string_of_list_ascii, rev_involutive.
  apply string_of_list_ascii_of_string.
Qed.

Lemma rev_append (a b : string) : rev (a ++ b) = (rev b ++ rev a)%string.
Proof.
  unfold rev. rewrite list_ascii_of_string_app, rev_app_distr.
  apply string_of_list_ascii_app.
Qed.

(** [TrimSpace] is idempotent: a trimmed text is trimmed. *)
Lemma TrimSpace_idempotent (s : string) :
  TrimSpace (TrimSpace s) = TrimSpace s.
Proof.
  unfold TrimSpace, trimRight.
  set (t := trimLeft s). set (w := trimLeftRev (rev t)).
  assert (Hw : trimLeftRev w = w)
    by (apply cleanHeadRev_fixed, trimLeftRev_clean).
  assert (Hu : trimLeft (rev w) = rev w).
  { apply cleanHead_fixed.
    destruct (trimLeftRev_suffix (rev t)) as [p Hp]. fold w in Hp.
    apply (cleanHead_prefix (rev w) (rev p)).
    rewrite <- rev_append, <- Hp, rev_rev. apply trimLeft_clean. }
  now rewrite Hu, rev_rev, Hw.
Qed.

Lemma TrimSpace_empty : TrimSpace "" = "".
Proof. reflexivity. Qed.

(** A text that is not blank is not empty. *)
Lemma nonblank_nonempty (s : string) :
  isEmpty (TrimSpace s) = false -> isEmpty s = false.
Proof. destruct s; [discriminate | reflexivity]. Qed.

End TrimFacts.

(* ------------------------------------------------------------------ *)
(** ** The arguments of the PowerShell process *)

Module ArgsFacts.

Lemma copySlice_full (dst src : list string) :
  List.length dst = List.length src -> copySlice dst src = src.
Proof.
  revert dst. induction src as [|x src IH]; intros [|d dst] H;
    try discriminate; [reflexivity|].
  cbn. f_equal. apply IH. now inversion H.
Qed.

Lemma buildPowerShellArgs_eq (filename : string) (params : list string) :
  buildPowerShellArgs filename params
  = ["-ExecutionPolicy"; "Bypass"; "-NoProfile"; "-File"; filename] ++ params.
Proof.
  unfold buildPowerShellArgs, makeStrings.
  rewrite Nat.add_comm. cbn [Nat.add repeat setIndex firstn skipn app].
  f_equal. f_equal. f_equal. f_equal. f_equal.
  apply copySlice_full. apply repeat_length.
Qed.

End ArgsFacts.

(** X1: the argument list of the PowerShell process is the five fixed
    arguments (execution policy, no profile, the script file) followed by
    the parameters, each as it was given and in the order given. *)
Theorem buildPowerShellArgs_spec (filename : string) (params : list string) :
  buildPowerShellArgs filename params
  = ["-ExecutionPolicy"; "Bypass"; "-NoProfile"; "-File"; filename] ++ params.
Proof. exact (ArgsFacts.buildPowerShellArgs_eq filename params). Qed.

(* ------------------------------------------------------------------ *)
(** ** Construction of the communicator *)

Module NewFacts.

Lemma last_default {A : Type} (x : A) (l : list A) (d d' : A) :
  last (x :: l) d = last (x :: l) d'.
Proof.
  revert x. induction l as [|y l IH]; intros x; [reflexivity|].
  change (last (y :: l) d = last (y :: l) d'). apply IH.
Qed.

Lemma options_identity (rs : list Runner.runner) (c : Communicator) :
  let c' := fold_left (fun c opt => opt c) (map WithRunner rs) c in
  vmName c' = vmName c /\ config c' = config c /\ host c' = host c
  /\ runner c' = last rs (runner c).
Proof.
  cbv zeta. revert c.
  induction rs as [|r rs IH]; intros c; [cbn; auto|].
  cbn [map fold_left]. destruct (IH (WithRunner r c)) as [H1 [H2 [H3 H4]]].
  split; [exact H1|]. split; [exact H2|]. split; [exact H3|].
  rewrite H4. cbn [WithRunner runner].
  destruct rs as [|x rs']; [reflexivity|].
  change (last (r :: x :: rs') (runner c)) with (last (x :: rs') (runner c)).
  apply last_default.
Qed.

(** The identity [New] checks: the first of the two VM names that is not
    blank, the user name and the password, each trimmed. *)
Lemma New_cases (platform : Platform) (vm : string) (cfg : Config)
  (opts : list CommOption) :
  let name :=
    if isEmpty (TrimSpace vm) then TrimSpace (VMName cfg) else TrimSpace vm in
  let accepted :=
    String.eqb (GOOS platform) "windows"
    && negb (wslIsWSL (platformHost platform))
    && negb (isEmpty name)
    && negb (isEmpty (TrimSpace (Username cfg)))
    && negb (isEmpty (TrimSpace (Password cfg))) in
  if accepted then
    New platform vm cfg opts
    = (Ok (fold_left (fun c opt => opt c) opts
             {| vmName := name;
                config := mkConfig (VMName cfg) (TrimSpace (Username cfg))
                                   (TrimSpace (Password cfg));
                runner := powershellRunner platform;
                host := platformHost platform |}),
       [TrimSpace (Password cfg)])
  else exists e : Err, New platform vm cfg opts = (Failed e, []).
Proof.
  cbv zeta. unfold New.
  destruct (String.eqb (GOOS platform) "windows"); cbn [negb andb];
    [|eexists; reflexivity].
  destruct (wslIsWSL (platformHost platform)); cbn [negb andb];
    [eexists; reflexivity|].
  cbv zeta.
  destruct (isEmpty (if isEmpty (TrimSpace vm)
                     then TrimSpace (VMName cfg) else TrimSpace vm));
    cbn [negb andb]; [eexists; reflexivity|].
  cbn [Username Password].
  destruct (isEmpty (TrimSpace (Username cfg))); cbn [negb andb];
    [eexists; reflexivity|].
  destruct (isEmpty (TrimSpace (Password cfg))); cbn [negb andb];
    [eexists; reflexivity|].
  reflexivity.
Qed.

End NewFacts.

(** X2: when [New] succeeds with runner options only, the host is
    Windows and not WSL, and the communicator holds a complete identity:
    its VM name is the trimmed [vmName] argument, or the trimmed [VMName]
    of the configuration when the argument is blank, and is not empty; its
    user name and password are the trimmed ones of the configuration and
    are not empty; the [VMName] of the stored configuration is the one
    given; the last runner option, if any, replaces the PowerShell runner;
    and the one secret registered is the trimmed password. *)
Theorem New_establishes_identity (platform : Platform) (vm : string)
  (cfg : Config) (rs : list Runner.runner) (c : Communicator)
  (registered : list string) :
  New platform vm cfg (map WithRunner rs) = (Ok c, registered) ->
  GOOS platform = "windows"
  /\ wslIsWSL (platformHost platform) = false
  /\ vmName c = (if isEmpty (TrimSpace vm)
                 then TrimSpace (VMName cfg) else TrimSpace vm)
  /\ isEmpty (vmName c) = false
  /\ Username (config c) = TrimSpace (Username cfg)
  /\ isEmpty (Username (config c)) = false
  /\ Password (config c) = TrimSpace (Password cfg)
  /\ isEmpty (Password (config c)) = false
  /\ VMName (config c) = VMName cfg
  /\ runner c = last rs (powershellRunner platform)
  /\ registered = [TrimSpace (Password cfg)].
Proof.
  intros H. pose proof (NewFacts.New_cases platform vm cfg (map WithRunner rs))
    as C. cbv zeta in C.
  destruct (String.eqb_spec (GOOS platform) "windows") as [Eg|Ng];
    cbn [andb] in C; [|destruct C as [e C]; congruence].
  destruct (wslIsWSL (platformHost platform)) eqn:Ew; cbn [negb andb] in C;
    [destruct C as [e C]; congruence|].
  destruct (isEmpty (if isEmpty (TrimSpace vm)
                     then TrimSpace (VMName cfg) else TrimSpace vm)) eqn:En;
    cbn [negb andb] in C; [destruct C as [e C]; congruence|].
  destruct (isEmpty (TrimSpace (Username cfg))) eqn:Eu;
    cbn [negb andb] in C; [destruct C as [e C]; congruence|].
  destruct (isEmpty (TrimSpace (Password cfg))) eqn:Ep;
    cbn [negb andb] in C; [destruct C as [e C]; congruence|].
  rewrite C in H. inversion H as [[Hc Hr]]. clear H.
  match goal with
  | |- context [fold_left ?f (map WithRunner rs) ?c0] =>
      destruct (NewFacts.options_identity rs c0) as [H1 [H2 [H3 H4]]]
  end.
  cbv zeta in H1, H2, H3, H4.
  rewrite H1, H2, H4. cbn [vmName config runner mkConfig Username Password
                           VMName].
  rewrite En, Eu, Ep. now repeat split.
Qed.

Lemma New_establishes_identity_witness :
  exists c : Communicator,
    vmName c = "configured" /\ Username (config c) = "user".
Proof.
  pose (platform :=
          {| GOOS := "windows"; platformHost := testHost;
             powershellRunner :=
               stubRunner {| Stdout := None; Stderr := None |} |}).
  pose (cfg := mkConfig "configured" " user" "pass ").
  destruct (New platform "" cfg (map WithRunner [])) as [[c|e] registered]
    eqn:E; [|discriminate E].
  exists c.
  destruct (New_establishes_identity platform "" cfg [] c registered E)
    as [_ [_ [H1 [_ [H2 _]]]]].
  split; [exact H1 | exact H2].
Defined.

(** X3: [New] succeeds exactly when the host is Windows and not WSL, one
    of the two VM names is not blank, and the user name and the password
    are not blank; and it registers the password as a secret exactly when
    it succeeds: a refused construction registers nothing. *)
Theorem New_accepts_iff (platform : Platform) (vm : string) (cfg : Config)
  (opts : list CommOption) :
  ((exists c : Communicator, fst (New platform vm cfg opts) = Ok c)
   <-> (GOOS platform = "windows"
        /\ wslIsWSL (platformHost platform) = false
        /\ (isEmpty (TrimSpace vm) = false
            \/ isEmpty (TrimSpace (VMName cfg)) = false)
        /\ isEmpty (TrimSpace (Username cfg)) = false
        /\ isEmpty (TrimSpace (Password cfg)) = false))
  /\ snd (New platform vm cfg opts)
     = match fst (New platform vm cfg opts) with
       | Ok _ => [TrimSpace (Password cfg)]
       | Failed _ => []
       end.
Proof.
  pose proof (NewFacts.New_cases platform vm cfg opts) as C. cbv zeta in C.
  match type of C with
  | if ?b then _ else _ =>
      assert (Hb : b = true
                   <-> (GOOS platform = "windows"
                        /\ wslIsWSL (platformHost platform) = false
                        /\ (isEmpty (TrimSpace vm) = false
                            \/ isEmpty (TrimSpace (VMName cfg)) = false)
                        /\ isEmpty (TrimSpace (Username cfg)) = false
                        /\ isEmpty (TrimSpace (Password cfg)) = false));
      [|destruct b]
  end.
  - rewrite !andb_true_iff, !negb_true_iff, String.eqb_eq. split.
    + intros [[[[H1 H2] H3] H4] H5]. repeat split; auto.
      destruct (isEmpty (TrimSpace vm)) eqn:E; auto.
    + intros [H1 [H2 [H3 [H4 H5]]]]. repeat split; auto.
      destruct (isEmpty (TrimSpace vm)) eqn:E; [|exact E].
      destruct H3 as [H3|H3]; [discriminate | exact H3].
  - rewrite C. cbn [fst snd]. split; [|reflexivity].
    split; [intros _; now apply Hb | intros _; eexists; reflexivity].
  - destruct C as [e C]. rewrite C. cbn [fst snd]. split; [|reflexivity].
    split; [intros [c H]; discriminate|].
    intros H. apply Hb in H. discriminate.
Qed.

(* ------------------------------------------------------------------ *)
(** ** The callers: configuration and connection step *)

(** X4: [PowershellDirectConfig.Prepare] returns one error for each of
    the user name and the password that is blank, the user name first, and
    none for the VM name, which it does not look at; so it returns no
    error exactly when both are not blank. *)
Theorem Prepare_counts_blank_credentials (c : Common.PowershellDirectConfig) :
  List.length (Common.Prepare c)
  = (if isEmpty (TrimSpace (Common.Username c)) then 1 else 0)
    + (if isEmpty (TrimSpace (Common.Password c)) then 1 else 0)
  /\ (Common.Prepare c = []
      <-> isEmpty (TrimSpace (Common.Username c)) = false
          /\ isEmpty (TrimSpace (Common.Password c)) = false)
  /\ Common.Prepare c
     = Common.Prepare {| Common.VMName := ""; Common.Username := Common.Username c;
                         Common.Password := Common.Password c |}.
Proof.
  unfold Common.Prepare. cbn [Common.Username Common.Password].
  destruct (isEmpty (TrimSpace (Common.Username c)));
    destruct (isEmpty (TrimSpace (Common.Password c))); cbn;
    (split; [reflexivity|]); (split; [|reflexivity]);
    split; try discriminate; try (intros [? ?]; discriminate); auto.
Qed.

(** X5: a configuration that passes [Prepare] is refused by [New] only
    for the platform or for the VM name: on a Windows host that is not WSL,
    with a VM name that is not blank in the argument or in the
    configuration, [New] succeeds on its [CommunicatorConfig], and the
    communicator carries the trimmed credentials. *)
Theorem prepared_config_is_accepted (platform : Platform)
  (c : Common.PowershellDirectConfig) (vm : string) :
  Common.Prepare c = [] ->
  GOOS platform = "windows" ->
  wslIsWSL (platformHost platform) = false ->
  isEmpty (TrimSpace vm) = false
  \/ isEmpty (TrimSpace (Common.VMName c)) = false ->
  exists comm : Communicator,
    New platform vm (Common.CommunicatorConfig c) []
    = (Ok comm, [TrimSpace (Common.Password c)])
    /\ Username (config comm) = TrimSpace (Common.Username c)
    /\ Password (config comm) = TrimSpace (Common.Password c).
Proof.
  intros HP Hg Hw Hvm.
  unfold Common.Prepare in HP.
  destruct (isEmpty (TrimSpace (Common.Username c))) eqn:Eu;
    [destruct (isEmpty (TrimSpace (Common.Password c))); discriminate|].
  destruct (isEmpty (TrimSpace (Common.Password c))) eqn:Ep; [discriminate|].
  pose proof (NewFacts.New_cases platform vm (Common.CommunicatorConfig c) [])
    as C. cbv zeta in C.
  unfold Common.CommunicatorConfig, mkConfig in C.
  cbn [VMName Username Password] in C.
  rewrite Hg, Hw, Eu, Ep in C. cbn [String.eqb Ascii.eqb Bool.eqb negb andb] in C.
  replace (isEmpty (if isEmpty (TrimSpace vm)
                    then TrimSpace (Common.VMName c) else TrimSpace vm))
    with false in C
    by (destruct (isEmpty (TrimSpace vm)) eqn:E;
        [destruct Hvm as [H|H]; [discriminate | now rewrite H]
        | now rewrite E]).
  cbn [negb andb fold_left] in C.
  eexists. split; [exact C|]. now split.
Qed.

Lemma prepared_config_is_accepted_witness :
  exists comm : Communicator,
    New {| GOOS := "windows"; platformHost := testHost;
           powershellRunner :=
             stubRunner {| Stdout := None; Stderr := None |} |}
        ""
        (Common.CommunicatorConfig
           {| Common.VMName := "existing"; Common.Username := "packer";
              Common.Password := "secret" |})
        []
    = (Ok comm, ["secret"]).
Proof.
  destruct (prepared_config_is_accepted
              {| GOOS := "windows"; platformHost := testHost;
                 powershellRunner :=
                   stubRunner {| Stdout := None; Stderr := None |} |}
              {| Common.VMName := "existing"; Common.Username := "packer";
                 Common.Password := "secret" |}
              "" eq_refl eq_refl eq_refl (or_intror eq_refl))
    as [comm [H _]].
  exists comm. exact H.
Defined.

Module StepFacts.

(** Case analysis along the tests of a function, innermost test first. *)
Ltac break_match :=
  match goal with
  | |- context [match ?x with _ => _ end] =>
      lazymatch x with
      | context [match _ with _ => _ end] => fail
      | _ => destruct x eqn:?
      end
  end.

Ltac break_match_in H :=
  match type of H with
  | context [match ?x with _ => _ end] =>
      lazymatch x with
      | context [match _ with _ => _ end] => fail
      | _ => destruct x eqn:?
      end
  end.

Lemma Put_same (st : Common.StateBag) (key : string) (v : Common.Dyn) :
  Common.Put st key v key = Some v.
Proof. unfold Common.Put. now rewrite String.eqb_refl. Qed.

Lemma Put_other (st : Common.StateBag) (key k : string) (v : Common.Dyn) :
  k <> key -> Common.Put st key v k = st k.
Proof.
  intros H. unfold Common.Put.
  destruct (String.eqb_spec k key); [contradiction | reflexivity].
Qed.

End StepFacts.

(** X6: a [Run] of the connection step that halts has put an error in
    the state under ["error"] and has reported that error to the [Ui] as
    its last call, and has stored no communicator; a [Run] that continues
    has stored a communicator under ["communicator"], has left ["error"]
    as it was and has reported no error. *)
Theorem connect_step_outcome (platform : Platform)
  (s : Common.StepConnectPowerShellDirect) (st : Common.StateBag) :
  let o := Common.Run platform s st in
  match Common.action o with
  | Common.ActionHalt =>
      (exists e : Err,
         Common.state o "error" = Some (Common.DError e)
         /\ last (Common.ui o) (Common.UiSay "")
            = Common.UiError (errText e))
      /\ Common.state o "communicator" = st "communicator"
  | Common.ActionContinue =>
      (exists comm : Communicator,
         Common.state o "communicator" = Some (Common.DCommunicator comm))
      /\ Common.state o "error" = st "error"
      /\ Common.ui o
         = [Common.UiSay
              "Connecting to virtual machine using PowerShell Direct..."]
  end.
Proof.
  cbv zeta. unfold Common.Run, Common.halt, Common.GetOk.
  repeat (StepFacts.break_match;
          cbn [Common.action Common.state Common.ui negb fst snd];
          try discriminate);
    cbn [last app];
    try (split; [eexists; split; [apply StepFacts.Put_same | reflexivity]
                | repeat (rewrite StepFacts.Put_other by discriminate);
                  reflexivity]);
    try (split; [eexists; apply StepFacts.Put_same
                | split; [repeat (rewrite StepFacts.Put_other by discriminate);
                          reflexivity
                         | reflexivity]]).
Qed.

(** X7: a [Run] of the connection step calls the factory at most once.
    When it does not, it halts and registers no secret.  When it does, the
    VM name, the user name and the password it passes are not empty and are
    trimmed, and the configuration behind the pointer of the step has been
    normalised to these same credentials. *)
Theorem connect_step_factory_call (platform : Platform)
  (s : Common.StepConnectPowerShellDirect) (st : Common.StateBag) :
  let o := Common.Run platform s st in
  match Common.factoryCalls o with
  | [] => Common.action o = Common.ActionHalt /\ Common.secrets o = []
  | [(name, cfg)] =>
      isEmpty name = false /\ TrimSpace name = name
      /\ isEmpty (Username cfg) = false
      /\ TrimSpace (Username cfg) = Username cfg
      /\ isEmpty (Password cfg) = false
      /\ TrimSpace (Password cfg) = Password cfg
      /\ exists c : Common.PowershellDirectConfig,
           Common.stepConfig o = Some c
           /\ Common.CommunicatorConfig c = cfg
  | _ :: _ :: _ => False
  end.
Proof.
  cbv zeta. unfold Common.Run, Common.halt, Common.GetOk.
  repeat (StepFacts.break_match;
          cbn [Common.action Common.secrets Common.factoryCalls
               Common.stepConfig negb fst snd];
          try discriminate);
    try (split; reflexivity);
    unfold Common.CommunicatorConfig, mkConfig;
    cbn [Username Password Common.Username Common.Password Common.VMName];
    rewrite ?TrimFacts.TrimSpace_idempotent;
    repeat (split; [first [assumption | reflexivity]|]);
    eexists; split; reflexivity.
Qed.

(** X8: a VM name that the state holds as a string and that is not blank
    wins over the configuration: the factory, if it is reached, receives
    this name trimmed, and the step leaves ["vmName"] and ["instance_id"]
    in the state as they were. *)
Theorem connect_step_name_from_state (platform : Platform)
  (s : Common.StepConnectPowerShellDirect) (st : Common.StateBag)
  (cfg : Common.PowershellDirectConfig) (n : string) :
  Common.StepConfig s = Some cfg ->
  st "vmName" = Some (Common.DString n) ->
  isEmpty (TrimSpace n) = false ->
  let o := Common.Run platform s st in
  Common.state o "vmName" = st "vmName"
  /\ Common.state o "instance_id" = st "instance_id"
  /\ forall (name : string) (c : Config),
       In (name, c) (Common.factoryCalls o) -> name = TrimSpace n.
Proof.
  intros Hc Hv Hn. cbv zeta. unfold Common.Run, Common.halt, Common.GetOk.
  rewrite Hc, Hv, Hn.
  repeat (StepFacts.break_match;
          cbn [Common.state Common.factoryCalls negb fst snd];
          try discriminate);
    repeat (rewrite StepFacts.Put_other by discriminate);
    rewrite ?Hv;
    (split; [reflexivity|]); (split; [reflexivity|]);
    intros name c HIn; cbn in HIn;
    try contradiction; destruct HIn as [HIn|[]]; now inversion HIn.
Qed.

Lemma connect_step_name_from_state_witness :
  let st := Common.Put Common.emptyBag "vmName" (Common.DString " test-vm ") in
  let o := Common.Run testPlatform (testStep "unused") st in
  Common.factoryCalls o = [("test-vm", mkConfig "unused" "packer" "secret")]
  /\ Common.state o "vmName" = Some (Common.DString " test-vm ").
Proof.
  intros st o. split; [reflexivity|].
  exact (proj1 (connect_step_name_from_state testPlatform (testStep "unused")
                  st {| Common.VMName := "unused";
                        Common.Username := "packer";
                        Common.Password := "secret" |}
                  " test-vm " eq_refl eq_refl eq_refl)).
Defined.

(** X9: when the state holds no VM name, or a blank one, and the VM name
    of the configuration is not blank, the step takes the name of the
    configuration, trimmed: it stores it in the state under ["vmName"],
    and under ["instance_id"] unless the state already has an instance id,
    which it keeps; and the factory, if it is reached, receives this
    name. *)
Theorem connect_step_name_from_config (platform : Platform)
  (s : Common.StepConnectPowerShellDirect) (st : Common.StateBag)
  (cfg : Common.PowershellDirectConfig) :
  Common.StepConfig s = Some cfg ->
  st "vmName" = None
  \/ (exists n : string,
        st "vmName" = Some (Common.DString n)
        /\ isEmpty (TrimSpace n) = true) ->
  isEmpty (TrimSpace (Common.VMName cfg)) = false ->
  let o := Common.Run platform s st in
  let name := TrimSpace (Common.VMName cfg) in
  Common.state o "vmName" = Some (Common.DString name)
  /\ Common.state o "instance_id"
     = match st "instance_id" with
       | Some v => Some v
       | None => Some (Common.DString name)
       end
  /\ forall (called : string) (c : Config),
       In (called, c) (Common.factoryCalls o) -> called = name.
Proof.
  intros Hc Hv Hn. cbv zeta.
  assert (E : forall v, Common.Put st "vmName" v "instance_id"
                        = st "instance_id")
    by (intros v; now rewrite StepFacts.Put_other by discriminate).
  unfold Common.Run, Common.halt, Common.GetOk. rewrite Hc.
  destruct Hv as [Hv|[n [Hv Hb]]]; rewrite Hv; rewrite ?Hb, Hn;
    cbn [negb]; rewrite E;
    destruct (st "instance_id") as [v|] eqn:Ei;
    repeat (StepFacts.break_match;
            cbn [Common.state Common.factoryCalls negb fst snd];
            try discriminate);
    repeat (first [rewrite StepFacts.Put_other by discriminate
                  | rewrite StepFacts.Put_same]);
    rewrite ?Ei;
    (split; [reflexivity|]); (split; [reflexivity|]);
    intros called c HIn; cbn in HIn;
    try contradiction; destruct HIn as [HIn|[]]; now inversion HIn.
Qed.

Lemma connect_step_name_from_config_witness :
  let st := Common.Put Common.emptyBag "instance_id" (Common.DString "kept") in
  let o := Common.Run testPlatform (testStep " configured ") st in
  Common.state o "vmName" = Some (Common.DString "configured")
  /\ Common.state o "instance_id" = Some (Common.DString "kept").
Proof.
  intros st o.
  destruct (connect_step_name_from_config testPlatform
              (testStep " configured ") st
              {| Common.VMName := " configured ";
                 Common.Username := "packer"; Common.Password := "secret" |}
              eq_refl (or_introl eq_refl) eq_refl) as [H1 [H2 _]].
  split; [exact H1 | exact H2].
Defined.

Module StepNewFacts.

(** On a supported platform [New] accepts trimmed values that are not
    empty, and keeps them. *)
Lemma New_on_trimmed (platform : Platform) (x v u p : string) :
  GOOS platform = "windows" ->
  wslIsWSL (platformHost platform) = false ->
  isEmpty (TrimSpace x) = false ->
  isEmpty (TrimSpace u) = false ->
  isEmpty (TrimSpace p) = false ->
  New platform (TrimSpace x) (mkConfig v (TrimSpace u) (TrimSpace p)) []
  = (Ok {| vmName := TrimSpace x;
           config := mkConfig v (TrimSpace u) (TrimSpace p);
           runner := powershellRunner platform;
           host := platformHost platform |},
     [TrimSpace p]).
Proof.
  intros Hg Hw Hx Hu Hp.
  pose proof (NewFacts.New_cases platform (TrimSpace x)
                (mkConfig v (TrimSpace u) (TrimSpace p)) []) as C.
  cbv zeta in C. unfold mkConfig in C. cbn [VMName Username Password] in C.
  rewrite !TrimFacts.TrimSpace_idempotent in C.
  rewrite Hg, Hw, Hx, Hu, Hp in C.
  cbn [String.eqb Ascii.eqb Bool.eqb negb andb fold_left] in C.
  rewrite Hx in C. exact C.
Qed.

Ltac break_test :=
  match goal with
  | |- context [match ?x with _ => _ end] =>
      lazymatch x with
      | context [match _ with _ => _ end] => fail
      | context [New] => fail
      | _ => destruct x eqn:?
      end
  end.

End StepNewFacts.

(** X10: with the default factory, on a Windows host that is not WSL, the
    step halts only for the reasons it checks itself: once it reaches the
    factory, [New] accepts what it is given, the step continues, the
    communicator it stores carries the VM name and the credentials passed
    to the factory, and the password is registered as a secret. *)
Theorem connect_step_default_factory (platform : Platform)
  (s : Common.StepConnectPowerShellDirect) (st : Common.StateBag) :
  Common.Factory s = None ->
  GOOS platform = "windows" ->
  wslIsWSL (platformHost platform) = false ->
  let o := Common.Run platform s st in
  forall (name : string) (cfg : Config),
    In (name, cfg) (Common.factoryCalls o) ->
    exists comm : Communicator,
      Common.action o = Common.ActionContinue
      /\ Common.state o "communicator" = Some (Common.DCommunicator comm)
      /\ vmName comm = name
      /\ Username (config comm) = Username cfg
      /\ Password (config comm) = Password cfg
      /\ Common.secrets o = [Password cfg].
Proof.
  intros HF Hg Hw. cbv zeta.
  unfold Common.Run, Common.halt, Common.GetOk. rewrite HF.
  unfold Common.CommunicatorConfig.
  cbn [Common.VMName Common.Username Common.Password].
  repeat (first
            [ rewrite (StepNewFacts.New_on_trimmed platform) by assumption
            | StepNewFacts.break_test ];
          cbn [Common.action Common.state Common.factoryCalls Common.secrets
               negb fst snd];
          try discriminate);
    intros name cfg HIn; cbn in HIn; try contradiction;
    destruct HIn as [HIn|[]]; inversion HIn; subst;
    eexists; (split; [reflexivity|]);
    (split; [apply StepFacts.Put_same|]); now repeat split.
Qed.

Lemma connect_step_default_factory_witness :
  let st := Common.Put Common.emptyBag "vmName" (Common.DString "test-vm") in
  let o := Common.Run testPlatform (testStep "unused") st in
  exists comm : Communicator,
    Common.action o = Common.ActionContinue
    /\ Common.state o "communicator" = Some (Common.DCommunicator comm)
    /\ vmName comm = "test-vm".
Proof.
  intros st o.
  destruct (connect_step_default_factory testPlatform (testStep "unused") st
              eq_refl eq_refl eq_refl "test-vm"
              (mkConfig "unused" "packer" "secret") (or_introl eq_refl))
    as [comm [H1 [H2 [H3 _]]]].
  exists comm. split; [exact H1|]. split; [exact H2 | exact H3].
Defined.

(** X11: after the connection step has continued, the state holds under
    ["vmName"] a string that is not empty, so the host function of the
    PowerShell Direct connection succeeds on it. *)
Theorem host_after_connect_step (platform : Platform)
  (s : Common.StepConnectPowerShellDirect) (st : Common.StateBag) :
  let o := Common.Run platform s st in
  Common.action o = Common.ActionContinue ->
  exists name : string,
    Common.PowerShellDirectHost (Common.state o) = Ok name
    /\ isEmpty name = false.
Proof.
  cbv zeta. unfold Common.Run, Common.halt, Common.GetOk.
  repeat (StepFacts.break_match;
          cbn [Common.action Common.state negb fst snd];
          try discriminate);
    intros _; unfold Common.PowerShellDirectHost, Common.GetOk;
    repeat (first [rewrite StepFacts.Put_other by discriminate
                  | rewrite StepFacts.Put_same]);
    rewrite ?Heqo0;
    match goal with
    | H : isEmpty (TrimSpace ?x) = false |- context [isEmpty ?x] =>
        rewrite (TrimFacts.nonblank_nonempty x H)
    | H : isEmpty ?x = false |- context [isEmpty ?x] => rewrite H
    end;
    eexists; split; try reflexivity;
    first [assumption | now apply TrimFacts.nonblank_nonempty].
Qed.

Lemma host_after_connect_step_witness :
  Common.PowerShellDirectHost
    (Common.state
       (Common.Run testPlatform (testStep "existing") Common.emptyBag))
  = Ok "existing".
Proof.
  destruct (host_after_connect_step testPlatform (testStep "existing")
              Common.emptyBag eq_refl) as [name [H _]].
  rewrite H. f_equal.
  assert (E : Common.PowerShellDirectHost
                (Common.state
                   (Common.Run testPlatform (testStep "existing")
                               Common.emptyBag))
              = Ok "existing") by reflexivity.
  rewrite H in E. now inversion E.
Defined.

(* ------------------------------------------------------------------ *)
(** ** Transfers of single files *)

Module TransferFacts.

Import Transfer.

(** Every test of [Upload] and [Download] decided, one after the other. *)
Ltac run_transfer c fs name :=
  unfold Upload, Download, tbind, tcall, tret, tfail, withDeferred, liftIO,
    hostPath, bind, call, ret, fail, ofError;
  repeat match goal with
    | |- context [match ?x with _ => _ end] =>
        lazymatch x with
        | context [match _ with _ => _ end] => fail
        | _ => destruct x eqn:?
        end
    end;
  repeat match goal with
    | H : (_, _) = (_, _) |- _ => inversion H; subst; clear H
    | H : Ok _ = Ok _ |- _ => inversion H; subst; clear H
    | H : Ok _ = Failed _ |- _ => discriminate H
    | H : Failed _ = Ok _ |- _ => discriminate H
    end.

End TransferFacts.

(** X12: once [Upload] has created its temporary file, it removes it
    exactly once, as the last thing it does, whatever fails in between
    (the copy of the input, the close, the resolution of the host path or
    the script); and it calls the runner at most once.  When the temporary
    file cannot be created, [Upload] returns that error and does nothing
    more. *)
Theorem upload_removes_temp_file (c : Communicator) (fs : Transfer.Files)
  (path : string) (input : Transfer.Input) :
  let events := snd (Transfer.Upload c fs path (Some input) []) in
  match Transfer.osCreateTemp fs Transfer.uploadPattern with
  | Ok name =>
      Transfer.removalsOf events = [name]
      /\ last events (Transfer.CreateTemp "") = Transfer.RemoveFile name
      /\ hd (Transfer.RemoveFile "") events
         = Transfer.CreateTemp Transfer.uploadPattern
      /\ List.length (Transfer.runnerCallsOf events) <= 1
  | Failed e =>
      Transfer.Upload c fs path (Some input) []
      = (Failed e, [Transfer.CreateTemp Transfer.uploadPattern])
  end.
Proof.
  cbv zeta.
  destruct (Transfer.osCreateTemp fs Transfer.uploadPattern) as [name|e] eqn:E.
  - TransferFacts.run_transfer c fs name; cbn; repeat split; lia.
  - unfold Transfer.Upload, Transfer.tbind, Transfer.tcall. now rewrite E.
Qed.

(** X13: [Upload] calls the runner only when the whole input has been
    copied into the temporary file, the file has been closed and its host
    path resolved, all without error; it then calls it once, with the
    upload script and the VM name, user name, password, host path and
    remote path, and returns what the script returns.  Otherwise it
    returns an error and the runner is not called. *)
Theorem upload_runs_script_after_staging (c : Communicator)
  (fs : Transfer.Files) (path : string) (input : Transfer.Input)
  (name : string) :
  Transfer.osCreateTemp fs Transfer.uploadPattern = Ok name ->
  let result := Transfer.Upload c fs path (Some input) [] in
  match Transfer.copyInErr input, Transfer.closeErr fs name,
        fst (hostPath c name []) with
  | None, None, Ok sourcePath =>
      let params :=
        [vmName c; Username (config c); Password (config c);
         sourcePath; path] in
      Transfer.runnerCallsOf (snd result) = [RunCall uploadFileScript params]
      /\ fst result = ofError (Runner.Run (runner c) uploadFileScript params)
  | _, _, _ =>
      Transfer.runnerCallsOf (snd result) = []
      /\ exists e : Err, fst result = Failed e
  end.
Proof.
  intros E. cbv zeta.
  unfold Transfer.Upload, Transfer.tbind, Transfer.tcall, Transfer.tret,
    Transfer.withDeferred, Transfer.liftIO, hostPath, bind, call, ret, ofError.
  rewrite E.
  destruct (Transfer.copyInErr input); [cbn; split; eauto|].
  destruct (Transfer.closeErr fs name); [cbn; split; eauto|].
  destruct (filepathAbs (host c) name); [|cbn; split; eauto].
  destruct (wslIsWSL (host c)).
  - destruct (wslConvertWSlPathToWindowsPath (host c) value);
      [|cbn; split; eauto].
    cbn. destruct (Runner.Run (runner c) uploadFileScript _); now split.
  - cbn. destruct (Runner.Run (runner c) uploadFileScript _); now split.
Qed.

Lemma upload_runs_script_after_staging_witness :
  let fs :=
    {| Transfer.osCreateTemp := fun _ => Ok "/tmp/upload1";
       Transfer.closeErr := fun _ => None;
       Transfer.osOpen := fun _ => Ok [] |} in
  let c := newTestCommunicator (stubRunner {| Stdout := None; Stderr := None |}) in
  let input :=
    {| Transfer.inputData := bytesOf "hello world";
       Transfer.copyInErr := None |} in
  Transfer.runnerCallsOf
    (snd (Transfer.Upload c fs "/remote/path.txt" (Some input) []))
  = [RunCall uploadFileScript
       ["test-vm"; "user"; "pass"; "/tmp/upload1"; "/remote/path.txt"]].
Proof.
  intros fs c input.
  exact (proj1 (upload_runs_script_after_staging c fs "/remote/path.txt"
                  input "/tmp/upload1" eq_refl)).
Defined.

(** X14: once [Download] has created its temporary file, it removes it
    exactly once, as the last thing it does, whatever fails in between;
    it calls the runner at most once; and it writes to the writer of the
    caller only when the host path was resolved, the script succeeded and
    the file could be opened; when it returns nil, what it has copied into
    the writer is the content found in the temporary file. *)
Theorem download_removes_temp_file (c : Communicator) (fs : Transfer.Files)
  (path : string) (output : Transfer.Output) :
  let result := Transfer.Download c fs path (Some output) [] in
  let events := snd result in
  match Transfer.osCreateTemp fs Transfer.downloadPattern with
  | Ok name =>
      Transfer.removalsOf events = [name]
      /\ last events (Transfer.CreateTemp "") = Transfer.RemoveFile name
      /\ List.length (Transfer.runnerCallsOf events) <= 1
      /\ match fst (hostPath c name []) with
         | Ok hostPath' =>
             match Runner.Run (runner c) downloadFileScript
                     [vmName c; Username (config c); Password (config c);
                      hostPath'; path],
                   Transfer.osOpen fs name with
             | None, Ok content => True
             | _, _ => Transfer.written events = []
             end
         | Failed _ => Transfer.written events = []
         end
      /\ (fst result = Ok tt ->
          exists content : list byte,
            Transfer.osOpen fs name = Ok content
            /\ Transfer.written events = content)
  | Failed e =>
      result = (Failed e, [Transfer.CreateTemp Transfer.downloadPattern])
  end.
Proof.
  cbv zeta.
  destruct (Transfer.osCreateTemp fs Transfer.downloadPattern)
    as [name|e] eqn:E.
  - unfold Transfer.Download, Transfer.tbind, Transfer.tcall, Transfer.tret,
      Transfer.withDeferred, Transfer.liftIO, hostPath, bind, call, ret,
      ofError.
    rewrite E.
    destruct (filepathAbs (host c) name) as [absolute|e1];
      [|cbn; repeat split; try lia; discriminate].
    destruct (wslIsWSL (host c)).
    + destruct (wslConvertWSlPathToWindowsPath (host c) absolute) as [hp|e2];
        [|cbn; repeat split; try lia; discriminate].
      cbn. destruct (Runner.Run (runner c) downloadFileScript _);
        [cbn; repeat split; try lia; discriminate|].
      destruct (Transfer.osOpen fs name) as [content|e3];
        [|cbn; repeat split; try lia; discriminate].
      cbn. rewrite app_nil_r. repeat split; try lia.
      intros _. now exists content.
    + cbn. destruct (Runner.Run (runner c) downloadFileScript _);
        [cbn; repeat split; try lia; discriminate|].
      destruct (Transfer.osOpen fs name) as [content|e3];
        [|cbn; repeat split; try lia; discriminate].
      cbn. rewrite app_nil_r. repeat split; try lia.
      intros _. now exists content.
  - unfold Transfer.Download, Transfer.tbind, Transfer.tcall. now rewrite E.
Qed.

(** X15: a directory transfer runs its script last and once.  Without
    exclude filters, [UploadDir] calls the runner only when the host path
    of the source was resolved, and [DownloadDir] only when the
    destination was made absolute, created and resolved, in that order;
    the script then receives the VM name, the credentials, the two paths
    and the flag that is [false] exactly when the source is empty or ends
    with a separator, and its result is the result of the transfer.  When
    a step before fails, the transfer returns an error and the runner is
    not called. *)
Theorem directory_transfer_runs_script_last (c : Communicator)
  (src dst : string) :
  let flag := FormatBool (includeSourceRoot src) in
  let up := UploadDir c dst src [] [] in
  let down := DownloadDir c src dst [] [] in
  match fst (hostPath c src []) with
  | Ok path =>
      let params :=
        [vmName c; Username (config c); Password (config c);
         path; dst; flag] in
      runnerCalls (snd up) = [RunCall uploadDirectoryScript params]
      /\ last (snd up) IsWSLCall = RunCall uploadDirectoryScript params
      /\ fst up
         = ofError (Runner.Run (runner c) uploadDirectoryScript params)
  | Failed e => fst up = Failed e /\ runnerCalls (snd up) = []
  end
  /\ match filepathAbs (host c) dst with
     | Ok destPath =>
         hd IsWSLCall (snd down) = AbsCall dst
         /\ match osMkdirAll (host c) destPath,
                  fst (hostPath c destPath []) with
            | None, Ok path =>
                let params :=
                  [vmName c; Username (config c); Password (config c);
                   src; path; flag] in
                runnerCalls (snd down)
                = [RunCall downloadDirectoryScript params]
                /\ last (snd down) IsWSLCall
                   = RunCall downloadDirectoryScript params
                /\ nth 1 (snd down) IsWSLCall = MkdirAllCall destPath
                /\ fst down
                   = ofError
                       (Runner.Run (runner c) downloadDirectoryScript params)
            | _, _ =>
                runnerCalls (snd down) = []
                /\ exists e : Err, fst down = Failed e
            end
     | Failed e => down = (Failed e, [AbsCall dst])
     end.
Proof.
  cbv zeta. unfold UploadDir, DownloadDir, hostPath, bind, call, ret, fail.
  cbn [List.length Nat.ltb Nat.leb app fst snd].
  split.
  - destruct (filepathAbs (host c) src) as [a|e]; cbn [fst snd];
      [|now split].
    destruct (wslIsWSL (host c)); cbn [fst snd app].
    + destruct (wslConvertWSlPathToWindowsPath (host c) a) as [p|e];
        cbn [fst snd app]; [|now split].
      destruct (Runner.Run (runner c) uploadDirectoryScript _);
        cbn; now repeat split.
    + destruct (Runner.Run (runner c) uploadDirectoryScript _);
        cbn; now repeat split.
  - destruct (filepathAbs (host c) dst) as [d|e]; cbn [fst snd];
      [|reflexivity].
    destruct (osMkdirAll (host c) d) as [e|]; cbn [fst snd ofError app];
      [split; [reflexivity|]; split; [reflexivity | now eexists]|].
    destruct (filepathAbs (host c) d) as [a|e]; cbn [fst snd app];
      [|split; [reflexivity|]; split; [reflexivity | now eexists]].
    destruct (wslIsWSL (host c)); cbn [fst snd app].
    + destruct (wslConvertWSlPathToWindowsPath (host c) a) as [p|e];
        cbn [fst snd app];
        [|split; [reflexivity|]; split; [reflexivity | now eexists]].
      destruct (Runner.Run (runner c) downloadDirectoryScript _);
        cbn; now repeat split.
    + destruct (Runner.Run (runner c) downloadDirectoryScript _);
        cbn; now repeat split.
Qed.

(* ------------------------------------------------------------------ *)
(** ** The PowerShell runner: staging and spawning *)

Module StagingFacts.

Import Staging.

Ltac decide_all :=
  repeat match goal with
    | |- context [match ?x with _ => _ end] =>
        lazymatch x with
        | context [match _ with _ => _ end] => fail
        | _ => destruct x eqn:?
        end
    end.

(** [saveFrom] on a file that exists. *)
Lemma saveFrom_cases (env : Env) (contents name : string) :
  let r := saveFrom env contents (Some name) None [Created name] in
  match savedErr (fst r) with
  | None =>
      fst r = {| savedName := (name ++ ".ps1")%string;
                 savedCleanup :=
                   Some {| Exec.debug := debugSet env;
                           Exec.newFilename := (name ++ ".ps1")%string |};
                 savedErr := None |}
      /\ snd r = [Created name; Wrote name contents; Closed name;
                  Renamed name (name ++ ".ps1")%string]
  | Some e =>
      fst r = notSaved e /\ staged (snd r) = []
      /\ cleanupSteps (snd r) = [] /\ spawns (snd r) = []
  end.
Proof.
  cbv zeta. unfold saveFrom.
  destruct (writeErr env name); [now repeat split|].
  destruct (closeErr env name); [now repeat split|].
  destruct (renameErr env name (name ++ ".ps1")%string); now repeat split.
Qed.

Lemma save_cases (env : Staging.Env) (contents : string) :
  let saved := fst (Staging.saveStreamingScript env contents) in
  let events := snd (Staging.saveStreamingScript env contents) in
  match Staging.savedErr saved with
  | None =>
      exists temp : string,
        Staging.savedName saved = (temp ++ ".ps1")%string
        /\ HasSuffix (Staging.savedName saved) ".ps1" = true
        /\ Staging.savedCleanup saved
           = Some {| Exec.debug := Staging.debugSet env;
                     Exec.newFilename := Staging.savedName saved |}
        /\ events
           = [Staging.Created temp; Staging.Wrote temp contents;
              Staging.Closed temp;
              Staging.Renamed temp (Staging.savedName saved)]
  | Some e =>
      Staging.savedName saved = ""
      /\ Staging.savedCleanup saved = None
      /\ Staging.staged events = []
      /\ Staging.cleanupSteps events = []
      /\ Staging.spawns events = []
  end.
Proof.
  cbv zeta. unfold Staging.saveStreamingScript.
  assert (G : forall name,
             let r := Staging.saveFrom env contents (Some name) None
                        [Staging.Created name] in
             match Staging.savedErr (fst r) with
             | None =>
                 exists temp : string,
                   Staging.savedName (fst r) = (temp ++ ".ps1")%string
                   /\ HasSuffix (Staging.savedName (fst r)) ".ps1" = true
                   /\ Staging.savedCleanup (fst r)
                      = Some {| Exec.debug := Staging.debugSet env;
                                Exec.newFilename :=
                                  Staging.savedName (fst r) |}
                   /\ snd r
                      = [Staging.Created temp; Staging.Wrote temp contents;
                         Staging.Closed temp;
                         Staging.Renamed temp (Staging.savedName (fst r))]
             | Some e =>
                 Staging.savedName (fst r) = ""
                 /\ Staging.savedCleanup (fst r) = None
                 /\ Staging.staged (snd r) = []
                 /\ Staging.cleanupSteps (snd r) = []
                 /\ Staging.spawns (snd r) = []
             end).
  { intros name. cbv zeta.
    pose proof (saveFrom_cases env contents name) as C.
    cbv zeta in C.
    destruct (Staging.savedErr
                (fst (Staging.saveFrom env contents (Some name) None
                        [Staging.Created name]))).
    - destruct C as [C1 [C2 [C3 C4]]]. rewrite C1. now repeat split.
    - destruct C as [C1 C2]. rewrite C1, C2.
      exists name. cbn [Staging.savedName Staging.savedCleanup].
      repeat split. apply GoStringsFacts.HasSuffix_append. }
  destruct (Staging.isWSL env).
  - destruct (Staging.getWSlTemp env) as [tmpDir|e]; [|now repeat split].
    destruct (Staging.convertWindowsPathToWSlPath env tmpDir) as [dir|e];
      [|now repeat split].
    destruct (Staging.createTempIn env dir) as [name|e];
      [apply G | now repeat split].
  - destruct (Staging.tmpFile env) as [name|e]; [apply G | now repeat split].
Qed.

Lemma Stream_cases (env : Staging.Env) (script : string)
  (params : list string) :
  let events := snd (Staging.Stream env script params) in
  match fst (Staging.Stream env script params) with
  | Failed e =>
      Staging.spawns events = []
      /\ match Staging.staged events with
         | [] => Staging.cleanupSteps events = []
         | [name] =>
             Staging.cleanupSteps events
             = Exec.runCleanup {| Exec.debug := Staging.debugSet env;
                                  Exec.newFilename := name |}
         | _ :: _ :: _ => False
         end
  | Ok process =>
      Staging.cleanupSteps events = []
      /\ Exec.once process = false
      /\ exists (name filename path : string),
           Staging.staged events = [name]
           /\ process
              = Exec.started (Staging.processExitErr env)
                  (Staging.processSignalErr env)
                  {| Exec.debug := Staging.debugSet env;
                     Exec.newFilename := name |}
           /\ Exec.cleanup process
              = Some {| Exec.debug := Staging.debugSet env;
                        Exec.newFilename := name |}
           /\ (if Staging.isWSL env
               then Staging.convertWSlPathToWindowsPath env name = Ok filename
               else filename = name)
           /\ Staging.spawns events
              = [(path,
                  ["-ExecutionPolicy"; "Bypass"; "-NoProfile"; "-File";
                   filename] ++ params)]
  end.
Proof.
  cbv zeta. unfold Staging.Stream.
  destruct (Staging.isPowershellAvailable env) as [[[|] path] [err|]];
    try (cbn; now split).
  pose proof (save_cases env script) as S. cbv zeta in S.
  destruct (Staging.saveStreamingScript env script) as [saved events].
  cbn [fst snd] in S.
  destruct (Staging.savedErr saved) as [err|].
  { destruct S as [_ [_ [S1 [S2 S3]]]]. cbn [fst snd]. rewrite S1. now split. }
  destruct S as [temp [N [_ [C E]]]].
  assert (St : Staging.staged events = [Staging.savedName saved])
    by (rewrite E; reflexivity).
  assert (Cl : Staging.cleanupSteps events = []) by (rewrite E; reflexivity).
  assert (Sp : Staging.spawns events = []) by (rewrite E; reflexivity).
  assert (F : forall err : Err,
             let r := (Failed err,
                       events ++ Staging.callCleanup
                                   (Staging.savedCleanup saved))
                      : Res Exec.execStreamProcess * list Staging.Event in
             Staging.spawns (snd r) = []
             /\ match Staging.staged (snd r) with
                | [] => Staging.cleanupSteps (snd r) = []
                | [name] =>
                    Staging.cleanupSteps (snd r)
                    = Exec.runCleanup {| Exec.debug := Staging.debugSet env;
                                         Exec.newFilename := name |}
                | _ :: _ :: _ => False
                end).
  { intros err. cbv zeta. cbn [snd]. rewrite C, E.
    unfold Staging.callCleanup, Exec.runCleanup.
    destruct (Staging.debugSet env); now split. }
  destruct (Staging.isWSL env) eqn:W.
  - destruct (Staging.convertWSlPathToWindowsPath env
                (Staging.savedName saved)) as [filename|err] eqn:Cv;
      [|apply F].
    destruct (Staging.stdoutPipeErr env); [apply F|].
    destruct (Staging.stderrPipeErr env); [apply F|].
    destruct (Staging.startErr env); [apply F|].
    cbn [fst snd Exec.once Exec.cleanup].
    split; [rewrite E; reflexivity|]. split; [reflexivity|].
    exists (Staging.savedName saved), filename, path.
    rewrite ArgsFacts.buildPowerShellArgs_eq, C, E. unfold Exec.started.
    now repeat split.
  - destruct (Staging.stdoutPipeErr env); [apply F|].
    destruct (Staging.stderrPipeErr env); [apply F|].
    destruct (Staging.startErr env); [apply F|].
    cbn [fst snd Exec.once Exec.cleanup].
    split; [rewrite E; reflexivity|]. split; [reflexivity|].
    exists (Staging.savedName saved), (Staging.savedName saved), path.
    rewrite ArgsFacts.buildPowerShellArgs_eq, C, E. unfold Exec.started.
    now repeat split.
Qed.

End StagingFacts.

(** X16: when [saveStreamingScript] succeeds, the script has been written
    to a temporary file, the file closed and renamed to its name followed
    by [.ps1], which is the name returned; the cleanup closure returned
    removes that file, unless the debug variable is set.  When it fails,
    it returns the empty name and the empty function, and no file has
    been staged under a final name. *)
Theorem saveStreamingScript_result (env : Staging.Env) (contents : string) :
  let saved := fst (Staging.saveStreamingScript env contents) in
  let events := snd (Staging.saveStreamingScript env contents) in
  match Staging.savedErr saved with
  | None =>
      exists temp : string,
        Staging.savedName saved = (temp ++ ".ps1")%string
        /\ HasSuffix (Staging.savedName saved) ".ps1" = true
        /\ Staging.savedCleanup saved
           = Some {| Exec.debug := Staging.debugSet env;
                     Exec.newFilename := Staging.savedName saved |}
        /\ events
           = [Staging.Created temp; Staging.Wrote temp contents;
              Staging.Closed temp;
              Staging.Renamed temp (Staging.savedName saved)]
  | Some e =>
      Staging.savedName saved = ""
      /\ Staging.savedCleanup saved = None
      /\ Staging.staged events = []
  end.
Proof.
  pose proof (StagingFacts.save_cases env contents) as C. cbv zeta in *.
  destruct (Staging.savedErr (fst (Staging.saveStreamingScript env contents)));
    [|exact C].
  destruct C as [C1 [C2 [C3 _]]]. now repeat split.
Qed.

(** X17: in the WSL branch of [saveStreamingScript] the error of
    [os.CreateTemp] is not the error returned: it goes to the variable the
    block declares, the function goes on with a nil file, and what it
    returns is [os.ErrInvalid] from the write on that file, with nothing
    created. *)
Theorem saveStreamingScript_wsl_create_error (env : Staging.Env)
  (contents tmpDir dir : string) (e : Err) :
  Staging.isWSL env = true ->
  Staging.getWSlTemp env = Ok tmpDir ->
  Staging.convertWindowsPathToWSlPath env tmpDir = Ok dir ->
  Staging.createTempIn env dir = Failed e ->
  Staging.saveStreamingScript env contents
  = (Staging.notSaved (ErrOther "invalid argument"), []).
Proof.
  intros H1 H2 H3 H4. unfold Staging.saveStreamingScript.
  now rewrite H1, H2, H3, H4.
Qed.

Lemma saveStreamingScript_wsl_create_error_witness :
  Staging.saveStreamingScript
    (stagingEnv true (Failed (ErrOther "no space left on device")) None)
    "script"
  = (Staging.notSaved (ErrOther "invalid argument"), []).
Proof.
  exact (saveStreamingScript_wsl_create_error
           (stagingEnv true (Failed (ErrOther "no space left on device"))
                       None)
           "script" "C:\Temp" "/mnt/c/Temp"
           (ErrOther "no space left on device")
           eq_refl eq_refl eq_refl eq_refl).
Defined.

(** X18: [powershellRunner.Stream] does not leave a staged script behind
    when it fails.  When it returns an error no process has been spawned,
    and if the script had been staged, the cleanup closure has run exactly
    once (it removes the script unless the debug variable is set).  When
    it returns a process, exactly one script was staged and one process
    spawned, with the argument list built from the script file and the
    parameters; the cleanup closure has not run yet and is handed to the
    process, whose [sync.Once] is still to run. *)
Theorem Stream_cleans_up_on_failure (env : Staging.Env) (script : string)
  (params : list string) :
  let events := snd (Staging.Stream env script params) in
  match fst (Staging.Stream env script params) with
  | Failed e =>
      Staging.spawns events = []
      /\ match Staging.staged events with
         | [] => Staging.cleanupSteps events = []
         | [name] =>
             Staging.cleanupSteps events
             = Exec.runCleanup {| Exec.debug := Staging.debugSet env;
                                  Exec.newFilename := name |}
         | _ :: _ :: _ => False
         end
  | Ok process =>
      Staging.cleanupSteps events = []
      /\ Exec.once process = false
      /\ exists (name filename path : string),
           Staging.staged events = [name]
           /\ Exec.cleanup process
              = Some {| Exec.debug := Staging.debugSet env;
                        Exec.newFilename := name |}
           /\ (if Staging.isWSL env
               then Staging.convertWSlPathToWindowsPath env name = Ok filename
               else filename = name)
           /\ Staging.spawns events
              = [(path,
                  ["-ExecutionPolicy"; "Bypass"; "-NoProfile"; "-File";
                   filename] ++ params)]
  end.
Proof.
  pose proof (StagingFacts.Stream_cases env script params) as C.
  cbv zeta in *.
  destruct (fst (Staging.Stream env script params)) as [process|e];
    [|exact C].
  destruct C as [C1 [C2 [name [filename [path [C3 [_ [C4 [C5 C6]]]]]]]]].
  split; [exact C1|]. split; [exact C2|].
  exists name, filename, path. now repeat split.
Qed.

(** X19: a script staged by a successful [Stream] is removed exactly
    once over the life of the process: [Stream] itself does not run the
    cleanup, and whatever sequence of [Wait] and [Kill] calls follows, in
    any order, as long as there is one, the cleanup closure runs exactly
    once and removes the staged file (or nothing, when the debug variable
    is set). *)
Theorem staged_script_removed_once (env : Staging.Env) (script : string)
  (params : list string) (process : Exec.execStreamProcess)
  (calls : list Exec.Call) :
  fst (Staging.Stream env script params) = Ok process ->
  calls <> [] ->
  let steps :=
    Staging.cleanupSteps (snd (Staging.Stream env script params))
    ++ Exec.eventsOf (Exec.invokeAll calls process) in
  Exec.cleanupCalls steps = 1
  /\ Exec.removals steps
     = (if Staging.debugSet env then []
        else Staging.staged (snd (Staging.Stream env script params))).
Proof.
  intros HS Hcalls. cbv zeta.
  pose proof (StagingFacts.Stream_cases env script params) as C.
  cbv zeta in C. rewrite HS in C.
  destruct C as [C1 [_ [name [filename [path [C3 [C4 _]]]]]]].
  rewrite C1, C3, C4. cbn [app].
  destruct calls as [|call rest]; [contradiction|].
  cbn [Exec.invokeAll].
  destruct (ExecFacts.invoke_first call (Staging.processExitErr env)
              (Staging.processSignalErr env)
              {| Exec.debug := Staging.debugSet env;
                 Exec.newFilename := name |}) as [E1 O1].
  destruct (Exec.invoke call _) as [[err p1] events1].
  unfold Exec.eventsOf, Exec.stateOf in E1, O1. cbn [fst snd] in E1, O1.
  destruct (ExecFacts.invokeAll_after_once rest p1 O1) as [E2 _].
  destruct (Exec.invokeAll rest p1) as [[errs p2] events2].
  unfold Exec.eventsOf in *. cbn [fst snd] in *.
  subst. rewrite app_nil_r. unfold Exec.runCleanup.
  cbn [Exec.debug Exec.newFilename].
  destruct (Staging.debugSet env); now split.
Qed.

Lemma staged_script_removed_once_witness :
  let env := stagingEnv false (Ok "/tmp/Powershell1") None in
  exists process : Exec.execStreamProcess,
    fst (Staging.Stream env "script" ["vm"]) = Ok process
    /\ Exec.removals
         (Staging.cleanupSteps (snd (Staging.Stream env "script" ["vm"]))
          ++ Exec.eventsOf
               (Exec.invokeAll [Exec.CallKill; Exec.CallWait] process))
       = ["/tmp/Powershell1.ps1"].
Proof.
  intros env.
  destruct (fst (Staging.Stream env "script" ["vm"])) as [process|e] eqn:E;
    [|discriminate E].
  exists process. split; [reflexivity|].
  assert (N : [Exec.CallKill; Exec.CallWait] <> []) by discriminate.
  exact (proj2 (staged_script_removed_once env "script" ["vm"] process
                  [Exec.CallKill; Exec.CallWait] E N)).
Defined.

(* ------------------------------------------------------------------ *)
(** ** The stream protocol *)

Module EnvelopeFacts.

Import Json.

Lemma parseString_literal (l : list ascii) :
  forallb literalChar l = true ->
  forall (fuel : nat) (r acc : list ascii),
    (List.length l < fuel)%nat ->
    parseString fuel (l ++ quote :: r) acc
    = Some (string_of_list_ascii (acc ++ l), r).
Proof.
  induction l as [|c l IH]; intros Hl fuel r acc Hf.
  - destruct fuel as [|fuel]; [cbn in Hf; lia|].
    cbn. now rewrite app_nil_r.
  - cbn [forallb] in Hl. apply andb_true_iff in Hl as [Hc Hl].
    destruct fuel as [|fuel]; [cbn in Hf; lia|].
    unfold literalChar in Hc.
    apply andb_true_iff in Hc as [Hc H3].
    apply andb_true_iff in Hc as [Hc H2].
    apply andb_true_iff in Hc as [_ H1].
    apply negb_true_iff in H1, H2, H3.
    cbn [app parseString]. rewrite H1, H2, H3.
    rewrite IH by (trivial; cbn in Hf; lia).
    now rewrite <- app_assoc.
Qed.

(** One member ["key":"value"] in compact form, followed by [d]. *)
Lemma parseMembers_string (key val : list ascii) (d : ascii)
  (r : list ascii) (fuel : nat) (depth : N)
  (acc : list (string * Value)) :
  forallb literalChar key = true ->
  forallb literalChar val = true ->
  isSpace d = false ->
  parseMembers (S (S fuel)) depth
    (quote :: key ++ quote :: ":"%char :: quote :: val ++ quote :: d :: r) acc
  = let member := (string_of_list_ascii key, Str (string_of_list_ascii val)) in
    if isChar d "," then parseMembers (S fuel) depth r (acc ++ [member])
    else if isChar d "}" then Some (Object (acc ++ [member]), r)
    else None.
Proof.
  intros Hk Hv Hd.
  cbn [parseMembers skipSpace]. change (isSpace quote) with false.
  cbn iota. change (isChar quote quote) with true. cbn iota.
  rewrite (parseString_literal key Hk) by (rewrite length_app; cbn; lia).
  cbn [app skipSpace]. change (isSpace ":") with false. cbn iota.
  change (isChar ":" ":") with true. cbn iota.
  cbn [parseValue skipSpace]. change (isSpace quote) with false. cbn iota.
  change (isChar quote "{") with false. change (isChar quote "[") with false.
  change (isChar quote quote) with true. cbn iota.
  rewrite (parseString_literal val Hv) by (rewrite length_app; cbn; lia).
  cbn [app skipSpace]. rewrite Hd. reflexivity.
Qed.

Lemma literal_table : forallb literalOk (seq 0 64) = true.
Proof. vm_compute. reflexivity. Qed.

Lemma encodeChar_literal (i : Z) :
  (0 <= i < 64)%Z -> literalChar (Base64.encodeChar i) = true.
Proof.
  intros Hi. pose proof literal_table as T.
  rewrite forallb_forall in T.
  specialize (T (Z.to_nat i)). unfold literalOk in T.
  rewrite Z2Nat.id in T by lia. apply T. apply in_seq. lia.
Qed.

Lemma encode_literal (n : nat) :
  forall bs : list byte, (List.length bs <= n)%nat ->
  forallb literalChar (Base64.encode bs) = true.
Proof.
  induction n as [|n IH]; intros bs Hlen.
  - destruct bs; [reflexivity | cbn in Hlen; lia].
  - destruct bs as [|b0 [|b1 [|b2 rest]]]; [reflexivity| | |].
    + rewrite Base64Facts.encode_1. cbn [forallb].
      rewrite !encodeChar_literal by apply Base64Facts.six_range.
      reflexivity.
    + rewrite Base64Facts.encode_2. cbn [forallb].
      rewrite !encodeChar_literal by apply Base64Facts.six_range.
      reflexivity.
    + rewrite Base64Facts.encode_3. cbn [forallb].
      rewrite !encodeChar_literal by apply Base64Facts.six_range.
      rewrite IH by (cbn in Hlen; lia). reflexivity.
Qed.

Lemma literal_plain (l : list ascii) :
  forallb literalChar l = true -> Forall (fun c => plain c = true) l.
Proof.
  intros H. apply Forall_forall. intros c Hc.
  rewrite forallb_forall in H. specialize (H c Hc).
  unfold literalChar in H.
  do 3 (apply andb_true_iff in H as [H _]). exact H.
Qed.

(** The characters of a data envelope. *)
Lemma dataLine_chars (stream : string) (payload : list byte) :
  list_ascii_of_string (dataLine stream payload)
  = "{"%char :: quote :: list_ascii_of_string "stream" ++ quote :: ":"%char
      :: quote :: list_ascii_of_string stream ++ quote :: ","%char
      :: quote :: list_ascii_of_string "data" ++ quote :: ":"%char
      :: quote :: Base64.encode payload ++ quote :: "}"%char :: [].
Proof.
  unfold dataLine, Base64.EncodeToString.
  rewrite !TrimFacts.list_ascii_of_string_app.
  rewrite list_ascii_of_string_of_list_ascii.
  cbn [dq list_ascii_of_string app Ascii.eqb Bool.eqb].
  rewrite <- ?app_assoc. reflexivity.
Qed.

(** A data envelope is decoded into its stream name and its encoded
    payload. *)
Lemma Unmarshal_dataLine (stream : string) (payload : list byte) :
  forallb literalChar (list_ascii_of_string stream) = true ->
  Unmarshal (dataLine stream payload)
  = Ok {| Stream := stream; Data := Base64.EncodeToString payload;
          Code := 0 |}.
Proof.
  intros Hs. unfold Unmarshal, parse. cbv zeta.
  rewrite dataLine_chars.
  set (n := List.length _).
  cbn [parseValue skipSpace].
  change (isSpace "{") with false. cbn iota.
  change (isChar "{" "{") with true. cbn iota.
  change (maxNestingDepth <? 0 + 1)%N with false. cbn iota.
  cbn [skipSpace]. change (isSpace quote) with false. cbn iota.
  change (isChar quote "}") with false. cbn iota.
  assert (Hn : exists m : nat, n = S (S m)).
  { subst n. cbn [List.length app]. rewrite length_app. cbn [List.length].
    eexists. rewrite Nat.add_succ_r. reflexivity. }
  destruct Hn as [m ->].
  rewrite parseMembers_string; [|reflexivity|exact Hs|reflexivity].
  cbv zeta. change (isChar "," ",") with true. cbn iota.
  rewrite parseMembers_string;
    [|reflexivity
     |apply (encode_literal (List.length payload)); apply le_n
     |reflexivity].
  cbv zeta. change (isChar "}" ",") with false.
  change (isChar "}" "}") with true. cbn iota.
  cbn [skipSpace app fold_left storeMember].
  rewrite !string_of_list_ascii_of_string.
  reflexivity.
Qed.

(** *** Numbers *)

Ltac digit_step IH :=
  cbn [digitsValue takeDigits app];
  match goal with
  | |- context [isDigit ?c] => change (isDigit c) with true
  end;
  cbn iota;
  try match goal with
      | |- context [Z.of_N (code ?c - 48)] =>
          let v := eval vm_compute in (Z.of_N (code c - 48)) in
          change (Z.of_N (code c - 48)) with v
      end.

Lemma digitsValue_digits (d : Decimal.uint) :
  forall acc : positive,
    digitsValue (digitChars d) (Z.pos acc)
    = Some (Z.pos (Pos.of_uint_acc d acc)).
Proof.
  unfold digitChars.
  induction d as [|d IH|d IH|d IH|d IH|d IH|d IH|d IH|d IH|d IH|d IH];
    intros acc; cbn [NilEmpty.string_of_uint list_ascii_of_string
                     Pos.of_uint_acc];
    [reflexivity|..]; digit_step IH; rewrite <- IH; f_equal; lia.
Qed.

Lemma takeDigits_digits (d : Decimal.uint) (c : ascii) (r : list ascii) :
  isDigit c = false ->
  takeDigits (digitChars d ++ c :: r) = (digitChars d, c :: r).
Proof.
  intros Hc. unfold digitChars.
  induction d as [|d IH|d IH|d IH|d IH|d IH|d IH|d IH|d IH|d IH|d IH];
    cbn [NilEmpty.string_of_uint list_ascii_of_string];
    [cbn; now rewrite Hc|..]; digit_step IH; now rewrite IH.
Qed.

Lemma nzhead_zero (l l' : Decimal.uint) :
  Decimal.nzhead l = Decimal.D0 l' -> False.
Proof. induction l; cbn; intros H; try discriminate; auto. Qed.

(** The decimal text of a positive number starts with a digit that is
    not zero. *)
Lemma to_uint_head (p : positive) :
  match Pos.to_uint p with
  | Decimal.Nil | Decimal.D0 _ => False
  | _ => True
  end.
Proof.
  pose proof (DecimalPos.Unsigned.to_of (Pos.to_uint p)) as H.
  rewrite DecimalPos.Unsigned.of_to in H. cbn [N.to_uint] in H.
  pose proof (DecimalPos.Unsigned.to_uint_nonnil p) as N.
  pose proof (DecimalPos.Unsigned.of_to p) as O.
  destruct (Pos.to_uint p) as [|l|l|l|l|l|l|l|l|l|l]; try exact I;
    [congruence|].
  unfold Decimal.unorm in H. cbn [Decimal.nzhead] in H.
  destruct (Decimal.nzhead l) eqn:E; try discriminate H.
  - inversion H; subst. discriminate O.
  - now apply nzhead_zero in E.
Qed.

Lemma digits_pos (p : positive) :
  exists (c : ascii) (l : Decimal.uint) (k : positive),
    digitChars (Pos.to_uint p) = c :: digitChars l
    /\ isChar c "0" = false /\ isChar c "-" = false /\ isDigit c = true
    /\ (10 * 0 + Z.of_N (code c - 48))%Z = Z.pos k
    /\ Pos.of_uint_acc l k = p.
Proof.
  pose proof (to_uint_head p) as H.
  pose proof (DecimalPos.Unsigned.of_to p) as O.
  unfold digitChars.
  destruct (Pos.to_uint p) as [|l|l|l|l|l|l|l|l|l|l]; try contradiction;
    cbn [Pos.of_uint] in O; injection O as O;
    cbn [NilEmpty.string_of_uint list_ascii_of_string];
    eexists; exists l; eexists;
    (split; [reflexivity|]); repeat (split; [reflexivity|]); exact O.
Qed.

Lemma itoa_digits (z : Z) :
  list_ascii_of_string (itoa z)
  = match z with
    | Z0 => ["0"%char]
    | Z.pos p => digitChars (Pos.to_uint p)
    | Z.neg p => "-"%char :: digitChars (Pos.to_uint p)
    end.
Proof.
  unfold itoa, digitChars. destruct z as [|p|p]; [reflexivity| |];
    cbn [Z.to_int NilZero.string_of_int list_ascii_of_string];
    pose proof (DecimalPos.Unsigned.to_uint_nonnil p) as N;
    destruct (Pos.to_uint p); try contradiction; reflexivity.
Qed.

(** The decimal text of an integer is read back as a number literal up
    to the character after it. *)
Lemma parseNumber_itoa (z : Z) (c : ascii) (r : list ascii) :
  isDigit c = false -> isChar c "." = false ->
  isChar c "e" = false -> isChar c "E" = false ->
  parseNumber (list_ascii_of_string (itoa z) ++ c :: r)
  = Some (itoa z, c :: r).
Proof.
  intros H1 H2 H3 H4.
  rewrite <- (string_of_list_ascii_of_string (itoa z)) at 2.
  rewrite itoa_digits. unfold parseNumber.
  assert (T : forall s, takeFrac (c :: s) = Some ([], c :: s)
                        /\ takeExp (c :: s) = Some ([], c :: s)).
  { intros s. unfold takeFrac, takeExp. now rewrite H2, H3, H4. }
  destruct z as [|p|p].
  - cbn [app]. change (isChar "0" "-") with false. cbn iota.
    cbn [takeInt]. change (isChar "0" "0") with true. cbn iota.
    destruct (T r) as [-> ->]. reflexivity.
  - destruct (digits_pos p) as [d [l [k [-> [D1 [D2 [D3 _]]]]]]].
    cbn [app]. rewrite D2. cbn [takeInt]. rewrite D1, D3.
    rewrite (takeDigits_digits l c r H1).
    destruct (T r) as [-> ->]. now rewrite !app_nil_r.
  - destruct (digits_pos p) as [d [l [k [-> [D1 [D2 [D3 _]]]]]]].
    cbn [app]. change (isChar "-" "-") with true. cbn iota.
    cbn [takeInt]. rewrite D1, D3.
    rewrite (takeDigits_digits l c r H1).
    destruct (T r) as [-> ->]. now rewrite !app_nil_r.
Qed.

(** [strconv.ParseInt] inverts the decimal text on the range of
    [int64]. *)
Lemma parseInt64_itoa (z : Z) :
  (- 2 ^ 63 <= z <= 2 ^ 63 - 1)%Z -> parseInt64 (itoa z) = Some z.
Proof.
  intros Hz. unfold parseInt64. rewrite itoa_digits.
  destruct z as [|p|p].
  - reflexivity.
  - destruct (digits_pos p) as [d [l [k [-> [_ [D2 [D3 [D4 D5]]]]]]]].
    rewrite D2. cbn [digitsValue]. rewrite D3, D4.
    rewrite digitsValue_digits, D5.
    replace ((- 2 ^ 63 <=? Z.pos p) && (Z.pos p <=? 2 ^ 63 - 1))%Z
      with true; [reflexivity|].
    symmetry. apply andb_true_iff. split; apply Z.leb_le; lia.
  - destruct (digits_pos p) as [d [l [k [E [_ [D2 [D3 [D4 D5]]]]]]]].
    change (isChar "-" "-") with true. cbn iota. rewrite E.
    cbn [digitsValue]. rewrite D3, D4.
    rewrite digitsValue_digits, D5.
    change (- Z.pos p)%Z with (Z.neg p).
    replace ((- 2 ^ 63 <=? Z.neg p) && (Z.neg p <=? 2 ^ 63 - 1))%Z
      with true; [reflexivity|].
    symmetry. apply andb_true_iff. split; apply Z.leb_le; lia.
Qed.

Lemma digit_starts_number (c : ascii) :
  isDigit c = true \/ c = "-"%char ->
  isSpace c = false /\ isChar c "{" = false /\ isChar c "[" = false
  /\ isChar c quote = false /\ isChar c "t" = false
  /\ isChar c "f" = false /\ isChar c "n" = false.
Proof.
  intros [H| ->]; [|now repeat split].
  destruct c as [[] [] [] [] [] [] [] []]; try discriminate H;
    now repeat split.
Qed.

Lemma parseValue_itoa (fuel : nat) (depth : N) (z : Z) (c : ascii)
  (r : list ascii) :
  isDigit c = false -> isChar c "." = false ->
  isChar c "e" = false -> isChar c "E" = false ->
  parseValue (S fuel) depth (list_ascii_of_string (itoa z) ++ c :: r)
  = Some (Number (itoa z), c :: r).
Proof.
  intros H1 H2 H3 H4.
  pose proof (parseNumber_itoa z c r H1 H2 H3 H4) as P.
  assert (H : exists (h : ascii) (t : list ascii),
             list_ascii_of_string (itoa z) = h :: t
             /\ (isDigit h = true \/ h = "-"%char)).
  { rewrite itoa_digits. destruct z as [|p|p].
    - exists "0"%char, []. now split; [|left].
    - destruct (digits_pos p) as [d [l [k [-> [_ [_ [D3 _]]]]]]].
      exists d, (digitChars l). now split; [|left].
    - eexists _, _. split; [reflexivity | now right]. }
  destruct H as [h [t [E Hh]]]. rewrite E in *. cbn [app] in *.
  destruct (digit_starts_number h Hh) as [S0 [S1 [S2 [S3 [S4 [S5 S6]]]]]].
  cbn [parseValue skipSpace]. rewrite S0, S1, S2, S3, S4, S5, S6.
  now rewrite P.
Qed.

Lemma exitLine_chars (code : Z) :
  list_ascii_of_string (exitLineOf code)
  = "{"%char :: quote :: list_ascii_of_string "stream" ++ quote :: ":"%char
      :: quote :: list_ascii_of_string "exit" ++ quote :: ","%char
      :: quote :: list_ascii_of_string "code" ++ quote :: ":"%char
      :: list_ascii_of_string (itoa code) ++ ["}"%char].
Proof.
  unfold exitLineOf.
  rewrite !TrimFacts.list_ascii_of_string_app.
  cbn [dq list_ascii_of_string app Ascii.eqb Bool.eqb].
  reflexivity.
Qed.

(** An exit envelope is decoded into the stream name [exit] and its
    code. *)
Lemma Unmarshal_exitLine (code : Z) :
  (- 2 ^ 63 <= code <= 2 ^ 63 - 1)%Z ->
  Unmarshal (exitLineOf code)
  = Ok {| Stream := "exit"; Data := ""; Code := code |}.
Proof.
  intros Hc. unfold Unmarshal, parse. cbv zeta.
  rewrite exitLine_chars.
  set (n := List.length _).
  assert (Hn : exists m : nat, n = S (S (S m))).
  { subst n. cbn [List.length app]. eexists. reflexivity. }
  destruct Hn as [m ->].
  cbn [parseValue skipSpace].
  change (isSpace "{") with false. cbn iota.
  change (isChar "{" "{") with true. cbn iota.
  change (maxNestingDepth <? 0 + 1)%N with false. cbn iota.
  cbn [skipSpace]. change (isSpace quote) with false. cbn iota.
  change (isChar quote "}") with false. cbn iota.
  rewrite parseMembers_string; [|reflexivity|reflexivity|reflexivity].
  cbv zeta. change (isChar "," ",") with true. cbn iota.
  cbn [parseMembers skipSpace]. change (isSpace quote) with false.
  cbn iota. change (isChar quote quote) with true. cbn iota.
  rewrite (parseString_literal (list_ascii_of_string "code") eq_refl)
    by (rewrite length_app; cbn; lia).
  cbn [app skipSpace]. change (isSpace ":") with false. cbn iota.
  change (isChar ":" ":") with true. cbn iota.
  rewrite parseValue_itoa by reflexivity.
  cbn [skipSpace]. change (isSpace "}") with false. cbn iota.
  change (isChar "}" ",") with false. change (isChar "}" "}") with true.
  cbn iota. rewrite !string_of_list_ascii_of_string.
  cbn [skipSpace app fold_left storeMember].
  change (keyIs "stream" "stream") with true. cbn iota.
  cbn [storeString storeMember].
  change (keyIs "code" "stream") with false.
  change (keyIs "code" "data") with false.
  change (keyIs "code" "code") with true.
  cbn iota. cbn [storeInt Stream Data Code].
  rewrite (parseInt64_itoa code Hc). reflexivity.
Qed.

(** *** Lines *)

Lemma digits_plain (d : Decimal.uint) :
  Forall (fun c => plain c = true) (digitChars d).
Proof.
  unfold digitChars. induction d; cbn [NilEmpty.string_of_uint
                                   list_ascii_of_string];
    constructor; auto.
Qed.

Lemma itoa_plain (z : Z) :
  Forall (fun c => plain c = true) (list_ascii_of_string (itoa z)).
Proof.
  rewrite itoa_digits. destruct z; repeat constructor; apply digits_plain.
Qed.

Ltac plain_chars :=
  repeat first
    [ apply Forall_cons; [reflexivity|]
    | apply Forall_app; split
    | apply Forall_nil ].

Lemma TrimSpace_dataLine (stream : string) (payload : list byte) :
  forallb literalChar (list_ascii_of_string stream) = true ->
  TrimSpace (dataLine stream payload) = dataLine stream payload.
Proof.
  intros Hs.
  rewrite <- (string_of_list_ascii_of_string (dataLine stream payload)).
  apply GoStringsFacts.TrimSpace_plain. rewrite dataLine_chars.
  plain_chars.
  - now apply literal_plain.
  - apply (Base64Facts.encode_plain (List.length payload)), le_n.
Qed.

Lemma TrimSpace_exitLine (code : Z) :
  TrimSpace (exitLineOf code) = exitLineOf code.
Proof.
  rewrite <- (string_of_list_ascii_of_string (exitLineOf code)).
  apply GoStringsFacts.TrimSpace_plain. rewrite exitLine_chars.
  plain_chars. apply itoa_plain.
Qed.

Lemma consumeLine_message (cmd : RemoteCmd) (m : Message) :
  consumeLine cmd (messageLine m) = (deliver cmd m, Continue).
Proof.
  unfold consumeLine. cbv zeta.
  destruct m as [payload|payload]; unfold messageLine, deliver.
  - rewrite TrimSpace_dataLine by reflexivity.
    rewrite Unmarshal_dataLine by reflexivity.
    change (isEmpty (dataLine "stdout" payload)) with false. cbn iota.
    cbn [Stream Data String.eqb Ascii.eqb Bool.eqb].
    rewrite Base64Facts.decodeBase64_EncodeToString.
    now destruct (hasStdout cmd).
  - rewrite TrimSpace_dataLine by reflexivity.
    rewrite Unmarshal_dataLine by reflexivity.
    change (isEmpty (dataLine "stderr" payload)) with false. cbn iota.
    cbn [Stream Data String.eqb Ascii.eqb Bool.eqb].
    rewrite Base64Facts.decodeBase64_EncodeToString.
    now destruct (hasStderr cmd).
Qed.

Lemma exitEnvelope_exitLine (code : Z) :
  (- 2 ^ 63 <= code <= 2 ^ 63 - 1)%Z ->
  exitEnvelope (exitLineOf code) = Some code.
Proof.
  intros Hc. unfold exitEnvelope. cbv zeta.
  rewrite TrimSpace_exitLine, (Unmarshal_exitLine code Hc).
  reflexivity.
Qed.

Lemma exitEnvelope_message (m : Message) :
  exitEnvelope (messageLine m) = None.
Proof.
  pose proof (DecoderFacts.consumeLine_cases
                {| Command := ""; hasStdout := false; hasStderr := false |}
                (messageLine m)) as C.
  rewrite consumeLine_message in C.
  destruct (exitEnvelope (messageLine m)); [discriminate C | reflexivity].
Qed.

Lemma consumeLoop_messages (cmd : RemoteCmd) (ms : list Message) :
  consumeLoop cmd (map messageLine ms)
  = (List.concat (map (deliver cmd) ms), Continue).
Proof.
  induction ms as [|m ms IH]; [reflexivity|].
  cbn [map consumeLoop List.concat].
  now rewrite consumeLine_message, IH.
Qed.

Lemma performAll_app (s : Sinks) (a b : list Effect) :
  performAll s (a ++ b) = performAll (performAll s a) b.
Proof. apply fold_left_app. Qed.

Lemma performAll_deliver (cmd : RemoteCmd) (ms : list Message) :
  forall s : Sinks,
    performAll s (List.concat (map (deliver cmd) ms))
    = {| stdoutSink :=
           stdoutSink s ++ (if hasStdout cmd then stdoutOf ms else []);
         stderrSink :=
           stderrSink s ++ (if hasStderr cmd then stderrOf ms else []);
         exited := exited s |}.
Proof.
  induction ms as [|m ms IH]; intros [out err ex].
  - cbn. destruct (hasStdout cmd), (hasStderr cmd);
      now rewrite !app_nil_r.
  - cbn [map List.concat]. rewrite performAll_app, IH.
    destruct m as [payload|payload]; cbn [deliver stdoutOf stderrOf];
      unfold writePayload.
    + destruct (hasStdout cmd); [|reflexivity].
      destruct payload as [|b payload]; [reflexivity|].
      cbn [List.length Nat.ltb Nat.leb performAll fold_left perform
           stdoutSink stderrSink exited].
      now rewrite <- app_assoc.
    + destruct (hasStderr cmd); [|reflexivity].
      destruct payload as [|b payload]; [reflexivity|].
      cbn [List.length Nat.ltb Nat.leb performAll fold_left perform
           stdoutSink stderrSink exited].
      now rewrite <- app_assoc.
Qed.

End EnvelopeFacts.

(** X20: the stream protocol round trip.  Whatever the data messages and
    whatever the exit code (in the range of [int64]), when the stream
    carries the envelopes of the messages followed by the exit envelope,
    the decoder leaves in each sink that is set exactly the payloads
    addressed to it, in order and byte for byte, resolves the exit status
    once, with the code of the envelope, and ignores what follows the
    exit envelope. *)
Theorem protocol_round_trip (cmd : RemoteCmd) (ms : list Message)
  (code : Z) (after : list string) (e : option Err) :
  (- 2 ^ 63 <= code <= 2 ^ 63 - 1)%Z ->
  performAll emptySinks
    (consumeMessages
       (Some {| Bufio.tokens :=
                  map messageLine ms ++ exitLineOf code :: after;
                Bufio.scanErr := e |})
       cmd)
  = {| stdoutSink := if hasStdout cmd then stdoutOf ms else [];
       stderrSink := if hasStderr cmd then stderrOf ms else [];
       exited := [code] |}.
Proof.
  intros Hc. unfold consumeMessages. cbn [Bufio.tokens].
  rewrite (DecoderFacts.consumeLoop_exit cmd (map messageLine ms) after
             (exitLineOf code) code).
  - rewrite EnvelopeFacts.consumeLoop_messages. cbn [fst].
    rewrite EnvelopeFacts.performAll_app, EnvelopeFacts.performAll_deliver.
    reflexivity.
  - apply Forall_forall. intros t Ht. apply in_map_iff in Ht.
    destruct Ht as [m [<- _]]. apply EnvelopeFacts.exitEnvelope_message.
  - now apply EnvelopeFacts.exitEnvelope_exitLine.
Qed.

Lemma protocol_round_trip_witness :
  performAll emptySinks
    (consumeMessages
       (Some {| Bufio.tokens :=
                  map messageLine
                    [StdoutData [x68; x69]; StderrData [x21];
                     StdoutData [x0a]]
                  ++ exitLineOf (-3) :: ["trailing"];
                Bufio.scanErr := None |})
       testCommand)
  = {| stdoutSink := [x68; x69; x0a]; stderrSink := [x21];
       exited := [(-3)%Z] |}.
Proof.
  apply (protocol_round_trip testCommand
           [StdoutData [x68; x69]; StderrData [x21]; StdoutData [x0a]]
           (-3) ["trailing"] None).
  lia.
Defined.

Module SinkFacts.

Lemma stdoutWrites_app (a b : list Effect) :
  stdoutWrites (a ++ b) = stdoutWrites a ++ stdoutWrites b.
Proof.
  induction a as [|x a IH]; [reflexivity|].
  destruct x; cbn; now rewrite IH.
Qed.

Lemma stderrWrites_app (a b : list Effect) :
  stderrWrites (a ++ b) = stderrWrites a ++ stderrWrites b.
Proof.
  induction a as [|x a IH]; [reflexivity|].
  destruct x; cbn; now rewrite IH.
Qed.

Lemma stdoutWrites_warn (cmd : RemoteCmd) (text : string) :
  stdoutWrites (warn cmd text) = [].
Proof. unfold warn. now destruct (hasStderr cmd). Qed.

Lemma stderrWrites_warn (cmd : RemoteCmd) (text : string) :
  hasStderr cmd = false -> stderrWrites (warn cmd text) = [].
Proof. intros H. unfold warn. now rewrite H. Qed.

Lemma stdoutWrites_stderr_payload (data : list byte) :
  stdoutWrites (writePayload WriteStderr data) = [].
Proof. unfold writePayload. now destruct (0 <? List.length data)%nat. Qed.

Lemma stderrWrites_stdout_payload (data : list byte) :
  stderrWrites (writePayload WriteStdout data) = [].
Proof. unfold writePayload. now destruct (0 <? List.length data)%nat. Qed.

(** One iteration writes to a sink only when it is set. *)
Lemma consumeLine_nil_sinks (cmd : RemoteCmd) (text : string) :
  (hasStdout cmd = false -> stdoutWrites (fst (consumeLine cmd text)) = [])
  /\ (hasStderr cmd = false
      -> stderrWrites (fst (consumeLine cmd text)) = []).
Proof.
  unfold consumeLine. cbv zeta.
  destruct (isEmpty (TrimSpace text)); [now split|].
  destruct (Json.Unmarshal (TrimSpace text)) as [msg|err];
    [|split; intros H; cbn [fst];
      [apply stdoutWrites_warn | now apply stderrWrites_warn]].
  destruct (String.eqb (Stream msg) "stdout").
  { split; intros H.
    - now rewrite H.
    - destruct (hasStdout cmd); cbn [negb]; [|reflexivity].
      destruct (decodeBase64 (Data msg)); cbn [fst];
        [apply stderrWrites_stdout_payload | now apply stderrWrites_warn]. }
  destruct (String.eqb (Stream msg) "stderr").
  { split; intros H.
    - destruct (hasStderr cmd); cbn [negb]; [|reflexivity].
      destruct (decodeBase64 (Data msg)); cbn [fst];
        [apply stdoutWrites_stderr_payload | reflexivity].
    - now rewrite H. }
  destruct (String.eqb (Stream msg) "exit"); [now split|].
  split; intros H; cbn [fst];
    [apply stdoutWrites_warn | now apply stderrWrites_warn].
Qed.

Lemma consumeLoop_nil_sinks (cmd : RemoteCmd) (lines : list string) :
  (hasStdout cmd = false -> stdoutWrites (fst (consumeLoop cmd lines)) = [])
  /\ (hasStderr cmd = false
      -> stderrWrites (fst (consumeLoop cmd lines)) = []).
Proof.
  induction lines as [|text rest [IH1 IH2]]; [now split|].
  cbn [consumeLoop].
  destruct (consumeLine_nil_sinks cmd text) as [L1 L2].
  destruct (consumeLine cmd text) as [e1 [|code]]; cbn [fst] in *;
    [|now split].
  destruct (consumeLoop cmd rest) as [e2 flow]. cbn [fst] in *.
  split; intros H.
  - now rewrite stdoutWrites_app, L1, IH1.
  - now rewrite stderrWrites_app, L2, IH2.
Qed.



End SinkFacts.

(** X21: a writer that is nil is never written to.  Whatever the
    structured stream and the raw stderr stream carry, the two pumps of
    [Start] call no [Write] on [Stdout] when the command has none, and
    none on [Stderr] when the command has none, diagnostics included. *)
Theorem nil_sinks_never_written (cmd : RemoteCmd)
  (reader : option Bufio.Scanned) (raw : option RawStream) :
  let trace := consumeMessages reader cmd ++ copyStderr raw cmd in
  (hasStdout cmd = false -> stdoutWrites trace = [])
  /\ (hasStderr cmd = false -> stderrWrites trace = []).
Proof.
  cbv zeta. rewrite SinkFacts.stdoutWrites_app, SinkFacts.stderrWrites_app.
  assert (C : (hasStdout cmd = false -> stdoutWrites (copyStderr raw cmd) = [])
              /\ (hasStderr cmd = false
                  -> stderrWrites (copyStderr raw cmd) = [])).
  { unfold copyStderr. destruct raw as [stream|]; [|now split].
    rewrite SinkFacts.stdoutWrites_app, SinkFacts.stderrWrites_app.
    split; intros H.
    - assert (M : stdoutWrites
                    (if hasStderr cmd
                     then map WriteStderr (chunks stream) else []) = []).
      { destruct (hasStderr cmd); [|reflexivity].
        induction (chunks stream) as [|c l IH]; [reflexivity | exact IH]. }
      rewrite M. destruct (readErr stream);
        now rewrite ?SinkFacts.stdoutWrites_warn.
    - rewrite H. destruct (readErr stream);
        now rewrite ?SinkFacts.stderrWrites_warn. }
  assert (M : (hasStdout cmd = false
               -> stdoutWrites (consumeMessages reader cmd) = [])
              /\ (hasStderr cmd = false
                  -> stderrWrites (consumeMessages reader cmd) = [])).
  { unfold consumeMessages. destruct reader as [scanner|]; [|now split].
    cbv zeta.
    destruct (SinkFacts.consumeLoop_nil_sinks cmd (Bufio.tokens scanner))
      as [L1 L2].
    destruct (consumeLoop cmd (Bufio.tokens scanner)) as [effects [|code]];
      cbn [fst] in *; [|now split].
    rewrite !SinkFacts.stdoutWrites_app, !SinkFacts.stderrWrites_app.
    cbn [negb]. split; intros H.
    - rewrite (L1 H). destruct (Bufio.scanErr scanner);
        now rewrite ?SinkFacts.stdoutWrites_warn.
    - rewrite (L2 H). destruct (Bufio.scanErr scanner);
        now rewrite ?SinkFacts.stderrWrites_warn. }
  destruct C as [C1 C2], M as [M1 M2].
  split; intros H; [now rewrite M1, C1 | now rewrite M2, C2].
Qed.

Lemma nil_sinks_never_written_witness :
  let cmd := {| Command := "hostname"; hasStdout := false;
                hasStderr := false |} in
  let trace :=
    consumeMessages (Some (Bufio.scanString maxTokenSize successLines)) cmd
    ++ copyStderr (Some {| chunks := [[x21]]; readErr := Some ErrTooLong |})
         cmd in
  stdoutWrites trace = [] /\ stderrWrites trace = [].
Proof.
  intros cmd trace.
  destruct (nil_sinks_never_written cmd
              (Some (Bufio.scanString maxTokenSize successLines))
              (Some {| chunks := [[x21]]; readErr := Some ErrTooLong |}))
    as [H1 H2].
  split; [apply H1 | apply H2]; reflexivity.
Defined.



(* ------------------------------------------------------------------ *)
(** ** The environment of the PowerShell process *)

Module OverrideFacts.

Import Powershell.

Lemma split_assignment (key value : string) :
  splitAssignment key = None ->
  splitAssignment (assignment key value) = Some (key, value).
Proof.
  unfold assignment. induction key as [|c key IH]; intros H; [reflexivity|].
  cbn in *. destruct (Ascii.eqb c "="); [discriminate|].
  destruct (splitAssignment key) as [[k v]|]; [discriminate|].
  now rewrite IH.
Qed.

Lemma split_inv (kv key value : string) :
  splitAssignment kv = Some (key, value) ->
  splitAssignment key = None /\ kv = assignment key value.
Proof.
  unfold assignment. revert key.
  induction kv as [|c kv IH]; intros key H; [discriminate|].
  cbn in H. destruct (Ascii.eqb_spec c "=") as [->|N].
  - inversion H; subst. now split.
  - destruct (splitAssignment kv) as [[k v]|]; [|discriminate].
    inversion H; subst. destruct (IH k eq_refl) as [H1 H2].
    cbn. split.
    + destruct (Ascii.eqb_spec c "="); [contradiction|]. now rewrite H1.
    + now rewrite H2 at 1.
Qed.

Lemma lookup_in (m : StringMap) (key value : string) :
  lookup m key = Some value -> In (key, value) m.
Proof.
  induction m as [|[k v] m IH]; [discriminate|]. cbn.
  destruct (String.eqb_spec k key) as [->|N]; intros H.
  - inversion H. now left.
  - right. now apply IH.
Qed.

Lemma in_lookup (m : StringMap) (key value : string) :
  NoDup (map fst m) -> In (key, value) m -> lookup m key = Some value.
Proof.
  induction m as [|[k v] m IH]; intros D H; [contradiction|].
  cbn in *. inversion D as [|? ? N D']; subst.
  destruct H as [H|H].
  - inversion H; subst. now rewrite String.eqb_refl.
  - destruct (String.eqb_spec k key) as [->|_]; [|now apply IH].
    exfalso. apply N. apply in_map_iff. now exists (key, value).
Qed.

Lemma isHandled_in (handled : list string) (key : string) :
  isHandled handled key = true <-> In key handled.
Proof.
  unfold isHandled. rewrite existsb_exists. split.
  - intros [x [H E]]. apply String.eqb_eq in E. now subst.
  - intros H. exists key. split; [exact H | apply String.eqb_refl].
Qed.

(** The first loop: what it keeps, what it replaces and what it
    records. *)
Lemma overrideBase_spec (overrides : StringMap) (base : list string) :
  let result := fst (overrideBase base overrides) in
  let handled := snd (overrideBase base overrides) in
  List.length result = List.length base
  /\ (forall key, In key handled ->
        exists value, lookup overrides key = Some value
                      /\ In (assignment key value) result)
  /\ (forall kv, In kv result ->
        In kv base /\ untouched overrides kv = true
        \/ exists key value,
             kv = assignment key value /\ splitAssignment key = None
             /\ lookup overrides key = Some value /\ In key handled)
  /\ filter (untouched overrides) result = filter (untouched overrides) base
  /\ (forall kv key, In kv base -> entryKey kv = Some key ->
        lookup overrides key <> None -> In key handled).
Proof.
  induction base as [|kv base IH]; cbv zeta.
  - cbn. repeat split; try contradiction.
  - cbv zeta in IH. cbn [overrideBase].
    destruct (overrideBase base overrides) as [result handled].
    cbn [fst snd] in IH.
    destruct IH as [IH1 [IH2 [IH3 [IH4 IH5]]]].
    assert (K : forall l x, (forall y, In y result ->
                  In y base /\ untouched overrides y = true
                  \/ exists key value,
                       y = assignment key value /\ splitAssignment key = None
                       /\ lookup overrides key = Some value /\ In key l)
                -> In x result ->
                  In x (kv :: base) /\ untouched overrides x = true
                  \/ exists key value,
                       x = assignment key value /\ splitAssignment key = None
                       /\ lookup overrides key = Some value /\ In key l)
      by (intros l x Hy Hx; destruct (Hy x Hx) as [[A B]|E];
          [left; split; [now right | exact B] | right; exact E]).
    destruct (splitAssignment kv) as [[key old]|] eqn:S.
    + destruct (lookup overrides key) as [value|] eqn:L; cbn [fst snd].
      * destruct (split_inv kv key old S) as [Sk Ekv].
        assert (U1 : untouched overrides (assignment key value) = false).
        { unfold untouched, entryKey.
          now rewrite (split_assignment key value Sk); cbn; rewrite L. }
        assert (U2 : untouched overrides kv = false).
        { unfold untouched, entryKey. now rewrite S; cbn; rewrite L. }
        split; [cbn; now rewrite IH1|].
        split.
        { intros k [<-|Hk].
          - exists value. split; [exact L | now left].
          - destruct (IH2 k Hk) as [v [A B]]. exists v.
            split; [exact A | now right]. }
        split.
        { intros x [<-|Hx].
          - right. exists key, value. repeat split; auto. now left.
          - destruct (IH3 x Hx) as [[A B]|[k [v [A [B [C D]]]]]].
            + left. split; [now right | exact B].
            + right. exists k, v. repeat split; auto. now right. }
        split; [cbn [filter]; now rewrite U1, U2|].
        intros x k [<-|Hx] Hk Hl.
        { unfold entryKey in Hk. rewrite S in Hk. inversion Hk. now left. }
        right. now apply (IH5 x k).
      * assert (U : untouched overrides kv = true).
        { unfold untouched, entryKey. now rewrite S; cbn; rewrite L. }
        split; [cbn; now rewrite IH1|].
        split.
        { intros k Hk. destruct (IH2 k Hk) as [v [A B]]. exists v.
          split; [exact A | now right]. }
        split.
        { intros x [<-|Hx].
          - left. split; [now left | exact U].
          - now apply (K handled x IH3). }
        split; [cbn [filter]; now rewrite U, IH4|].
        intros x k [<-|Hx] Hk Hl.
        { unfold entryKey in Hk. rewrite S in Hk. inversion Hk; subst.
          contradiction. }
        now apply (IH5 x k).
    + cbn [fst snd].
      assert (U : untouched overrides kv = true).
      { unfold untouched, entryKey. now rewrite S. }
      split; [cbn; now rewrite IH1|].
      split.
      { intros k Hk. destruct (IH2 k Hk) as [v [A B]]. exists v.
        split; [exact A | now right]. }
      split.
      { intros x [<-|Hx].
        - left. split; [now left | exact U].
        - now apply (K handled x IH3). }
      split; [cbn [filter]; now rewrite U, IH4|].
      intros x k [<-|Hx] Hk Hl.
      { unfold entryKey in Hk. rewrite S in Hk. discriminate. }
      now apply (IH5 x k).
Qed.

Lemma appendMissing_in (entries : StringMap) (handled : list string)
  (kv : string) :
  In kv (appendMissing entries handled)
  <-> exists key value,
        In (key, value) entries /\ ~ In key handled
        /\ kv = assignment key value.
Proof.
  induction entries as [|[k v] entries IH].
  - cbn. split; [contradiction | intros [? [? [[] _]]]].
  - cbn [appendMissing].
    destruct (isHandled handled k) eqn:H.
    + apply isHandled_in in H. rewrite IH. split.
      * intros [key [value [A [B C]]]]. exists key, value.
        split; [now right|]. now split.
      * intros [key [value [[A|A] [B C]]]].
        { inversion A; subst. contradiction. }
        now exists key, value.
    + assert (N : ~ In k handled)
        by (intros I; apply isHandled_in in I; congruence).
      cbn [In]. rewrite IH. split.
      * intros [<-|[key [value [A [B C]]]]].
        { exists k, v. split; [now left|]. now split. }
        exists key, value. split; [now right|]. now split.
      * intros [key [value [[A|A] [B C]]]].
        { inversion A; subst. now left. }
        right. now exists key, value.
Qed.

End OverrideFacts.

(** X23: the environment that [applyEnvironmentOverrides] builds is the
    base environment with the overrides in force.  For a map whose keys
    hold no [=]: every override is in the result as [key=value]; every
    entry of the result whose key is overridden carries the value of the
    override, so no stale value survives; and the entries that no override
    concerns (those without [=] and those with another key) are the ones
    of the base, in the same order. *)
Theorem overrides_in_force (base : list string)
  (overrides : Powershell.StringMap) :
  NoDup (map fst overrides) ->
  Forall (fun entry => Powershell.splitAssignment (fst entry) = None)
         overrides ->
  let result := Powershell.applyEnvironmentOverrides base overrides in
  (forall key value : string,
     In (key, value) overrides ->
     In (Powershell.assignment key value) result)
  /\ (forall kv key value v : string,
        In kv result ->
        Powershell.splitAssignment kv = Some (key, value) ->
        Powershell.lookup overrides key = Some v -> value = v)
  /\ filter (Powershell.untouched overrides) result
     = filter (Powershell.untouched overrides) base
  /\ (List.length base <= List.length result
      <= List.length base + List.length overrides)%nat.
Proof.
  intros D K. cbv zeta. unfold Powershell.applyEnvironmentOverrides.
  destruct overrides as [|entry overrides'] eqn:E.
  { cbn. repeat split; try contradiction; try discriminate; lia. }
  rewrite <- E in *. cbn [List.length Nat.eqb].
  replace (List.length overrides =? 0)%nat with false
    by (rewrite E; reflexivity).
  pose proof (OverrideFacts.overrideBase_spec overrides base) as S.
  cbv zeta in S.
  destruct (Powershell.overrideBase base overrides) as [result handled].
  cbn [fst snd] in S. destruct S as [S1 [S2 [S3 [S4 _]]]].
  assert (A : forall kv, In kv (Powershell.appendMissing overrides handled) ->
              exists key value,
                kv = Powershell.assignment key value
                /\ Powershell.splitAssignment key = None
                /\ Powershell.lookup overrides key = Some value).
  { intros kv H. apply OverrideFacts.appendMissing_in in H.
    destruct H as [key [value [H1 [_ H3]]]]. exists key, value.
    split; [exact H3|]. split.
    - rewrite Forall_forall in K. exact (K (key, value) H1).
    - now apply OverrideFacts.in_lookup. }
  split; [|split; [|split]].
  - intros key value H. apply in_or_app.
    destruct (in_dec string_dec key handled) as [I|N].
    + left. destruct (S2 key I) as [v [L R]].
      rewrite (OverrideFacts.in_lookup overrides key value D H) in L.
      now inversion L.
    + right. apply OverrideFacts.appendMissing_in. now exists key, value.
  - intros kv key value v H Hs L.
    assert (C : exists k v0, kv = Powershell.assignment k v0
                             /\ Powershell.splitAssignment k = None
                             /\ Powershell.lookup overrides k = Some v0).
    { apply in_app_or in H. destruct H as [H|H]; [|now apply A].
      destruct (S3 kv H) as [[_ U]|[k [v0 [H1 [H2 [H3 _]]]]]].
      - unfold Powershell.untouched, Powershell.entryKey in U.
        rewrite Hs in U. cbn in U. rewrite L in U. discriminate.
      - now exists k, v0. }
    destruct C as [k [v0 [-> [C1 C2]]]].
    rewrite (OverrideFacts.split_assignment k v0 C1) in Hs.
    inversion Hs; subst. rewrite C2 in L. now inversion L.
  - rewrite filter_app, S4.
    replace (filter (Powershell.untouched overrides)
               (Powershell.appendMissing overrides handled)) with (@nil string);
      [apply app_nil_r|].
    symmetry.
    induction (Powershell.appendMissing overrides handled) as [|x l IH];
      [reflexivity|].
    cbn [filter]. destruct (A x (or_introl eq_refl)) as [k [v0 [-> [C1 C2]]]].
    unfold Powershell.untouched at 1, Powershell.entryKey.
    rewrite (OverrideFacts.split_assignment k v0 C1). cbn. rewrite C2.
    apply IH. intros kv H. apply A. now right.
  - rewrite length_app, S1.
    assert (L : forall m : Powershell.StringMap,
              (List.length (Powershell.appendMissing m handled)
               <= List.length m)%nat).
    { induction m as [|[k v] m IH]; [apply le_n|].
      cbn. destruct (Powershell.isHandled handled k); cbn; lia. }
    specialize (L overrides). lia.
Qed.

Lemma overrides_in_force_witness :
  In "HOME=/tmp"
     (Powershell.applyEnvironmentOverrides
        ["PATH=/bin"; "HOME=/root"; "novalue"]
        [("HOME", "/tmp"); ("NEW", "1")])
  /\ filter (Powershell.untouched [("HOME", "/tmp"); ("NEW", "1")])
       (Powershell.applyEnvironmentOverrides
          ["PATH=/bin"; "HOME=/root"; "novalue"]
          [("HOME", "/tmp"); ("NEW", "1")])
     = ["PATH=/bin"; "novalue"].
Proof.
  assert (D : NoDup (map fst [("HOME", "/tmp"); ("NEW", "1")])).
  { repeat constructor; cbn; intuition discriminate. }
  assert (K : Forall (fun entry =>
                        Powershell.splitAssignment (fst entry) = None)
                [("HOME", "/tmp"); ("NEW", "1")])
    by (repeat constructor).
  destruct (overrides_in_force ["PATH=/bin"; "HOME=/root"; "novalue"]
              [("HOME", "/tmp"); ("NEW", "1")] D K) as [H1 [_ [H3 _]]].
  split.
  - apply (H1 "HOME" "/tmp"). now left.
  - exact H3.
Defined.

(* ------------------------------------------------------------------ *)
(** ** The global executor of the PowerShell package *)

Module ExecutorFacts.

Import Executor.

Section Global.

Variable E : Type.

Lemma setAll_spec (es : list E) :
  forall orig : E,
    snd (setAll E es orig) = last es orig
    /\ List.length (fst (setAll E es orig)) = List.length es
    /\ forall (i : nat) (st : E),
         (i < List.length es)%nat ->
         nth i (fst (setAll E es orig)) (fun s => s) st
         = nth i (orig :: es) orig.
Proof.
  induction es as [|e es IH]; intros orig.
  - cbn. repeat split. intros i st H. lia.
  - cbn [setAll SetExecutor].
    destruct (IH e) as [H1 [H2 H3]].
    destruct (setAll E es e) as [restores final]. cbn [fst snd] in *.
    split; [|split].
    + rewrite H1. destruct es as [|e0 es]; [reflexivity|].
      change (last (e :: e0 :: es) orig) with (last (e0 :: es) orig).
      apply NewFacts.last_default.
    + cbn. now rewrite H2.
    + intros [|i] st Hi; [reflexivity|].
      cbn [nth List.length] in *. rewrite H3 by lia.
      destruct i as [|m]; [reflexivity|]. apply nth_indep. lia.
Qed.

Lemma callAll_last (restores : list (Restore E)) (r : Restore E) (st : E) :
  callAll E (restores ++ [r]) st = r (callAll E restores st).
Proof. unfold callAll. now rewrite fold_left_app. Qed.

End Global.

End ExecutorFacts.

(** X24: what the functions returned by [SetExecutor] restore.  After
    any number of [SetExecutor] calls the current executor is the last
    one set.  Each returned function puts back the executor that was
    current when its [SetExecutor] was called, whatever has happened
    since: so after the functions have been called in any order, the
    current executor is the one the last function called had saved.
    Called in the reverse order of the [SetExecutor] calls (as deferred
    calls are) they leave the original executor; called in another order
    they may leave an override in place. *)
Theorem restore_puts_back_saved (E : Type) (orig : E) (es : list E)
  (order : list nat) (i : nat) :
  (i < List.length es)%nat ->
  let restores := fst (Executor.setAll E es orig) in
  let current := snd (Executor.setAll E es orig) in
  let called :=
    map (fun k => nth k restores (fun s => s)) (order ++ [i]) in
  Executor.currentExecutor E current = last es orig
  /\ Executor.callAll E called current = nth i (orig :: es) orig
  /\ Executor.callAll E (List.rev restores) current = orig.
Proof.
  intros Hi. cbv zeta.
  destruct (ExecutorFacts.setAll_spec E es orig) as [H1 [H2 H3]].
  split; [exact H1|]. split.
  - rewrite map_app. cbn [map]. rewrite ExecutorFacts.callAll_last.
    now apply H3.
  - destruct (fst (Executor.setAll E es orig)) as [|r restores] eqn:R.
    + destruct es; cbn in Hi, H2; [lia | discriminate H2].
    + cbn [List.rev]. rewrite ExecutorFacts.callAll_last.
      assert (Z : (0 < List.length es)%nat) by lia.
      specialize (H3 0%nat (Executor.callAll E (List.rev restores)
                               (snd (Executor.setAll E es orig))) Z).
      cbn [nth] in H3. exact H3.
Qed.

Lemma restore_puts_back_saved_witness :
  let restores :=
    fst (Executor.setAll string ["first"; "second"] "local") in
  let current :=
    snd (Executor.setAll string ["first"; "second"] "local") in
  Executor.callAll string (List.rev restores) current = "local"
  /\ Executor.callAll string restores current = "first".
Proof.
  intros restores current.
  assert (H : (1 < List.length ["first"; "second"])%nat) by (cbn; lia).
  destruct (restore_puts_back_saved string "local" ["first"; "second"]
              [0%nat] 1%nat H) as [_ [H2 H3]].
  split; [exact H3 | exact H2].
Defined.

(* ------------------------------------------------------------------ *)
(** ** The goroutines of a session *)

Module ScheduleFacts.

Section Threads.

Context {A X : Type} (pick : A -> option X).





End Threads.







End ScheduleFacts.


